(** * comparator: directory comparison and synchronisation (main.py)

    A shallow embedding of [main.py] and of the parts of the Python
    standard library it calls ([os], [os.path], [hashlib], [shutil],
    [filecmp]), followed by the properties of the comparison engine
    ([compare_directories], [get_file_metadata], [get_file_hash]), of the
    apply step ([group_by], [do_action]) and of the equality utility
    ([are_directories_equal]).

    Modelling conventions.
    - A Python [str] is a [string]; an [int] is a [Z]; [bytes] is a
      [list byte].
    - The file system is a tree of regular files and directories (no
      links, no permissions).  A path is the list of its components from
      the root of the tree, i.e. what [os.path.abspath] denotes: absolute
      and free of [.] and [..].  [path_str] renders it as the POSIX string
      the program manipulates.
    - A Python exception is a value of [exn] carried by the [outcome]
      monad; code that mutates the file system threads it explicitly.
    - The iteration order of the Python [set] returned by
      [Action.mutation_options] depends on the per-process string hash
      seed; it is a parameter of [do_action].
    - [filecmp.dircmp] is that of Python 3.13, the first to accept the
      [shallow] argument that [are_directories_equal] passes; on an older
      interpreter the call raises [TypeError] and the function answers
      nothing. *)

From stdpp Require Import ssreflect base list strings gmap.
From Stdlib Require Import ZArith Lia.
From Stdlib.Strings Require Import Ascii Byte.

Set Default Proof Using "Type".
Set Warnings "-register-all,-rewrite-rw".


(** ** Exceptions *)

Inductive exn : Type :=
| FileNotFoundError
| NotADirectoryError
| IsADirectoryError
| SameFileError
| RecursionError.

Inductive outcome (A : Type) : Type :=
| Ok (a : A)
| Raise (e : exn).
Arguments Ok {A} a.
Arguments Raise {A} e.

#[global] Instance exn_eq_dec : EqDecision exn.
Proof. solve_decision. Defined.
#[global] Instance outcome_eq_dec {A : Type} `{EqDecision A} : EqDecision (outcome A).
Proof. solve_decision. Defined.

(** The monad of computations that may raise; [x ← m; k] runs [k] on the
    value of [m] and propagates its exception. *)
#[global] Instance outcome_ret : MRet outcome := λ A a, Ok a.
#[global] Instance outcome_bind : MBind outcome := λ A B k m,
  match m with
  | Ok a => k a
  | Raise e => Raise e
  end.

Definition is_ok {A : Type} (m : outcome A) : Prop := ∃ a, m = Ok a.

(** ** Python strings *)

Module pystr.

Definition len (s : string) : Z := Z.of_nat (String.length s).

Fixpoint take (n : nat) (s : string) : string :=
  match n, s with
  | S n', String a s' => String a (take n' s')
  | _, _ => EmptyString
  end.

Fixpoint drop (n : nat) (s : string) : string :=
  match n, s with
  | S n', String _ s' => drop n' s'
  | _, _ => s
  end.

(** A slice bound: negative bounds count from the end and are clipped
    at 0; bounds past the end are clipped by [take] and [drop]. *)
Definition bound (s : string) (i : Z) : nat :=
  Z.to_nat (if (i <? 0)%Z then Z.max 0 (i + len s) else i).

(** [s[:j]], [s[i:]] and [s[i:j]]. *)
Definition slice_to (s : string) (j : Z) : string := take (bound s j) s.
Definition slice_from (s : string) (i : Z) : string := drop (bound s i) s.
Definition slice (s : string) (i j : Z) : string :=
  take (bound s j - bound s i) (drop (bound s i) s).

(** [s.rfind(c)] for a one-character [c]: the highest index of [c] in
    [s], or [-1]. *)
Fixpoint rfind_from (c : ascii) (s : string) (i : Z) : Z :=
  match s with
  | EmptyString => -1
  | String a s' =>
      let r := rfind_from c s' (i + 1) in
      if (0 <=? r)%Z then r else if Ascii.eqb a c then i else -1
  end%Z.

Definition rfind (s : string) (c : ascii) : Z := rfind_from c s 0.

(** [s.split(c)] for a one-character separator. *)
Fixpoint split_go (c : ascii) (cur : string) (s : string) : list string :=
  match s with
  | EmptyString => [String.rev cur]
  | String a s' =>
      if Ascii.eqb a c then String.rev cur :: split_go c EmptyString s'
      else split_go c (String a cur) s'
  end.

Definition split (s : string) (c : ascii) : list string :=
  split_go c EmptyString s.

Definition upper (a : ascii) : ascii :=
  let n := nat_of_ascii a in
  if (97 <=? n)%nat && (n <=? 122)%nat then ascii_of_nat (n - 32) else a.

Definition lower (a : ascii) : ascii :=
  let n := nat_of_ascii a in
  if (65 <=? n)%nat && (n <=? 90)%nat then ascii_of_nat (n + 32) else a.

Fixpoint map (f : ascii → ascii) (s : string) : string :=
  match s with
  | EmptyString => EmptyString
  | String a s' => String (f a) (map f s')
  end.

(** [str.capitalize]: first character upper-cased, the rest lower-cased. *)
Definition capitalize (s : string) : string :=
  match s with
  | EmptyString => EmptyString
  | String a s' => String (upper a) (map lower s')
  end.

(** [sep.join(parts)]. *)
Fixpoint join (sep : string) (parts : list string) : string :=
  match parts with
  | [] => EmptyString
  | [x] => x
  | x :: rest => x +:+ sep +:+ join sep rest
  end.

(** [chr(n)]. *)
Definition chr (n : nat) : string := String (ascii_of_nat n) EmptyString.

(** Does the character [c] occur in [s]? *)
Fixpoint occurs (c : ascii) (s : string) : Prop :=
  match s with
  | EmptyString => False
  | String a s' => a = c ∨ occurs c s'
  end.

End pystr.

(** ** Paths ([os.path], POSIX flavour) *)

Definition path := list string.

Module os_path.

Definition sep : ascii := "/"%char.
Definition extsep : ascii := "."%char.
Definition curdir : string := ".".
Definition pardir : string := "..".

(** The string of an absolute path: [/a/b/c]; the root is [/]. *)
Definition path_str (p : path) : string :=
  match p with
  | [] => "/"
  | _ => "/" +:+ pystr.join "/" p
  end.

(** [os.path.join(a, b)] for a relative [b]. *)
Definition join (a : path) (b : list string) : path := a ++ b.

(** [os.path.basename]. *)
Definition basename (p : path) : string := List.last p "".

(** [os.path.commonprefix] on two component lists. *)
Fixpoint commonprefix (l1 l2 : list string) : list string :=
  match l1, l2 with
  | x :: l1', y :: l2' =>
      if decide (x = y) then x :: commonprefix l1' l2' else []
  | _, _ => []
  end.

(** [os.path.relpath(p, start)]: as many [..] as [start] has components
    below the common prefix, then the rest of [p]; [.] when that is
    empty. *)
Definition relpath (p start : path) : list string :=
  let i := length (commonprefix start p) in
  let rel_list := replicate (length start - i) pardir ++ drop i p in
  match rel_list with
  | [] => [curdir]
  | _ => rel_list
  end.

(** The loop of [genericpath._splitext] that skips the leading dots of
    the file name: it runs [dotIndex - filenameIndex] times at most. *)
Fixpoint skip_leading_dots (trips : nat) (p : string)
    (filenameIndex dotIndex : Z) : string * string :=
  match trips with
  | O => (p, pystr.slice_to p 0)
  | S trips' =>
      if decide (pystr.slice p filenameIndex (filenameIndex + 1)
                 ≠ String extsep EmptyString)
      then (pystr.slice_to p dotIndex, pystr.slice_from p dotIndex)
      else skip_leading_dots trips' p (filenameIndex + 1) dotIndex
  end.

(** [genericpath._splitext(p, sep, None, extsep)]. *)
Definition _splitext (p : string) : string * string :=
  let sepIndex := pystr.rfind p sep in
  let dotIndex := pystr.rfind p extsep in
  if (sepIndex <? dotIndex)%Z then
    let filenameIndex := (sepIndex + 1)%Z in
    skip_leading_dots (Z.to_nat (dotIndex - filenameIndex)) p
      filenameIndex dotIndex
  else (p, pystr.slice_to p 0).

(** [os.path.splitext]. *)
Definition splitext (p : string) : string * string := _splitext p.

End os_path.

(** ** The file system *)

(** The part of [os.stat_result] that [shutil.copystat] carries over. *)
Record file_stat : Type := FileStat { st_mode : N; st_mtime : Z }.

Inductive node : Type :=
| File (content : list byte) (st : file_stat)
| Dir (entries : list (string * node)).

#[global] Instance file_stat_eq_dec : EqDecision file_stat.
Proof. solve_decision. Defined.

#[global] Instance byte_eq_dec : EqDecision byte := Byte.byte_eq_dec.

Module fs.

Fixpoint lookup_entry (x : string) (es : list (string * node)) : option node :=
  match es with
  | [] => None
  | (y, c) :: es' => if decide (x = y) then Some c else lookup_entry x es'
  end.

(** [os.stat]: follow the components of the path from the root. *)
Fixpoint stat (n : node) (p : path) : outcome node :=
  match p with
  | [] => Ok n
  | x :: p' =>
      match n with
      | File _ _ => Raise NotADirectoryError
      | Dir es =>
          match lookup_entry x es with
          | Some c => stat c p'
          | None => Raise FileNotFoundError
          end
      end
  end.

Definition isfile (n : node) (p : path) : bool :=
  match stat n p with
  | Ok (File _ _) => true
  | _ => false
  end.

Definition isdir (n : node) (p : path) : bool :=
  match stat n p with
  | Ok (Dir _) => true
  | _ => false
  end.

Definition exists_ (n : node) (p : path) : bool :=
  match stat n p with
  | Ok _ => true
  | Raise _ => false
  end.

Definition names (es : list (string * node)) : list string := es.*1.

Definition is_dir_node (n : node) : bool :=
  match n with Dir _ => true | File _ _ => false end.

(** The names of the sub-directories and of the other entries of a
    directory, in listing order. *)
Definition dirnames (es : list (string * node)) : list string :=
  names (List.filter (λ e, is_dir_node e.2) es).
Definition filenames (es : list (string * node)) : list string :=
  names (List.filter (λ e, negb (is_dir_node e.2)) es).

(** No directory lists a name twice. *)
Fixpoint wf (n : node) : bool :=
  match n with
  | File _ _ => true
  | Dir es =>
      bool_decide (NoDup (names es))
      && (fix all (es : list (string * node)) : bool :=
            match es with
            | [] => true
            | (_, c) :: es' => wf c && all es'
            end) es
  end.

(** Nesting depth of directories. *)
Fixpoint depth (n : node) : nat :=
  match n with
  | File _ _ => 0
  | Dir es =>
      S ((fix most (es : list (string * node)) : nat :=
            match es with
            | [] => 0
            | (_, c) :: es' => Nat.max (depth c) (most es')
            end) es)
  end.

(** Replace or add the entry [x] of a listing; a new entry goes last. *)
Fixpoint set_entry (x : string) (c : node) (es : list (string * node))
    : list (string * node) :=
  match es with
  | [] => [(x, c)]
  | (y, d) :: es' =>
      if decide (x = y) then (y, c) :: es' else (y, d) :: set_entry x c es'
  end.

(** Create or truncate the regular file at [p] and give it [data] and
    [st]: what [open(p, "wb")], the writes and [copystat] amount to. *)
Fixpoint write (n : node) (p : path) (data : list byte) (st : file_stat)
    : outcome node :=
  match p with
  | [] =>
      match n with
      | File _ _ => Ok (File data st)
      | Dir _ => Raise IsADirectoryError
      end
  | x :: p' =>
      match n with
      | File _ _ => Raise NotADirectoryError
      | Dir es =>
          match lookup_entry x es with
          | Some c => c' ← write c p' data st; mret (Dir (set_entry x c' es))
          | None =>
              match p' with
              | [] => Ok (Dir (set_entry x (File data st) es))
              | _ => Raise FileNotFoundError
              end
          end
      end
  end.

(** [os.walk(top)], top-down: the triple of a directory, then the walks
    of its sub-directories in listing order.  A [top] that cannot be
    listed yields nothing ([onerror] is [None]). *)
Fixpoint walk_node (top : path) (n : node)
    : list (path * list string * list string) :=
  match n with
  | File _ _ => []
  | Dir es =>
      (top, dirnames es, filenames es)
      :: (fix subdirs (es : list (string * node)) :=
            match es with
            | [] => []
            | (x, c) :: es' =>
                (if is_dir_node c then walk_node (os_path.join top [x]) c
                 else [])
                ++ subdirs es'
            end) es
  end.

Definition walk (n : node) (top : path)
    : list (path * list string * list string) :=
  match stat n top with
  | Ok d => walk_node top d
  | Raise _ => []
  end.

End fs.

(** ** The world: the file system and what the program did to it *)

Inductive event : Type :=
| EvOpenRead (p : path)          (* [open(p, "rb")] succeeded *)
| EvCopy2 (src dst : path)       (* [shutil.copy2(src, dst)] was called *)
| EvPrint (line : string).       (* [print(line)] *)

Record world : Type := World { w_fs : node; w_trace : list event }.

Definition M (A : Type) : Type := world → outcome A * world.

#[global] Instance M_ret : MRet M := λ A a w, (Ok a, w).
#[global] Instance M_bind : MBind M := λ A B k m w,
  match m w with
  | (Ok a, w') => k a w'
  | (Raise e, w') => (Raise e, w')
  end.

Definition emit (e : event) : M unit :=
  λ w, (Ok (), World (w_fs w) (w_trace w ++ [e])).

(** Lift a computation that only reads the file system. *)
Definition query {A : Type} (f : node → outcome A) : M A := λ w, (f (w_fs w), w).

(** A [for] loop over a list that updates a local variable. *)
Fixpoint for_in {A S : Type} (xs : list A) (body : A → S → M S) (s : S) : M S :=
  match xs with
  | [] => mret s
  | x :: xs' => s' ← body x s; for_in xs' body s'
  end.

(** A [for] loop run for its effects only. *)
Fixpoint for_each {A : Type} (xs : list A) (body : A → M unit) : M unit :=
  match xs with
  | [] => mret ()
  | x :: xs' => body x;; for_each xs' body
  end.

Definition print (line : string) : M unit := emit (EvPrint line).

(** A file opened for reading: its content and the read position. *)
Record file_obj : Type := FileObj { f_data : list byte; f_pos : nat }.

Module os.

Definition isfile (p : path) : M bool := query (λ n, Ok (fs.isfile n p)).
Definition isdir (p : path) : M bool := query (λ n, Ok (fs.isdir n p)).

(** [os.path.getsize]: [st_size].  Directories have a size too; the
    model gives them 0, a value the program never gets to use. *)
Definition getsize (p : path) : M Z :=
  query (λ n, d ← fs.stat n p;
              mret (match d with
                    | File data _ => Z.of_nat (length data)
                    | Dir _ => 0%Z
                    end)).

Definition walk (top : path) : M (list (path * list string * list string)) :=
  query (λ n, Ok (fs.walk n top)).

(** [open(p, "rb")]. *)
Definition open_rb (p : path) : M file_obj :=
  d ← query (λ n, fs.stat n p);
  match d with
  | File data _ => emit (EvOpenRead p);; mret (FileObj data 0)
  | Dir _ => λ w, (Raise IsADirectoryError, w)
  end.

(** [f.read(n)] on a regular file: the next [n] bytes, fewer at the end
    of the file. *)
Definition read (f : file_obj) (n : nat) : list byte * file_obj :=
  let chunk := take n (drop (f_pos f) (f_data f)) in
  (chunk, FileObj (f_data f) (f_pos f + length chunk)).

End os.

Definition raise {A : Type} (e : exn) : M A := λ w, (Raise e, w).

(** Replace the file system by the result of [f], unless [f] raises. *)
Definition update_fs (f : node → outcome node) : M unit :=
  λ w, match f (w_fs w) with
       | Ok n' => (Ok (), World n' (w_trace w))
       | Raise e => (Raise e, w)
       end.

(** ** [shutil] *)

Module shutil.

(** [shutil.copy2(src, dst)]: a [dst] that is a directory stands for the
    entry of that directory named like [src]; then [copyfile] (refuse to
    copy a file onto itself, open [src] for reading, create or truncate
    [dst], copy the bytes) and [copystat] (mode bits and times). *)
Definition copy2 (src dst : path) : M path :=
  emit (EvCopy2 src dst);;
  d ← os.isdir dst;
  let dst := if d : bool then os_path.join dst [os_path.basename src] else dst in
  same ← query (λ n, Ok (bool_decide (src = dst)
                         && fs.exists_ n src));
  if same : bool then raise SameFileError
  else
    fsrc ← os.open_rb src;
    st ← query (λ n, d ← fs.stat n src;
                     mret (match d with
                           | File _ st => st
                           | Dir _ => FileStat 0 0
                           end));
    update_fs (λ n, fs.write n dst (f_data fsrc) st);;
    mret dst.

End shutil.

(** ** [hashlib] *)

(** A hash constructor of [hashlib]: the type of its hash objects, a new
    object, [update] and [hexdigest]. *)
Class HashAlgorithm : Type := {
  hash_obj : Type;
  hash_new : hash_obj;
  hash_update : hash_obj → list byte → hash_obj;
  hash_hexdigest : hash_obj → string;
}.

(** Feeding a hash object piecewise is feeding it the concatenation. *)
Class HashStreaming (alg : HashAlgorithm) : Prop := {
  hash_update_nil h : hash_update h [] = h;
  hash_update_app h a b : hash_update (hash_update h a) b = hash_update h (a ++ b);
}.

(** ** main.py *)

Inductive Action : Type := COPY | MODIFY | NO_ACTION.

#[global] Instance Action_eq_dec : EqDecision Action.
Proof. solve_decision. Defined.

#[global] Instance Action_countable : Countable Action.
Proof.
  refine (inj_countable'
    (λ a, match a with COPY => 0 | MODIFY => 1 | NO_ACTION => 2 end)
    (λ n, match n with 0 => COPY | 1 => MODIFY | _ => NO_ACTION end) _).
  by intros [].
Defined.

Definition value (a : Action) : string :=
  match a with
  | COPY => "copy"
  | MODIFY => "modify"
  | NO_ACTION => "no_action"
  end.

Definition get_name (self : Action) : string :=
  pystr.join (pystr.chr 32) (pystr.capitalize <$> pystr.split (value self) "_").

(** Which member of the set [{COPY, MODIFY}] a loop over it meets first:
    enum members hash by name, and string hashes vary from one process to
    the next. *)
Inductive set_order : Type := CopyFirst | ModifyFirst.

(** [Action.mutation_options()], in iteration order. *)
Definition mutation_options (o : set_order) : list Action :=
  match o with
  | CopyFirst => [COPY; MODIFY]
  | ModifyFirst => [MODIFY; COPY]
  end.

Record Result : Type := mkResult {
  source_path : path;
  target_path : path;
  action : Action;
}.

Definition Result_as_tuple (self : Result) : path * path * Action :=
  (source_path self, target_path self, action self).

Record FileMetadata : Type := mkFileMetadata {
  file_extension : string;
  file_size : Z;
  file_hash : string;
}.

Definition FileMetadata_as_tuple (self : FileMetadata) : string * Z * string :=
  (file_extension self, file_size self, file_hash self).

Section fingerprint.
Context {algorithm : HashAlgorithm}.

(** [for chunk in iter(lambda: file.read(block_size), b""):
      hash_obj.update(chunk)].
    Every round that does not end the loop moves the read position
    forward, so the rounds are bounded by the bytes left plus one. *)
Fixpoint read_chunks (rounds : nat) (block_size : nat) (file : file_obj)
    (h : hash_obj) : hash_obj :=
  match rounds with
  | O => h
  | S rounds' =>
      let '(chunk, file') := os.read file block_size in
      match chunk with
      | [] => h
      | _ => read_chunks rounds' block_size file' (hash_update h chunk)
      end
  end.

Definition get_file_hash (file_path : path) (block_size : nat) : M string :=
  let h := hash_new in
  file ← os.open_rb file_path;
  let h := read_chunks (S (length (f_data file))) block_size file h in
  mret (hash_hexdigest h).

Definition get_file_metadata (file_path : path) : M FileMetadata :=
  let file_extension := (os_path.splitext (os_path.path_str file_path)).2 in
  file_size ← os.getsize file_path;
  file_hash ← get_file_hash file_path 4096;
  mret (mkFileMetadata file_extension file_size file_hash).

(** The body of the inner loop of [compare_directories]. *)
Definition compare_file (source_dir target_dir root : path) (file : string)
    : M Result :=
  let source_path := os_path.join root [file] in
  let target_path :=
    os_path.join target_dir (os_path.relpath source_path source_dir) in
  is_file ← os.isfile target_path;
  action ← (if is_file : bool then
              source_metadata ← get_file_metadata source_path;
              let source_metadata := FileMetadata_as_tuple source_metadata in
              target_metadata ← get_file_metadata target_path;
              let target_metadata := FileMetadata_as_tuple target_metadata in
              if decide (source_metadata = target_metadata)
              then mret NO_ACTION
              else mret MODIFY
            else mret COPY);
  mret (mkResult source_path target_path action).

Definition compare_directories (source_dir target_dir : path)
    : M (list Result) :=
  walked ← os.walk source_dir;
  for_in walked (λ '(root, dirs, files) results,
    for_in files (λ file results,
      r ← compare_file source_dir target_dir root file;
      mret (results ++ [r])) results) [].

End fingerprint.

(** [group_by(things, grouper)] for a callable [grouper] (the only kind
    [do_action] passes): a [defaultdict(list)] filled in the order of
    [things]. *)
Definition group_by {A K : Type} `{Countable K}
    (things : list A) (grouper : A → K) : gmap K (list A) :=
  foldl (λ grouped thing,
           <[grouper thing := default [] (grouped !! grouper thing) ++ [thing]]>
             grouped)
        ∅ things.

(** [grouped.get(key, [])]. *)
Definition dict_get {A K : Type} `{Countable K}
    (grouped : gmap K (list A)) (key : K) : list A :=
  default [] (grouped !! key).

(** The line [do_action] prints for an entry it copies or would copy. *)
Definition mutation_line (source_path target_path : path) (action : Action)
    : string :=
  get_name action +:+ ": " +:+ os_path.path_str source_path +:+ " -> "
    +:+ os_path.path_str target_path.

(** Truth value of a list. *)
Definition truthy {A : Type} (l : list A) : bool :=
  match l with [] => false | _ => true end.

(** The body of the second loop of [do_action]. *)
Definition apply_entry (dry_run : bool) (entry : path * path * Action) : M unit :=
  let '(source_path, target_path, action) := entry in
  let out := mutation_line source_path target_path action in
  out ← (if dry_run then mret (out +:+ " (dry run)")
         else shutil.copy2 source_path target_path;; mret out);
  print out.

Definition do_action (o : set_order) (results : list (path * path * Action))
    (dry_run : bool) : M unit :=
  let grouped := group_by results (λ t, t.2) in
  let to_be_skipped := dict_get grouped NO_ACTION in
  (if truthy to_be_skipped then
     for_each to_be_skipped (λ '(source_path, target_path, _),
       print ("No action: " +:+ os_path.path_str source_path))
   else mret ());;
  for_each (concat ((λ key, dict_get grouped key) <$> mutation_options o))
    (apply_entry dry_run).

(** ** [filecmp] *)

Module filecmp.

Definition DEFAULT_IGNORES : list string :=
  ["RCS"; "CVS"; "tags"; ".git"; ".hg"; ".bzr"; "_darcs"; "__pycache__"].

Definition listdir (n : node) (p : path) : outcome (list string) :=
  d ← fs.stat n p;
  match d with
  | Dir es => Ok (fs.names es)
  | File _ _ => Raise NotADirectoryError
  end.

(** [_filter(flist, skip)]. *)
Definition _filter (flist skip : list string) : list string :=
  List.filter (λ x, negb (bool_decide (x ∈ skip))) flist.

(** [filecmp.cmp(f1, f2, shallow)]: false unless both are regular
    files; with [shallow], true when type, size and modification time
    agree; false when the sizes differ; otherwise a comparison of the
    contents. *)
Definition cmp (n : node) (f1 f2 : path) (shallow : bool) : outcome bool :=
  s1 ← fs.stat n f1;
  s2 ← fs.stat n f2;
  match s1, s2 with
  | File d1 st1, File d2 st2 =>
      if shallow && bool_decide (length d1 = length d2)
         && bool_decide (st_mtime st1 = st_mtime st2)
      then Ok true
      else if negb (bool_decide (length d1 = length d2)) then Ok false
      else Ok (bool_decide (d1 = d2))
  | _, _ => Ok false
  end.

(** [_cmp]: 0 for equal, 1 for different, 2 when the comparison raised. *)
Definition _cmp (n : node) (a b : path) (sh : bool) : nat :=
  match cmp n a b sh with
  | Ok true => 0
  | Ok false => 1
  | Raise _ => 2
  end.

(** [cmpfiles(a, b, common, shallow)]. *)
Definition cmpfiles (n : node) (a b : path) (common : list string)
    (shallow : bool) : list string * list string * list string :=
  let res (k : nat) :=
    List.filter
      (λ x, bool_decide (_cmp n (os_path.join a [x]) (os_path.join b [x]) shallow = k))
      common in
  (res 0, res 1, res 2).

Inductive kind : Type := KDir | KFile | KFunny.

#[global] Instance kind_eq_dec : EqDecision kind.
Proof. solve_decision. Defined.

(** [phase2]: a common name is a common directory, a common file, or
    funny when the two sides differ in type or cannot be examined. *)
Definition classify (n : node) (left right : path) (x : string) : kind :=
  match fs.stat n (os_path.join left [x]), fs.stat n (os_path.join right [x]) with
  | Ok (Dir _), Ok (Dir _) => KDir
  | Ok (File _ _), Ok (File _ _) => KFile
  | _, _ => KFunny
  end.

Record dircmp_attrs : Type := {
  left_list : list string;
  right_list : list string;
  common : list string;
  left_only : list string;
  right_only : list string;
  common_dirs : list string;
  common_files : list string;
  common_funny : list string;
  same_files : list string;
  diff_files : list string;
  funny_files : list string;
}.

(** [dircmp(a, b, ignore, hide, shallow=shallow)] with all its
    attributes computed.  [ignore=None] stands for [DEFAULT_IGNORES] and
    [hide=None] for [[curdir, pardir]].  The library sorts [left_list] and
    [right_list]; here they keep the order of the listing, which changes
    the order of the other lists and nothing else. *)
Definition dircmp (n : node) (a b : path) (ignore hide : option (list string))
    (shallow : bool) : outcome dircmp_attrs :=
  let hide := default [os_path.curdir; os_path.pardir] hide in
  let ignore := default DEFAULT_IGNORES ignore in
  l ← listdir n a;
  r ← listdir n b;
  let left_list := _filter l (hide ++ ignore) in
  let right_list := _filter r (hide ++ ignore) in
  let common := List.filter (λ x, bool_decide (x ∈ right_list)) left_list in
  let left_only := List.filter (λ x, negb (bool_decide (x ∈ right_list))) left_list in
  let right_only := List.filter (λ x, negb (bool_decide (x ∈ left_list))) right_list in
  let of_kind k := List.filter (λ x, bool_decide (classify n a b x = k)) common in
  let common_files := of_kind KFile in
  let '(same, diff, funny) := cmpfiles n a b common_files shallow in
  Ok {| left_list := left_list; right_list := right_list;
        common := common; left_only := left_only; right_only := right_only;
        common_dirs := of_kind KDir; common_files := common_files;
        common_funny := of_kind KFunny;
        same_files := same; diff_files := diff; funny_files := funny |}.

End filecmp.

(** [are_directories_equal(dir1, dir2)].  [depth_limit] is the number of
    nested calls the interpreter allows before it raises
    [RecursionError]. *)
Fixpoint are_directories_equal (depth_limit : nat) (n : node) (dir1 dir2 : path)
    : outcome bool :=
  match depth_limit with
  | O => Raise RecursionError
  | S depth_limit' =>
      comparison ← filecmp.dircmp n dir1 dir2 None None false;
      if truthy (filecmp.left_only comparison)
         || truthy (filecmp.right_only comparison)
         || truthy (filecmp.diff_files comparison)
         || truthy (filecmp.funny_files comparison)
      then Ok false
      else
        (fix loop (dirs : list string) : outcome bool :=
           match dirs with
           | [] => Ok true
           | common_dir :: dirs' =>
               let new_dir1 := os_path.join dir1 [common_dir] in
               let new_dir2 := os_path.join dir2 [common_dir] in
               eq ← are_directories_equal depth_limit' n new_dir1 new_dir2;
               if negb eq then Ok false else loop dirs'
           end) (filecmp.common_dirs comparison)
  end.

(** ** A toy hash algorithm, for running the definitions *)

Module toy.

Definition hex_digit (n : N) : ascii :=
  match n with
  | 0 => "0" | 1 => "1" | 2 => "2" | 3 => "3" | 4 => "4" | 5 => "5"
  | 6 => "6" | 7 => "7" | 8 => "8" | 9 => "9" | 10 => "a" | 11 => "b"
  | 12 => "c" | 13 => "d" | 14 => "e" | _ => "f"
  end%N%char.

Definition hex_byte (b : byte) : string :=
  let n := Byte.to_N b in
  String (hex_digit (n / 16)) (String (hex_digit (n mod 16)) EmptyString).

(** The identity "digest": the bytes fed so far, rendered in hex. *)
#[global] Instance identity_hash : HashAlgorithm := {|
  hash_obj := list byte;
  hash_new := [];
  hash_update h chunk := h ++ chunk;
  hash_hexdigest h := foldr (λ b s, hex_byte b +:+ s) EmptyString h;
|}.

#[global] Instance identity_hash_streaming : HashStreaming identity_hash.
Proof.
  split; simpl; intros.
  - apply app_nil_r.
  - by rewrite app_assoc.
Qed.

Definition bytes (s : string) : list byte := String.list_byte_of_string s.

Definition st0 : file_stat := FileStat 420 1000.
Definition st1 : file_stat := FileStat 384 2000.

End toy.

(** ** Vocabulary of the statements *)

(** What a trace shows: the lines printed, the [copy2] calls made and the
    files opened for reading, each in order. *)
Definition printed (t : list event) : list string :=
  omap (λ e, match e with EvPrint l => Some l | _ => None end) t.
Definition copied (t : list event) : list (path * path) :=
  omap (λ e, match e with EvCopy2 s d => Some (s, d) | _ => None end) t.
Definition opened (t : list event) : list path :=
  omap (λ e, match e with EvOpenRead p => Some p | _ => None end) t.

Definition of_kind (k : Action) (results : list (path * path * Action)) : list (path * path * Action) :=
  filter (λ t, t.2 = k) results.

(** The entries the second loop of [do_action] goes through. *)
Definition plan (o : set_order) (results : list (path * path * Action)) : list (path * path * Action) :=
  concat ((λ k, of_kind k results) <$> mutation_options o).

Definition skip_line (e : path * path * Action) : string :=
  "No action: " +:+ os_path.path_str e.1.1.

Definition entry_line (dry_run : bool) (e : path * path * Action) : string :=
  let out := mutation_line e.1.1 e.1.2 e.2 in
  if dry_run then out +:+ " (dry run)" else out.

Definition src_dst (e : path * path * Action) : path * path := (e.1.1, e.1.2).

(** The Copy and Modify entries in discovery order, the order the
    specification gives for the second block of the report. *)
Definition discovery_order (results : list (path * path * Action))
    : list (path * path * Action) :=
  filter (λ t, t.2 ∈ [COPY; MODIFY]) results.

(** The line reported for an entry, whatever its kind. *)
Definition report_line (dry_run : bool) (e : path * path * Action) : string :=
  match e.2 with
  | NO_ACTION => skip_line e
  | _ => entry_line dry_run e
  end.

(** Every Copy or Modify entry gets its [copy2] call, whatever happened to
    the entries before it: what per-entry isolation of failures needs. *)
Definition attempts_every_entry (o : set_order)
    (results : list (path * path * Action)) (w : world) : Prop :=
  copied (w_trace (do_action o results false w).2)
  = copied (w_trace w) ++ (src_dst <$> plan o results).

(** The value [get_file_metadata] computes for [p] in the file system [n]. *)
Definition fingerprint_in {algorithm : HashAlgorithm} (n : node) (p : path)
    : outcome (string * Z * string) :=
  match (get_file_metadata p (World n [])).1 with
  | Ok m => Ok (FileMetadata_as_tuple m)
  | Raise e => Raise e
  end.

(** The paths of the files [os.walk] discovers, in discovery order. *)
Definition walked_files (n : node) (top : path) : list path :=
  '(root, _, files) ← fs.walk n top; (λ file, os_path.join root [file]) <$> files.

(** The digest [get_file_hash] returns for a file with content [data],
    and the metadata [get_file_metadata] returns for it at path [p]. *)
Definition content_hash {algorithm : HashAlgorithm} (data : list byte) : string :=
  hash_hexdigest (read_chunks (S (length data)) 4096 (FileObj data 0) hash_new).

Definition fingerprint {algorithm : HashAlgorithm} (p : path) (data : list byte)
    : FileMetadata :=
  mkFileMetadata (os_path.splitext (os_path.path_str p)).2
    (Z.of_nat (length data)) (content_hash data).

(** The result the loop body of [compare_directories] builds for the
    source file [sp]. *)
Definition result_for {algorithm : HashAlgorithm} (n : node)
    (source_dir target_dir sp : path) : Result :=
  let tp := os_path.join target_dir (os_path.relpath sp source_dir) in
  mkResult sp tp
    (if fs.isfile n tp
     then if decide (fingerprint_in n sp = fingerprint_in n tp)
          then NO_ACTION else MODIFY
     else COPY).

(** A string made of dots only. *)
Definition only_dots (s : string) : Prop :=
  ∀ c, pystr.occurs c s → c = "."%char.

(** The extension as the specification words it: what follows the last
    dot of the part after the last separator; empty when that part has no
    dot. *)
Fixpoint after_last (c : ascii) (s : string) : option string :=
  match s with
  | EmptyString => None
  | String a s' =>
      match after_last c s' with
      | Some t => Some t
      | None => if Ascii.eqb a c then Some s' else None
      end
  end.

Definition extension_after_last_dot (p : string) : string :=
  let name := default p (after_last os_path.sep p) in
  default EmptyString (after_last os_path.extsep name).

(** Two trees have the same relative paths: a path leads somewhere in
    one exactly when it does in the other. *)
Definition same_relative_paths (d1 d2 : node) : Prop :=
  ∀ rel, fs.exists_ d1 rel = fs.exists_ d2 rel.

(** Regular files at the same relative path hold the same bytes. *)
Definition same_file_bytes (d1 d2 : node) : Prop :=
  ∀ rel x1 st1 x2 st2,
    fs.stat d1 rel = Ok (File x1 st1) → fs.stat d2 rel = Ok (File x2 st2) →
    x1 = x2.

(** Equal trees: both of the above. *)
Definition eq_tree (d1 d2 : node) : Prop :=
  same_relative_paths d1 d2 ∧ same_file_bytes d1 d2.

(** The names [dircmp] leaves out when [ignore] and [hide] are [None]. *)
Definition skipped_names : list string :=
  [os_path.curdir; os_path.pardir] ++ filecmp.DEFAULT_IGNORES.

(** No entry of the tree, at any level, has a name [dircmp] leaves out. *)
Fixpoint clean (n : node) : bool :=
  match n with
  | File _ _ => true
  | Dir es =>
      forallb (λ e, negb (bool_decide (e.1 ∈ skipped_names)) && clean e.2) es
  end.

(** No name is a regular file in one tree and a directory at the same
    place of the other. *)
Fixpoint type_clash_free (n1 n2 : node) : bool :=
  match n1, n2 with
  | File _ _, File _ _ => true
  | Dir es1, Dir es2 =>
      forallb (λ e, match fs.lookup_entry e.1 es2 with
                    | Some c2 => type_clash_free e.2 c2
                    | None => true
                    end) es1
  | _, _ => false
  end.

(** ** Example trees *)

Module demo.
Import toy.

(** [s] holds [a.txt], [b.txt] and [c.txt]; [t] holds another [b.txt]. *)
Definition flat : node :=
  Dir [("s", Dir [("a.txt", File (bytes "one") st0);
                  ("b.txt", File (bytes "two") st0);
                  ("c.txt", File (bytes "three") st0)]);
       ("t", Dir [("b.txt", File (bytes "2") st1)])].

Definition flat_results : list (path * path * Action) :=
  [(["s"; "a.txt"], ["t"; "a.txt"], COPY);
   (["s"; "b.txt"], ["t"; "b.txt"], MODIFY);
   (["s"; "c.txt"], ["t"; "c.txt"], COPY)].

(** [s] holds [sub1/x.txt] and [sub2/y.txt]; [t] holds an empty [sub2]
    and no [sub1]. *)
Definition nested : node :=
  Dir [("s", Dir [("sub1", Dir [("x.txt", File (bytes "v1") st0)]);
                  ("sub2", Dir [("y.txt", File (bytes "v2") st0)])]);
       ("t", Dir [("sub2", Dir [])])].

Definition nested_results : list (path * path * Action) :=
  [(["s"; "sub1"; "x.txt"], ["t"; "sub1"; "x.txt"], COPY);
   (["s"; "sub2"; "y.txt"], ["t"; "sub2"; "y.txt"], COPY)].

(** [s] holds [sub/x.txt]; [t] is empty. *)
Definition subtree : node :=
  Dir [("s", Dir [("sub", Dir [("x.txt", File (bytes "v1") st0)])]);
       ("t", Dir [])].

Definition subtree_results : list (path * path * Action) :=
  [(["s"; "sub"; "x.txt"], ["t"; "sub"; "x.txt"], COPY)].

(** [s] holds the files [a.txt] and [.bashrc]. *)
Definition dotted : node :=
  Dir [("s", Dir [("a.txt", File (bytes "one") st0);
                  (".bashrc", File (bytes "two") st0)])].

(** [a] holds an empty [.git] directory and [x.txt]; [b] holds the
    same [x.txt] only. *)
Definition ignored : node :=
  Dir [("a", Dir [(".git", Dir []); ("x.txt", File (bytes "v1") st0)]);
       ("b", Dir [("x.txt", File (bytes "v1") st1)])].

(** [a] and [b] hold the same [x.txt] and a [sub] with the same
    [y.txt]. *)
Definition twins : node :=
  Dir [("a", Dir [("x.txt", File (bytes "v1") st0);
                  ("sub", Dir [("y.txt", File (bytes "v2") st0)])]);
       ("b", Dir [("sub", Dir [("y.txt", File (bytes "v2") st1)]);
                  ("x.txt", File (bytes "v1") st1)])].

(** [s] holds the file [x.txt]; in [t], [x.txt] is a directory. *)
Definition clash : node :=
  Dir [("s", Dir [("x.txt", File (bytes "v1") st0)]);
       ("t", Dir [("x.txt", Dir [("y.txt", File (bytes "v2") st1)])])].

End demo.

(** ** Vocabulary of the further properties *)

(** The file paths that a list of [os.walk] triples stands for. *)
Definition files_of_walk (walked : list (path * list string * list string))
    : list path :=
  '(root, _, files) ← walked; (λ file, os_path.join root [file]) <$> files.

(** The files [compare_directories] opens for a list of results: source
    and target of every result that is not a Copy. *)
Definition reads_of (results : list Result) : list path :=
  r ← results;
  match action r with
  | COPY => []
  | _ => [source_path r; target_path r]
  end.

(** The members of all the groups of a dictionary, group after group. *)
Definition grouped_things {A K : Type} `{Countable K}
    (grouped : gmap K (list A)) : list A :=
  kg ← map_to_list grouped; kg.2.

(** ** The rest of main.py: [to_bool] and [main] *)

(** Python values of the types [NoneType], [bool], [int] and [str], with
    strings made of code points below 256. *)
Module py.

Inductive obj : Type :=
| None_
| Bool (b : bool)
| Int (z : Z)
| Str (s : string).

(** [str.isspace] of a character. *)
Definition isspace (a : ascii) : bool :=
  let n := nat_of_ascii a in
  ((9 <=? n) && (n <=? 13)) || ((28 <=? n) && (n <=? 32))
  || (n =? 133) || (n =? 160).

Fixpoint lstrip (s : string) : string :=
  match s with
  | EmptyString => EmptyString
  | String a s' => if isspace a then lstrip s' else s
  end.

Fixpoint rstrip (s : string) : string :=
  match s with
  | EmptyString => EmptyString
  | String a s' =>
      match rstrip s' with
      | EmptyString => if isspace a then EmptyString else String a EmptyString
      | r => String a r
      end
  end.

(** [s.strip()]. *)
Definition strip (s : string) : string := rstrip (lstrip s).

(** [str.lower] of a character: the capital letters of ASCII and of
    Latin-1 move 32 places up. *)
Definition lower_char (a : ascii) : ascii :=
  let n := nat_of_ascii a in
  if ((65 <=? n) && (n <=? 90)) || ((192 <=? n) && (n <=? 214))
     || ((216 <=? n) && (n <=? 222))
  then ascii_of_nat (n + 32) else a.

(** [s.lower()]. *)
Definition lower (s : string) : string := pystr.map lower_char s.

(** [x == y]: [False] and [True] equal [0] and [1]. *)
Definition eq (x y : obj) : bool :=
  match x, y with
  | None_, None_ => true
  | Bool a, Bool b => bool_decide (a = b)
  | Bool a, Int z | Int z, Bool a => bool_decide (z = if a then 1 else 0)%Z
  | Int a, Int b => bool_decide (a = b)
  | Str a, Str b => bool_decide (a = b)
  | _, _ => false
  end.

(** [x in l]. *)
Definition contains (l : list obj) (x : obj) : bool := existsb (eq x) l.

(** [bool(x)]. *)
Definition truth (x : obj) : bool :=
  match x with
  | None_ => false
  | Bool b => b
  | Int z => negb (bool_decide (z = 0%Z))
  | Str s => negb (bool_decide (s = EmptyString))
  end.

End py.

(** The members of [falsy] that a value of [py.obj] can equal; the others
    ([0.0], [0j] and the empty containers) equal no such value that [0]
    does not equal already. *)
Definition falsy : list py.obj :=
  [py.Int 0; py.Str ""; py.Bool false; py.None_].

Definition more_falsy : list py.obj :=
  py.Str <$> ["n"; "no"; "not"; "0"; "0.0"; "-"; "false"; "void";
              "null"; "nil"; "none"].

(** [to_bool(obj, include_human_parseable)]; [bool] raises for no value of
    these types. *)
Definition to_bool (obj : py.obj) (include_human_parseable : bool) : bool :=
  let falsy := if include_human_parseable then falsy ++ more_falsy else falsy in
  let obj := match obj with
             | py.Str s => py.Str (py.lower (py.strip s))
             | _ => obj
             end in
  if py.contains falsy obj then false else py.truth obj.

(** What [argparse] or the demo branch hands to [main]. *)
Record Namespace : Type := mkNamespace {
  ns_source_dir : path;
  ns_target_dir : path;
  ns_dry_run : bool;
}.

Definition IS_DEMO : bool := true.

Definition headers : list string := ["Source Path"; "Target Path"; "Action"].

Section main.
Context {algorithm : HashAlgorithm}.

(** [str(table)] of a [PrettyTable] with these headers and rows. *)
Variable render : list string → list (path * path * Action) → string.

(** [main()], given the value of [IS_DEMO], the directory of the script,
    what [cli()] returns and what [input] reads.  The prompt that [input]
    writes is not a [print] and is not traced. *)
Definition main_with (o : set_order) (is_demo : bool) (script_dir : path)
    (cli : Namespace) (user_choice : string) : M unit :=
  let args :=
    if negb is_demo then cli
    else
      let resolve_dir directory := os_path.join script_dir [directory] in
      mkNamespace (resolve_dir "dir1") (resolve_dir "dir2") true in
  results ← compare_directories (ns_source_dir args) (ns_target_dir args);
  let results := Result_as_tuple <$> results in
  print (render headers results);;
  let passed_dry_run := ns_dry_run args in
  if negb passed_dry_run
  then do_action o results (to_bool (py.Str user_choice) true)
  else do_action o results true.

Definition main (o : set_order) (script_dir : path) (cli : Namespace)
    (user_choice : string) : M unit :=
  main_with o IS_DEMO script_dir cli user_choice.

End main.

(** The strings that [to_bool] takes for a "no". *)
Definition negative_answers : list string :=
  [""; "n"; "no"; "not"; "0"; "0.0"; "-"; "false"; "void"; "null"; "nil"; "none"].

(** A string of whitespace. *)
Definition all_space (s : string) : Prop :=
  ∀ c, pystr.occurs c s → py.isspace c = true.

(** ** Vocabulary of the apply step and of the equality utility *)

(** The world in which the second loop of [do_action] starts: the
    "No action" lines have been printed, nothing else has happened. *)
Definition after_skips (results : list (path * path * Action)) (w : world)
    : world :=
  World (w_fs w)
    (w_trace w ++ (EvPrint ∘ skip_line <$> of_kind NO_ACTION results)).

(** The world reached when [copy2] succeeds for each entry of [l] in
    turn, each success followed by the line of the entry; [None] when one
    of these copies raises. *)
Fixpoint copy_through (l : list (path * path * Action)) (w : world)
    : option world :=
  match l with
  | [] => Some w
  | x :: l' =>
      match shutil.copy2 x.1.1 x.1.2 w with
      | (Ok _, w1) =>
          copy_through l'
            (World (w_fs w1) (w_trace w1 ++ [EvPrint (entry_line false x)]))
      | (Raise _, _) => None
      end
  end.

(** A tree without the entries, at any level, whose names [dircmp]
    leaves out. *)
Fixpoint prune (n : node) : node :=
  match n with
  | File data st => File data st
  | Dir es =>
      Dir (omap (λ e, if bool_decide (e.1 ∈ skipped_names) then None
                      else Some (e.1, prune e.2)) es)
  end.

(** The listing of a pruned directory. *)
Definition pruned_entries (es : list (string * node)) : list (string * node) :=
  omap (λ e, if bool_decide (e.1 ∈ skipped_names) then None
             else Some (e.1, prune e.2)) es.

(** * Properties *)

(** ** Paths *)

Example splitext_txt : os_path.splitext "/d/a.txt" = ("/d/a", ".txt").
Proof. reflexivity. Qed.
Example splitext_hidden : os_path.splitext "/d/.bashrc" = ("/d/.bashrc", "").
Proof. reflexivity. Qed.
Example splitext_dotdir : os_path.splitext "/d.e/a" = ("/d.e/a", "").
Proof. reflexivity. Qed.
Example splitext_two : os_path.splitext "/d/a.tar.gz" = ("/d/a.tar", ".gz").
Proof. reflexivity. Qed.
Example splitext_trailing : os_path.splitext "/d/a." = ("/d/a", ".").
Proof. reflexivity. Qed.
Example splitext_dots : os_path.splitext "/d/..x.y" = ("/d/..x", ".y").
Proof. reflexivity. Qed.
Example relpath_below :
  os_path.relpath ["s"; "sub"; "x.txt"] ["s"] = ["sub"; "x.txt"].
Proof. reflexivity. Qed.


(** ** Running monadic code *)

Lemma bind_run {A B : Type} (m : M A) (k : A → M B) (w : world) :
  (m ≫= k) w = match m w with
               | (Ok a, w') => k a w'
               | (Raise e, w') => (Raise e, w')
               end.
Proof. reflexivity. Qed.

Lemma printed_app t1 t2 : printed (t1 ++ t2) = printed t1 ++ printed t2.
Proof. apply omap_app. Qed.
Lemma copied_app t1 t2 : copied (t1 ++ t2) = copied t1 ++ copied t2.
Proof. apply omap_app. Qed.
Lemma opened_app t1 t2 : opened (t1 ++ t2) = opened t1 ++ opened t2.
Proof. apply omap_app. Qed.

(** ** The apply step *)

Section apply.
Implicit Types (results : list (path * path * Action)) (w : world).

Lemma group_by_get {A K : Type} `{Countable K} (things : list A) (f : A → K) k :
  dict_get (group_by things f) k = filter (λ t, f t = k) things.
Proof.
  unfold group_by.
  enough (∀ g, dict_get (foldl (λ grouped thing,
             <[f thing := default [] (grouped !! f thing) ++ [thing]]> grouped)
             g things) k = dict_get g k ++ filter (λ t, f t = k) things) as Hg.
  { rewrite Hg. unfold dict_get. by rewrite lookup_empty. }
  induction things as [|a things IH]; intros g; simpl.
  - by rewrite app_nil_r.
  - rewrite IH. unfold dict_get. destruct (decide (f a = k)) as [Heq|Hne].
    + rewrite filter_cons_True // Heq lookup_insert_eq /= -app_assoc //.
    + rewrite lookup_insert_ne // filter_cons_False //.
Qed.

Lemma open_rb_run p w :
  os.open_rb p w
  = match fs.stat (w_fs w) p with
    | Ok (File data _) =>
        (Ok (FileObj data 0), World (w_fs w) (w_trace w ++ [EvOpenRead p]))
    | Ok (Dir _) => (Raise IsADirectoryError, w)
    | Raise e => (Raise e, w)
    end.
Proof.
  unfold os.open_rb, query. rewrite bind_run.
  by destruct (fs.stat (w_fs w) p) as [[]|].
Qed.

(** [copy2] spelled out: the call is recorded; then it raises, or
    replaces the file system by one where the destination holds the
    content and the metadata of the source. *)
Lemma copy2_run src dst w :
  shutil.copy2 src dst w
  = let t1 := w_trace w ++ [EvCopy2 src dst] in
    let dst' := if fs.isdir (w_fs w) dst
                then os_path.join dst [os_path.basename src] else dst in
    if bool_decide (src = dst') && fs.exists_ (w_fs w) src
    then (Raise SameFileError, World (w_fs w) t1)
    else match fs.stat (w_fs w) src with
         | Ok (File data st) =>
             match fs.write (w_fs w) dst' data st with
             | Ok n' => (Ok dst', World n' (t1 ++ [EvOpenRead src]))
             | Raise e => (Raise e, World (w_fs w) (t1 ++ [EvOpenRead src]))
             end
         | Ok (Dir _) => (Raise IsADirectoryError, World (w_fs w) t1)
         | Raise e => (Raise e, World (w_fs w) t1)
         end.
Proof.
  unfold shutil.copy2. rewrite bind_run /= bind_run /= bind_run /=.
  destruct (_ && _); [done|].
  rewrite bind_run open_rb_run /=.
  destruct (fs.stat (w_fs w) src) as [[data st|es]|e] eqn:Hst; simpl; try done.
  rewrite bind_run /= Hst /= bind_run /=. unfold update_fs; simpl.
  by destruct (fs.write _ _ _ _).
Qed.

Lemma copy2_trace src dst w :
  printed (w_trace (shutil.copy2 src dst w).2) = printed (w_trace w)
  ∧ copied (w_trace (shutil.copy2 src dst w).2) = copied (w_trace w) ++ [(src, dst)].
Proof.
  rewrite copy2_run. simpl.
  repeat case_match; simpl;
    rewrite ?printed_app ?copied_app /= ?app_nil_r //.
Qed.

Lemma apply_entry_dry e w :
  apply_entry true e w
  = (Ok (), World (w_fs w) (w_trace w ++ [EvPrint (entry_line true e)])).
Proof. by destruct e as [[s t] a]. Qed.

Lemma apply_entry_commit e w :
  match apply_entry false e w with
  | (Ok _, w') =>
      printed (w_trace w') = printed (w_trace w) ++ [entry_line false e]
  | (Raise ex, w') =>
      printed (w_trace w') = printed (w_trace w)
      ∧ shutil.copy2 e.1.1 e.1.2 w = (Raise ex, w')
  end
  ∧ copied (w_trace (apply_entry false e w).2)
    = copied (w_trace w) ++ [src_dst e].
Proof.
  destruct e as [[s t] a]. unfold apply_entry.
  pose proof (copy2_trace s t w) as [Hp Hc].
  rewrite !bind_run /=.
  destruct (shutil.copy2 s t w) as [[dst|e] w'] eqn:Hcp; simpl in *.
  - rewrite printed_app copied_app /= app_nil_r Hp Hc //.
  - done.
Qed.

(** One run of the second loop: the entries [done] were reported; on
    success they are all of [l], on an exception the entry after them is
    the one whose copy raised, in the world [w1] the loop had reached. *)
Lemma apply_loop_run dry_run (l : list (path * path * Action)) w :
  ∃ done,
    let '(r, w') := for_each l (apply_entry dry_run) w in
    printed (w_trace w') = printed (w_trace w) ++ (entry_line dry_run <$> done)
    ∧ match r with
      | Ok _ =>
          done = l
          ∧ copied (w_trace w')
            = copied (w_trace w) ++ (if dry_run then [] else src_dst <$> l)
      | Raise ex =>
          dry_run = false
          ∧ ∃ x rest w1, l = done ++ x :: rest
            ∧ copied (w_trace w')
              = copied (w_trace w) ++ (src_dst <$> (done ++ [x]))
            ∧ shutil.copy2 x.1.1 x.1.2 w1 = (Raise ex, w')
      end.
Proof.
  revert w. induction l as [|x l IH]; intros w; simpl.
  { exists []. destruct dry_run; rewrite /= !app_nil_r //. }
  rewrite bind_run. destruct dry_run.
  - rewrite apply_entry_dry. specialize (IH (World (w_fs w) (w_trace w ++ [EvPrint (entry_line true x)]))).
    destruct IH as [done IH]. exists (x :: done).
    destruct (for_each l (apply_entry true) _) as [[[]|e] w']; simpl in *.
    + destruct IH as (Hp & -> & Hc). rewrite Hp Hc printed_app copied_app /= -!app_assoc //.
    + by destruct IH as (_ & ? & _).
  - pose proof (apply_entry_commit x w) as [Hp Hc].
    destruct (apply_entry false x w) as [[[]|e] w1]; simpl in *.
    + destruct (IH w1) as [done IH']. exists (x :: done).
      destruct (for_each l (apply_entry false) w1) as [[[]|e] w']; simpl in *.
      * destruct IH' as (Hp' & -> & Hc'). rewrite Hp' Hc' Hp Hc -!app_assoc //.
      * destruct IH' as (Hp' & _ & y & rest & w2 & -> & Hc' & Hy).
        rewrite Hp' Hc' Hp Hc -!app_assoc /=. split; [done|]. split; [done|].
        by exists y, rest, w2.
    + destruct Hp as [Hp Hx].
      exists []. rewrite Hp Hc /= app_nil_r. split; [done|]. split; [done|].
      by exists x, l, w.
Qed.

Lemma skip_loop_run (l : list (path * path * Action)) w :
  for_each l (λ '(source_path, target_path, _),
    print ("No action: " +:+ os_path.path_str source_path)) w
  = (Ok (), World (w_fs w) (w_trace w ++ (EvPrint ∘ skip_line <$> l))).
Proof.
  revert w. induction l as [|[[s t] a] l IH]; intros w; simpl.
  - rewrite app_nil_r. by destruct w.
  - rewrite bind_run /= IH /= -app_assoc //.
Qed.

Lemma printed_prints (lines : list string) :
  printed (EvPrint <$> lines) = lines.
Proof. induction lines; simpl; f_equal; done. Qed.

Lemma copied_prints (lines : list string) : copied (EvPrint <$> lines) = [].
Proof. by induction lines. Qed.

(** One run of [do_action]. *)
Lemma do_action_run o results dry_run w :
  ∃ done,
    let '(r, w') := do_action o results dry_run w in
    printed (w_trace w')
    = printed (w_trace w) ++ (skip_line <$> of_kind NO_ACTION results)
        ++ (entry_line dry_run <$> done)
    ∧ match r with
      | Ok _ =>
          done = plan o results
          ∧ copied (w_trace w')
            = copied (w_trace w)
                ++ (if dry_run then [] else src_dst <$> plan o results)
      | Raise ex =>
          dry_run = false
          ∧ ∃ x rest w1, plan o results = done ++ x :: rest
            ∧ copied (w_trace w')
              = copied (w_trace w) ++ (src_dst <$> (done ++ [x]))
            ∧ shutil.copy2 x.1.1 x.1.2 w1 = (Raise ex, w')
      end.
Proof.
  unfold do_action. rewrite bind_run.
  set (skipped := dict_get (group_by results (λ t, t.2)) NO_ACTION).
  assert (Hsk : skipped = of_kind NO_ACTION results) by apply group_by_get.
  assert (Hpl : concat ((λ key, dict_get (group_by results (λ t, t.2)) key)
                          <$> mutation_options o) = plan o results).
  { unfold plan. f_equal. apply list_fmap_ext. intros _ k _. apply group_by_get. }
  rewrite Hpl.
  assert ((if truthy skipped then
             for_each skipped (λ '(source_path, target_path, _),
               print ("No action: " +:+ os_path.path_str source_path))
           else mret ()) w
          = (Ok (), World (w_fs w) (w_trace w ++ (EvPrint ∘ skip_line <$> skipped)))) as ->.
  { destruct (truthy skipped) eqn:E; [apply skip_loop_run|].
    destruct skipped; [|done]. rewrite /= app_nil_r. by destruct w. }
  set (w1 := World _ _).
  destruct (apply_loop_run dry_run (plan o results) w1) as [done Hrun].
  exists done. destruct (for_each _ _ w1) as [r w'].
  assert (printed (w_trace w1) = printed (w_trace w) ++ (skip_line <$> of_kind NO_ACTION results)) as Hp1.
  { rewrite /w1 /= printed_app list_fmap_compose printed_prints Hsk //. }
  assert (copied (w_trace w1) = copied (w_trace w)) as Hc1.
  { rewrite /w1 /= copied_app list_fmap_compose copied_prints app_nil_r //. }
  rewrite Hp1 Hc1 -app_assoc in Hrun. done.
Qed.

End apply.

(** ** The claims on the apply step *)

Lemma for_each_dry (l : list (path * path * Action)) (w : world) :
  for_each l (apply_entry true) w
  = (Ok (), World (w_fs w) (w_trace w ++ (EvPrint ∘ entry_line true <$> l))).
Proof.
  revert w. induction l as [|x l IH]; intros w; simpl.
  - rewrite app_nil_r. by destruct w.
  - rewrite bind_run apply_entry_dry IH /= -app_assoc //.
Qed.

Lemma do_action_dry (o : set_order) (results : list (path * path * Action))
    (w : world) :
  do_action o results true w
  = (Ok (), World (w_fs w)
              (w_trace w ++ (EvPrint <$> ((skip_line <$> of_kind NO_ACTION results)
                                          ++ (entry_line true <$> plan o results))))).
Proof.
  unfold do_action. rewrite bind_run.
  set (skipped := dict_get (group_by results (λ t, t.2)) NO_ACTION).
  assert (Hsk : skipped = of_kind NO_ACTION results) by apply group_by_get.
  assert (concat ((λ key, dict_get (group_by results (λ t, t.2)) key)
                    <$> mutation_options o) = plan o results) as ->.
  { unfold plan. f_equal. apply list_fmap_ext. intros _ k _. apply group_by_get. }
  assert ((if truthy skipped then
             for_each skipped (λ '(source_path, target_path, _),
               print ("No action: " +:+ os_path.path_str source_path))
           else mret ()) w
          = (Ok (), World (w_fs w) (w_trace w ++ (EvPrint ∘ skip_line <$> skipped)))) as ->.
  { destruct (truthy skipped) eqn:E; [apply skip_loop_run|].
    destruct skipped; [|done]. rewrite /= app_nil_r. by destruct w. }
  rewrite for_each_dry /= Hsk fmap_app -!list_fmap_compose -app_assoc //.
Qed.

(** C4 (dry-run purity): with [dry_run=True], [do_action] returns normally,
    leaves the file system exactly as it was and calls [copy2] for no
    entry; all it does is print. *)
Theorem do_action_dry_run_pure (o : set_order)
    (results : list (path * path * Action)) (w : world) :
  (do_action o results true w).1 = Ok ()
  ∧ w_fs (do_action o results true w).2 = w_fs w
  ∧ copied (w_trace (do_action o results true w).2) = copied (w_trace w)
  ∧ ∃ lines, w_trace (do_action o results true w).2
             = w_trace w ++ (EvPrint <$> lines).
Proof.
  rewrite do_action_dry /=. repeat split.
  - rewrite copied_app copied_prints app_nil_r //.
  - eauto.
Qed.

(** ** The second loop, copy by copy *)

Lemma do_action_unfold (o : set_order) (results : list (path * path * Action))
    (dry_run : bool) (w : world) :
  do_action o results dry_run w
  = for_each (plan o results) (apply_entry dry_run) (after_skips results w).
Proof.
  unfold do_action. rewrite bind_run.
  set (skipped := dict_get (group_by results (λ t, t.2)) NO_ACTION).
  assert (Hsk : skipped = of_kind NO_ACTION results) by apply group_by_get.
  assert (concat ((λ key, dict_get (group_by results (λ t, t.2)) key)
                    <$> mutation_options o) = plan o results) as ->.
  { unfold plan. f_equal. apply list_fmap_ext. intros _ k _. apply group_by_get. }
  assert ((if truthy skipped then
             for_each skipped (λ '(source_path, target_path, _),
               print ("No action: " +:+ os_path.path_str source_path))
           else mret ()) w
          = (Ok (), World (w_fs w) (w_trace w ++ (EvPrint ∘ skip_line <$> skipped)))) as ->.
  { destruct (truthy skipped) eqn:E; [apply skip_loop_run|].
    destruct skipped; [|done]. rewrite /= app_nil_r. by destruct w. }
  by rewrite Hsk.
Qed.

(** One committing round is the copy and, when it succeeded, the line. *)
Lemma apply_entry_copy (x : path * path * Action) (w : world) :
  apply_entry false x w
  = match shutil.copy2 x.1.1 x.1.2 w with
    | (Ok _, w1) =>
        (Ok (), World (w_fs w1) (w_trace w1 ++ [EvPrint (entry_line false x)]))
    | (Raise ex, w1) => (Raise ex, w1)
    end.
Proof.
  destruct x as [[s t] a]. unfold apply_entry. rewrite !bind_run /=.
  by destruct (shutil.copy2 s t w) as [[dst|ex] w1].
Qed.

(** What the second loop returns: the world all the copies lead to, or the
    exception of the first copy that raises, in the world that copy
    left. *)
Lemma apply_loop_outcome (l : list (path * path * Action)) (w : world) :
  match for_each l (apply_entry false) w with
  | (Ok _, w') => copy_through l w = Some w'
  | (Raise ex, w') =>
      ∃ done x rest w1,
        l = done ++ x :: rest
        ∧ copy_through done w = Some w1
        ∧ shutil.copy2 x.1.1 x.1.2 w1 = (Raise ex, w')
  end.
Proof.
  revert w. induction l as [|y l IH]; intros w; simpl; [done|].
  rewrite bind_run apply_entry_copy.
  destruct (shutil.copy2 y.1.1 y.1.2 w) as [[dst|ex] w1] eqn:Hy.
  - specialize (IH (World (w_fs w1) (w_trace w1 ++ [EvPrint (entry_line false y)]))).
    destruct (for_each l (apply_entry false) _) as [[[]|ex] w']; [done|].
    destruct IH as (done & x & rest & w2 & -> & Hdone & Hx).
    exists (y :: done), x, rest, w2. simpl. by rewrite Hy.
  - by exists [], y, l, w.
Qed.

Lemma apply_loop_stops (done rest : list (path * path * Action))
    (x : path * path * Action) (w w1 w' : world) (ex : exn) :
  copy_through done w = Some w1 →
  shutil.copy2 x.1.1 x.1.2 w1 = (Raise ex, w') →
  for_each (done ++ x :: rest) (apply_entry false) w = (Raise ex, w').
Proof.
  revert w. induction done as [|y done IH]; intros w; simpl.
  - intros [= ->] Hx. by rewrite bind_run apply_entry_copy Hx.
  - intros Hdone Hx. rewrite bind_run apply_entry_copy.
    destruct (shutil.copy2 y.1.1 y.1.2 w) as [[dst|e] w2]; [|done].
    by apply IH.
Qed.

Lemma copy_through_trace (l : list (path * path * Action)) (w w' : world) :
  copy_through l w = Some w' →
  printed (w_trace w') = printed (w_trace w) ++ (entry_line false <$> l)
  ∧ copied (w_trace w') = copied (w_trace w) ++ (src_dst <$> l).
Proof.
  revert w. induction l as [|y l IH]; intros w; simpl.
  { intros [= ->]. by rewrite !app_nil_r. }
  pose proof (copy2_trace y.1.1 y.1.2 w) as [Hp Hc].
  destruct (shutil.copy2 y.1.1 y.1.2 w) as [[dst|e] w1]; [|done].
  intros [Hp' Hc']%IH. simpl in *.
  rewrite Hp' Hc' printed_app copied_app /= app_nil_r Hp Hc -!app_assoc //.
Qed.

Lemma after_skips_trace (results : list (path * path * Action)) (w : world) :
  printed (w_trace (after_skips results w))
  = printed (w_trace w) ++ (skip_line <$> of_kind NO_ACTION results)
  ∧ copied (w_trace (after_skips results w)) = copied (w_trace w).
Proof.
  rewrite /after_skips /= printed_app copied_app list_fmap_compose
    printed_prints copied_prints app_nil_r //.
Qed.

(** What a committing [do_action] returns. *)
Lemma do_action_outcome (o : set_order) (results : list (path * path * Action))
    (w : world) :
  match do_action o results false w with
  | (Ok _, w') =>
      copy_through (plan o results) (after_skips results w) = Some w'
      ∧ printed (w_trace w')
        = printed (w_trace w) ++ (skip_line <$> of_kind NO_ACTION results)
            ++ (entry_line false <$> plan o results)
      ∧ copied (w_trace w')
        = copied (w_trace w) ++ (src_dst <$> plan o results)
  | (Raise ex, w') =>
      ∃ done x rest w1,
        plan o results = done ++ x :: rest
        ∧ copy_through done (after_skips results w) = Some w1
        ∧ shutil.copy2 x.1.1 x.1.2 w1 = (Raise ex, w')
        ∧ printed (w_trace w')
          = printed (w_trace w) ++ (skip_line <$> of_kind NO_ACTION results)
              ++ (entry_line false <$> done)
        ∧ copied (w_trace w')
          = copied (w_trace w) ++ (src_dst <$> (done ++ [x]))
  end.
Proof.
  rewrite do_action_unfold.
  pose proof (apply_loop_outcome (plan o results) (after_skips results w)) as Hrun.
  pose proof (after_skips_trace results w) as [Hp0 Hc0].
  destruct (for_each _ _ _) as [[[]|ex] w'].
  - split; [done|]. apply copy_through_trace in Hrun as [Hp Hc].
    by rewrite Hp Hc Hp0 Hc0 -app_assoc.
  - destruct Hrun as (done & x & rest & w1 & Hpl & Hdone & Hx).
    exists done, x, rest, w1. split; [done|]. split; [done|]. split; [done|].
    apply copy_through_trace in Hdone as [Hp Hc].
    pose proof (copy2_trace x.1.1 x.1.2 w1) as [Hp' Hc'].
    rewrite Hx /= in Hp', Hc'.
    by rewrite Hp' Hc' Hp Hc Hp0 Hc0 fmap_app -!app_assoc.
Qed.

(** A copy that raises after the copies before it went through ends
    [do_action] there, with that exception. *)
Lemma do_action_raises (o : set_order) (results : list (path * path * Action))
    (w w1 w' : world) (done rest : list (path * path * Action))
    (x : path * path * Action) (ex : exn) :
  plan o results = done ++ x :: rest →
  copy_through done (after_skips results w) = Some w1 →
  shutil.copy2 x.1.1 x.1.2 w1 = (Raise ex, w') →
  do_action o results false w = (Raise ex, w').
Proof.
  intros Hpl Hdone Hx. rewrite do_action_unfold Hpl.
  by apply (apply_loop_stops done rest x _ w1).
Qed.

Lemma plan_order (o : set_order) (results : list (path * path * Action)) :
  plan o results
  = match o with
    | CopyFirst => of_kind COPY results ++ of_kind MODIFY results
    | ModifyFirst => of_kind MODIFY results ++ of_kind COPY results
    end.
Proof. destruct o; rewrite /plan /= app_nil_r //. Qed.

(** C3, as the code has it: [do_action] reports the NoAction entries first,
    as one block in discovery order, then reports -- and, when it is not
    a dry run, applies -- the Copy and Modify entries grouped by kind: all
    entries of the kind the set [{COPY, MODIFY}] yields first, then all
    entries of the other, each group in discovery order.  A dry run
    reports them all, copies nothing and returns.  A committing run copies
    and reports them in that order and returns, unless a copy raises: then
    it stops at the first copy that raises, with the entries before it
    copied and reported and that entry attempted and not reported. *)
Theorem do_action_reports_by_kind (o : set_order)
    (results : list (path * path * Action)) (w : world) :
  plan o results
  = match o with
    | CopyFirst => of_kind COPY results ++ of_kind MODIFY results
    | ModifyFirst => of_kind MODIFY results ++ of_kind COPY results
    end
  ∧ do_action o results true w
    = (Ok (),
       World (w_fs w)
         (w_trace w ++ (EvPrint <$> ((skip_line <$> of_kind NO_ACTION results)
                                     ++ (entry_line true <$> plan o results)))))
  ∧ match do_action o results false w with
    | (Ok _, w') =>
        copy_through (plan o results) (after_skips results w) = Some w'
        ∧ printed (w_trace w')
          = printed (w_trace w) ++ (skip_line <$> of_kind NO_ACTION results)
              ++ (entry_line false <$> plan o results)
        ∧ copied (w_trace w')
          = copied (w_trace w) ++ (src_dst <$> plan o results)
    | (Raise ex, w') =>
        ∃ done x rest w1,
          plan o results = done ++ x :: rest
          ∧ copy_through done (after_skips results w) = Some w1
          ∧ shutil.copy2 x.1.1 x.1.2 w1 = (Raise ex, w')
          ∧ printed (w_trace w')
            = printed (w_trace w) ++ (skip_line <$> of_kind NO_ACTION results)
                ++ (entry_line false <$> done)
          ∧ copied (w_trace w')
            = copied (w_trace w) ++ (src_dst <$> (done ++ [x]))
    end.
Proof.
  split; [apply plan_order|]. split; [apply do_action_dry|].
  apply do_action_outcome.
Qed.

(** C3 as stated fails: on [a.txt] (Copy), [b.txt] (Modify), [c.txt]
    (Copy), in that discovery order, neither iteration order of the set
    makes the report follow the discovery order. *)
Lemma do_action_not_in_discovery_order :
  printed (w_trace (do_action CopyFirst demo.flat_results true
                      (World demo.flat [])).2)
  ≠ (skip_line <$> of_kind NO_ACTION demo.flat_results)
      ++ (entry_line true <$> discovery_order demo.flat_results)
  ∧ printed (w_trace (do_action ModifyFirst demo.flat_results true
                        (World demo.flat [])).2)
    ≠ (skip_line <$> of_kind NO_ACTION demo.flat_results)
        ++ (entry_line true <$> discovery_order demo.flat_results).
Proof. split; vm_compute; discriminate. Qed.

Lemma of_kind_of_kind (k k' : Action) (l : list (path * path * Action)) :
  of_kind k (of_kind k' l) = if decide (k = k') then of_kind k l else [].
Proof.
  unfold of_kind. induction l as [|x l IH]; simpl.
  { by case_decide. }
  rewrite !filter_cons. destruct (decide (x.2 = k')) as [Hk'|Hk'].
  - rewrite filter_cons IH. repeat case_decide; congruence.
  - rewrite IH. repeat case_decide; congruence.
Qed.

Lemma of_kind_plan (o : set_order) (k : Action) (l : list (path * path * Action)) :
  of_kind k (plan o l) = if decide (k = NO_ACTION) then [] else of_kind k l.
Proof.
  rewrite plan_order.
  destruct o; rewrite /of_kind filter_app -!/(of_kind _ _) !of_kind_of_kind;
    destruct k; simpl; rewrite ?app_nil_r //.
Qed.

Lemma of_kind_prefix (k : Action) (l1 l2 : list (path * path * Action)) :
  l1 `prefix_of` l2 → of_kind k l1 `prefix_of` of_kind k l2.
Proof. intros [rest ->]. rewrite /of_kind filter_app. by eexists. Qed.

Lemma plan_mutating (o : set_order) (l : list (path * path * Action)) e :
  e ∈ plan o l → e.2 ≠ NO_ACTION.
Proof.
  rewrite plan_order. destruct o; rewrite elem_of_app /of_kind !list_elem_of_filter;
    intros [[-> _]|[-> _]]; done.
Qed.

Lemma report_line_skipped (dry_run : bool) (l : list (path * path * Action)) :
  report_line dry_run <$> of_kind NO_ACTION l = skip_line <$> of_kind NO_ACTION l.
Proof.
  apply list_fmap_ext. intros i x Hx. apply list_elem_of_lookup_2 in Hx.
  apply list_elem_of_filter in Hx as [Hk _]. by rewrite /report_line Hk.
Qed.

Lemma report_line_mutating (dry_run : bool) (l : list (path * path * Action)) :
  (∀ e, e ∈ l → e.2 ≠ NO_ACTION) →
  report_line dry_run <$> l = entry_line dry_run <$> l.
Proof.
  intros Hl. apply list_fmap_ext. intros i x Hx. apply list_elem_of_lookup_2 in Hx.
  apply Hl in Hx. rewrite /report_line. by destruct (x.2).
Qed.

(** C10 (stable grouping): the entries [do_action] reports, and those it
    passes to [copy2] when it is not a dry run, are for every action kind in
    the relative order they have in the input list.  A dry run returns
    normally; when [do_action] returns normally the entries are all the
    entries of that kind, and in a committing run every one of their
    copies went through.  When it raises, it is a committing run, every
    NoAction entry was reported, and the exception is that of the copy of
    the last entry attempted, the only one attempted and not reported. *)
Theorem do_action_stable_per_kind (o : set_order)
    (results : list (path * path * Action)) (dry_run : bool) (w : world) :
  ∃ reported attempted,
    printed (w_trace (do_action o results dry_run w).2)
    = printed (w_trace w) ++ (report_line dry_run <$> reported)
    ∧ copied (w_trace (do_action o results dry_run w).2)
      = copied (w_trace w) ++ (if dry_run then [] else src_dst <$> attempted)
    ∧ (∀ k,
        of_kind k reported `prefix_of` of_kind k results
        ∧ of_kind k attempted `prefix_of` of_kind k results)
    ∧ (dry_run = true → (do_action o results dry_run w).1 = Ok ())
    ∧ match (do_action o results dry_run w).1 with
      | Ok _ =>
          (∀ k, of_kind k reported = of_kind k results
                ∧ (k ≠ NO_ACTION → of_kind k attempted = of_kind k results))
          ∧ (dry_run = false →
             copy_through attempted (after_skips results w)
             = Some (do_action o results dry_run w).2)
      | Raise ex =>
          dry_run = false
          ∧ ∃ done x w1,
              reported = of_kind NO_ACTION results ++ done
              ∧ attempted = done ++ [x]
              ∧ copy_through done (after_skips results w) = Some w1
              ∧ shutil.copy2 x.1.1 x.1.2 w1
                = (Raise ex, (do_action o results dry_run w).2)
      end.
Proof.
  assert (Hall : ∀ k,
    of_kind k (of_kind NO_ACTION results ++ plan o results) = of_kind k results
    ∧ (k ≠ NO_ACTION → of_kind k (plan o results) = of_kind k results)).
  { intros k.
    rewrite /of_kind filter_app -!/(of_kind _ _) of_kind_of_kind !of_kind_plan.
    destruct (decide (k = NO_ACTION)) as [->|Hk]; simpl.
    - rewrite app_nil_r. split; [done|]. by intros [].
    - done. }
  destruct dry_run.
  { rewrite do_action_dry /=.
    exists (of_kind NO_ACTION results ++ plan o results), (plan o results).
    rewrite (fmap_app (report_line true)) report_line_skipped
      (report_line_mutating _ _ (plan_mutating o results)).
    rewrite printed_app copied_app printed_prints copied_prints app_nil_r.
    split; [done|]. split; [done|]. split; [|split; [done|]].
    - intros k. destruct (Hall k) as [-> Hk]. split; [done|].
      rewrite of_kind_plan. case_decide; [apply prefix_nil|done].
    - split; [|done]. apply Hall. }
  pose proof (do_action_outcome o results w) as Hrun.
  destruct (do_action o results false w) as [[[]|ex] w']; simpl.
  - destruct Hrun as (Hthrough & Hp & Hc).
    exists (of_kind NO_ACTION results ++ plan o results), (plan o results).
    rewrite fmap_app report_line_skipped
      (report_line_mutating _ _ (plan_mutating o results)).
    split; [done|]. split; [done|]. split; [|split; [done|]].
    + intros k. destruct (Hall k) as [-> Hk]. split; [done|].
      rewrite of_kind_plan. case_decide; [apply prefix_nil|done].
    + split; [apply Hall|done].
  - destruct Hrun as (done & x & rest & w1 & Hpl & Hthrough & Hx & Hp & Hc).
    assert (Hdone : ∀ e, e ∈ done → e.2 ≠ NO_ACTION).
    { intros e He. apply (plan_mutating o results). rewrite Hpl.
      apply elem_of_app. by left. }
    exists (of_kind NO_ACTION results ++ done), (done ++ [x]).
    rewrite fmap_app report_line_skipped (report_line_mutating _ _ Hdone).
    split; [done|]. split; [done|]. split; [|split; [done|]].
    + intros k.
      assert (of_kind k (done ++ [x]) `prefix_of` of_kind k (plan o results)) as Hatt.
      { apply of_kind_prefix. rewrite Hpl. exists rest. by rewrite -app_assoc. }
      assert (of_kind k done `prefix_of` of_kind k (plan o results)) as Hrep.
      { apply of_kind_prefix. rewrite Hpl. by eexists. }
      rewrite of_kind_plan in Hatt. rewrite of_kind_plan in Hrep.
      rewrite {1}/of_kind filter_app -!/(of_kind _ _) of_kind_of_kind.
      destruct (decide (k = NO_ACTION)) as [->|Hk]; simpl in *.
      * apply prefix_nil_inv in Hrep. apply prefix_nil_inv in Hatt.
        rewrite Hrep Hatt app_nil_r. split; [done|]. apply prefix_nil.
      * done.
    + split; [done|]. by exists done, x, w1.
Qed.

(** C2, as the code has it: a copy that raises ends [do_action] there.
    When the copies of the entries [done] of the plan go through and the
    copy of the next entry [x] raises, [do_action] raises that exception,
    unhandled, in the world that copy left: the entries before [x] have
    been copied and reported, [x] has been attempted and not reported, and
    no later entry is attempted or reported.  A committing [do_action]
    raises in no other way. *)
Theorem do_action_stops_at_first_failure (o : set_order)
    (results : list (path * path * Action)) (w : world) :
  (∀ done x rest w1 ex w',
     plan o results = done ++ x :: rest →
     copy_through done (after_skips results w) = Some w1 →
     shutil.copy2 x.1.1 x.1.2 w1 = (Raise ex, w') →
     do_action o results false w = (Raise ex, w')
     ∧ printed (w_trace w')
       = printed (w_trace w) ++ (skip_line <$> of_kind NO_ACTION results)
           ++ (entry_line false <$> done)
     ∧ copied (w_trace w') = copied (w_trace w) ++ (src_dst <$> (done ++ [x])))
  ∧ (∀ ex w',
       do_action o results false w = (Raise ex, w') →
       ∃ done x rest w1,
         plan o results = done ++ x :: rest
         ∧ copy_through done (after_skips results w) = Some w1
         ∧ shutil.copy2 x.1.1 x.1.2 w1 = (Raise ex, w')).
Proof.
  split.
  - intros done x rest w1 ex w' Hpl Hdone Hx.
    split; [by apply (do_action_raises o results w w1 w' done rest x)|].
    pose proof (after_skips_trace results w) as [Hp0 Hc0].
    apply copy_through_trace in Hdone as [Hp Hc].
    pose proof (copy2_trace x.1.1 x.1.2 w1) as [Hp' Hc'].
    rewrite Hx /= in Hp', Hc'.
    by rewrite Hp' Hc' Hp Hc Hp0 Hc0 fmap_app -!app_assoc.
  - intros ex w' Hrun. pose proof (do_action_outcome o results w) as Hout.
    rewrite Hrun in Hout.
    destruct Hout as (done & x & rest & w1 & Hpl & Hdone & Hx & _).
    by exists done, x, rest, w1.
Qed.

Lemma do_action_stops_at_first_failure_witness :
  do_action CopyFirst demo.nested_results false (World demo.nested [])
  = (Raise FileNotFoundError,
     World demo.nested
       [EvCopy2 ["s"; "sub1"; "x.txt"] ["t"; "sub1"; "x.txt"];
        EvOpenRead ["s"; "sub1"; "x.txt"]])
  ∧ printed [EvCopy2 ["s"; "sub1"; "x.txt"] ["t"; "sub1"; "x.txt"];
             EvOpenRead ["s"; "sub1"; "x.txt"]]
    = printed [] ++ (skip_line <$> of_kind NO_ACTION demo.nested_results)
        ++ (entry_line false <$> [])
  ∧ copied [EvCopy2 ["s"; "sub1"; "x.txt"] ["t"; "sub1"; "x.txt"];
            EvOpenRead ["s"; "sub1"; "x.txt"]]
    = copied []
        ++ (src_dst <$> ([] ++ [(["s"; "sub1"; "x.txt"],
                                 ["t"; "sub1"; "x.txt"], COPY)])).
Proof.
  apply (proj1 (do_action_stops_at_first_failure CopyFirst demo.nested_results
                  (World demo.nested []))
           [] (["s"; "sub1"; "x.txt"], ["t"; "sub1"; "x.txt"], COPY)
           [(["s"; "sub2"; "y.txt"], ["t"; "sub2"; "y.txt"], COPY)]
           (after_skips demo.nested_results (World demo.nested []))
           FileNotFoundError).
  - reflexivity.
  - reflexivity.
  - reflexivity.
Defined.

(** C2 as stated fails: in the tree [demo.nested] the copy of
    [sub1/x.txt] raises because [t/sub1] does not exist; the copy of
    [sub2/y.txt], which would succeed, is then never attempted. *)
Lemma do_action_does_not_isolate_failures :
  (shutil.copy2 ["s"; "sub2"; "y.txt"] ["t"; "sub2"; "y.txt"]
     (World demo.nested [])).1 = Ok ["t"; "sub2"; "y.txt"]
  ∧ ¬ attempts_every_entry CopyFirst demo.nested_results (World demo.nested [])
  ∧ ¬ attempts_every_entry ModifyFirst demo.nested_results (World demo.nested []).
Proof.
  split; [by vm_compute|].
  split; unfold attempts_every_entry; vm_compute; discriminate.
Qed.

(** C5, the failing case: for the file [s/sub/x.txt] and an empty target
    [t], [compare_directories] answers Copy to [t/sub/x.txt], and the
    committing [do_action] on that answer raises [FileNotFoundError] and
    leaves the target as it was: [copy2] does not create [t/sub]. *)
Theorem do_action_copy_into_missing_subtree (o : set_order) :
  (compare_directories (algorithm := toy.identity_hash) ["s"] ["t"]
     (World demo.subtree [])).1
  = Ok [mkResult ["s"; "sub"; "x.txt"] ["t"; "sub"; "x.txt"] COPY]
  ∧ (do_action o demo.subtree_results false (World demo.subtree [])).1
    = Raise FileNotFoundError
  ∧ w_fs (do_action o demo.subtree_results false (World demo.subtree [])).2
    = demo.subtree
  ∧ fs.exists_ demo.subtree ["t"; "sub"; "x.txt"] = false.
Proof. by destruct o; vm_compute. Qed.

(** ** The file system *)

Lemma node_rect' (P : node → Type) :
  (∀ data st, P (File data st)) →
  (∀ es, (∀ x c, fs.lookup_entry x es = Some c → P c)
         → (∀ i x c, es !! i = Some (x, c) → P c) → P (Dir es)) →
  ∀ n, P n.
Proof.
  intros Hfile Hdir.
  refine (fix go (n : node) : P n :=
            match n with
            | File data st => Hfile data st
            | Dir es => Hdir es _ _
            end).
  - induction es as [|[y d] es IH]; intros x c; simpl.
    + discriminate.
    + destruct (decide (x = y)).
      * intros [= <-]. apply go.
      * apply IH.
  - induction es as [|[y d] es IH]; intros [|i] x c; simpl; try discriminate.
    + intros [= _ <-]. apply go.
    + apply IH.
Defined.

Lemma wf_dir (es : list (string * node)) :
  fs.wf (Dir es) = true
  ↔ NoDup (fs.names es) ∧ ∀ x c, (x, c) ∈ es → fs.wf c = true.
Proof.
  simpl. rewrite andb_true_iff bool_decide_eq_true.
  enough ((fix all (es : list (string * node)) : bool :=
             match es with
             | [] => true
             | (_, c) :: es' => fs.wf c && all es'
             end) es = true ↔ ∀ x c, (x, c) ∈ es → fs.wf c = true) as -> by done.
  induction es as [|[y d] es IH].
  - split; [|done]. intros _ x c Hin. by apply elem_of_nil in Hin.
  - rewrite andb_true_iff IH. split.
    + intros [Hd Hes] x c [[= -> ->]|Hin]%elem_of_cons; eauto.
    + intros Hall. split; [apply (Hall y); left|intros x c Hin; apply (Hall x); by right].
Qed.

Lemma lookup_entry_Some (x : string) (c : node) (es : list (string * node)) :
  fs.lookup_entry x es = Some c → (x, c) ∈ es.
Proof.
  induction es as [|[y d] es IH]; simpl; [done|].
  case_decide as Hxy.
  - intros [= ->]. subst. left.
  - intros H. right. by apply IH.
Qed.

Lemma lookup_entry_None (x : string) (es : list (string * node)) :
  fs.lookup_entry x es = None ↔ x ∉ fs.names es.
Proof.
  induction es as [|[y d] es IH]; simpl.
  - split; [|done]. intros _ Hin. by apply elem_of_nil in Hin.
  - rewrite not_elem_of_cons. case_decide as Hxy; simpl.
    + split; [done|]. by intros [? _].
    + rewrite IH. tauto.
Qed.

Lemma lookup_entry_NoDup (x : string) (c : node) (es : list (string * node)) :
  NoDup (fs.names es) → (x, c) ∈ es → fs.lookup_entry x es = Some c.
Proof.
  induction es as [|[y d] es IH]; simpl.
  - intros _ Hin. by apply elem_of_nil in Hin.
  - intros [Hy Hnd]%NoDup_cons [[= -> ->]|Hin]%elem_of_cons.
    + by rewrite decide_True.
    + rewrite decide_False; [by apply IH|].
      intros ->. apply Hy. by apply (list_elem_of_fmap_2 fst) in Hin.
Qed.

Lemma stat_app (n : node) (p q : path) :
  fs.stat n (p ++ q) = d ← fs.stat n p; fs.stat d q.
Proof.
  revert n. induction p as [|x p IH]; intros n; simpl; [done|].
  destruct n as [|es]; [done|]. by destruct (fs.lookup_entry x es).
Qed.

Lemma stat_child (n : node) (p : path) (es : list (string * node)) (x : string) :
  fs.stat n p = Ok (Dir es) →
  fs.stat n (p ++ [x]) = match fs.lookup_entry x es with
                         | Some c => Ok c
                         | None => Raise FileNotFoundError
                         end.
Proof. intros Hp. rewrite stat_app Hp /=. by destruct (fs.lookup_entry x es). Qed.

Lemma stat_wf (n : node) (p : path) (d : node) :
  fs.wf n = true → fs.stat n p = Ok d → fs.wf d = true.
Proof.
  revert n. induction p as [|x p IH]; intros n Hwf; simpl.
  - by intros [= <-].
  - destruct n as [|es]; [done|].
    destruct (fs.lookup_entry x es) as [c|] eqn:Hx; [|done].
    apply IH. apply wf_dir in Hwf as [_ Hall]. apply (Hall x).
    by apply lookup_entry_Some.
Qed.

Lemma elem_of_List_filter {A : Type} (f : A → bool) (l : list A) (x : A) :
  x ∈ List.filter f l ↔ x ∈ l ∧ f x = true.
Proof. rewrite !list_elem_of_In. apply filter_In. Qed.

Lemma filenames_elem (f : string) (es : list (string * node)) :
  f ∈ fs.filenames es → ∃ data st, (f, File data st) ∈ es.
Proof.
  rewrite /fs.filenames /fs.names list_elem_of_fmap.
  intros ([x c] & -> & [Hin Hc]%elem_of_List_filter).
  destruct c as [data st|]; [|done]. by exists data, st.
Qed.

Lemma walk_subdirs_elem (top : path) (es : list (string * node)) t :
  t ∈ (fix subdirs (es : list (string * node)) :=
         match es with
         | [] => []
         | (x, c) :: es' =>
             (if fs.is_dir_node c then fs.walk_node (os_path.join top [x]) c
              else [])
             ++ subdirs es'
         end) es →
  ∃ x c, (x, c) ∈ es ∧ t ∈ fs.walk_node (top ++ [x]) c.
Proof.
  induction es as [|[y d] es IH]; simpl.
  - intros Hin. by apply elem_of_nil in Hin.
  - intros [Hin|Hin]%elem_of_app.
    + destruct (fs.is_dir_node d); [|by apply elem_of_nil in Hin].
      exists y, d. split; [left|done].
    + destruct (IH Hin) as (x & c & Hxc & Ht). exists x, c. split; [by right|done].
Qed.

(** Every triple of a walk describes a directory below the top. *)
Lemma walk_node_elem (n c : node) (top : path) root dirs files :
  fs.wf n = true → fs.stat n top = Ok c →
  (root, dirs, files) ∈ fs.walk_node top c →
  ∃ rel es, root = top ++ rel ∧ fs.stat n root = Ok (Dir es)
            ∧ dirs = fs.dirnames es ∧ files = fs.filenames es.
Proof.
  intros Hwf. revert top. induction c as [data st|es _ IH] using node_rect';
    intros top Htop; simpl.
  { intros Hin. by apply elem_of_nil in Hin. }
  intros [[= -> -> ->]|Hin]%elem_of_cons.
  { exists [], es. by rewrite app_nil_r. }
  apply walk_subdirs_elem in Hin as (x & c & Hxc & Ht).
  apply list_elem_of_lookup in Hxc as [i Hi].
  assert (fs.stat n (top ++ [x]) = Ok c) as Hx.
  { rewrite (stat_child _ _ es) // (lookup_entry_NoDup x c) //.
    - apply stat_wf in Htop; [|done]. by apply wf_dir in Htop as [? _].
    - by eapply list_elem_of_lookup_2. }
  destruct (IH i x c Hi (top ++ [x]) Hx Ht) as (rel & es' & -> & ? & ? & ?).
  exists (x :: rel), es'. split; [by rewrite -app_assoc|done].
Qed.

(** Every path a walk discovers is a regular file strictly below the top. *)
Lemma walked_files_elem (n : node) (top p : path) :
  fs.wf n = true → p ∈ walked_files n top →
  ∃ rel data st, rel ≠ [] ∧ p = top ++ rel ∧ fs.stat n p = Ok (File data st).
Proof.
  intros Hwf. rewrite /walked_files /fs.walk list_elem_of_bind.
  intros ([[root dirs] files] & Hp & Ht).
  destruct (fs.stat n top) as [c|] eqn:Htop; [|by apply elem_of_nil in Ht].
  apply (walk_node_elem n) in Ht as (rel & es & -> & Hroot & -> & ->); [|done..].
  apply list_elem_of_fmap in Hp as (f & -> & Hf).
  apply filenames_elem in Hf as (data & st & Hf).
  exists (rel ++ [f]), data, st. split; [by destruct rel|].
  rewrite /os_path.join -app_assoc. split; [done|].
  rewrite app_assoc (stat_child _ _ es) // (lookup_entry_NoDup f (File data st)) //.
  apply stat_wf in Hroot; [|done]. by apply wf_dir in Hroot as [? _].
Qed.

Lemma commonprefix_app (l r : list string) : os_path.commonprefix l (l ++ r) = l.
Proof. induction l as [|x l IH]; simpl; [done|]. by rewrite decide_True // IH. Qed.

(** The relative path of a path below [start] is what follows [start]. *)
Lemma relpath_below_start (start rel : list string) :
  rel ≠ [] → os_path.relpath (start ++ rel) start = rel.
Proof.
  intros Hrel. rewrite /os_path.relpath commonprefix_app Nat.sub_diag /=.
  rewrite drop_app_length. by destruct rel.
Qed.

(** ** The comparison engine *)

Section compare.
Context {algorithm : HashAlgorithm}.
Implicit Types (w : world) (n : node) (p : path).

Lemma get_file_hash_run p block_size w :
  get_file_hash p block_size w
  = match fs.stat (w_fs w) p with
    | Ok (File data _) =>
        (Ok (hash_hexdigest
               (read_chunks (S (length data)) block_size (FileObj data 0) hash_new)),
         World (w_fs w) (w_trace w ++ [EvOpenRead p]))
    | Ok (Dir _) => (Raise IsADirectoryError, w)
    | Raise e => (Raise e, w)
    end.
Proof.
  unfold get_file_hash. rewrite bind_run open_rb_run.
  by destruct (fs.stat (w_fs w) p) as [[]|].
Qed.

Lemma get_file_metadata_run p w :
  get_file_metadata p w
  = match fs.stat (w_fs w) p with
    | Ok (File data _) =>
        (Ok (fingerprint p data), World (w_fs w) (w_trace w ++ [EvOpenRead p]))
    | Ok (Dir _) => (Raise IsADirectoryError, w)
    | Raise e => (Raise e, w)
    end.
Proof.
  unfold get_file_metadata, os.getsize, query. rewrite bind_run /=.
  destruct (fs.stat (w_fs w) p) as [[data st|es]|e] eqn:Hst; simpl; [| |done].
  - rewrite bind_run get_file_hash_run Hst //.
  - rewrite bind_run get_file_hash_run Hst //.
Qed.

Lemma fingerprint_in_run n p :
  fingerprint_in n p
  = match fs.stat n p with
    | Ok (File data _) => Ok (FileMetadata_as_tuple (fingerprint p data))
    | Ok (Dir _) => Raise IsADirectoryError
    | Raise e => Raise e
    end.
Proof.
  rewrite /fingerprint_in get_file_metadata_run /=.
  by destruct (fs.stat n p) as [[]|].
Qed.

(** One round of the inner loop, for a source path that is a regular
    file: the fingerprints are read only when the target is a regular
    file. *)
Lemma compare_file_run (source_dir target_dir root : path) (file : string)
    w data st :
  let sp := os_path.join root [file] in
  let tp := os_path.join target_dir (os_path.relpath sp source_dir) in
  fs.stat (w_fs w) sp = Ok (File data st) →
  compare_file source_dir target_dir root file w
  = (Ok (result_for (w_fs w) source_dir target_dir sp),
     if fs.isfile (w_fs w) tp
     then World (w_fs w) (w_trace w ++ [EvOpenRead sp; EvOpenRead tp])
     else w).
Proof.
  intros sp tp Hsp. unfold compare_file, result_for, os.isfile, query.
  fold sp. fold tp. rewrite bind_run /=.
  destruct (fs.isfile (w_fs w) tp) eqn:Htp; [|done].
  rewrite !fingerprint_in_run Hsp.
  rewrite bind_run bind_run get_file_metadata_run Hsp /=.
  rewrite bind_run get_file_metadata_run /=.
  unfold fs.isfile in Htp.
  destruct (fs.stat (w_fs w) tp) as [[dt stt|]|]; [|done..].
  simpl. rewrite -app_assoc /=.
  destruct (decide (FileMetadata_as_tuple (fingerprint sp data)
                    = FileMetadata_as_tuple (fingerprint tp dt))).
  - rewrite decide_True; [done|by f_equal].
  - rewrite decide_False; [done|congruence].
Qed.

Lemma inner_loop_run (source_dir target_dir root : path) (files : list string)
    (results : list Result) w :
  (∀ f, f ∈ files → ∃ data st, fs.stat (w_fs w) (os_path.join root [f]) = Ok (File data st)) →
  ∃ w', for_in files (λ file results,
              r ← compare_file source_dir target_dir root file;
              mret (results ++ [r])) results w
        = (Ok (results ++ (result_for (w_fs w) source_dir target_dir
                             ∘ (λ f, os_path.join root [f]) <$> files)), w')
        ∧ w_fs w' = w_fs w.
Proof.
  revert results w. induction files as [|f files IH]; intros results w Hfiles; simpl.
  { exists w. by rewrite app_nil_r. }
  destruct (Hfiles f) as (data & st & Hf); [left|].
  rewrite bind_run bind_run (compare_file_run _ _ _ _ _ data st) //=.
  set (w1 := if fs.isfile _ _ then _ else _).
  assert (w_fs w1 = w_fs w) as Hw1 by (rewrite /w1; by case_match).
  destruct (IH (results ++ [result_for (w_fs w) source_dir target_dir
                              (os_path.join root [f])]) w1) as (w' & Hrun & Hw').
  { intros g Hg. rewrite Hw1. apply Hfiles. by right. }
  exists w'. rewrite Hrun Hw1 -app_assoc /=. split; [done|]. congruence.
Qed.

(** [compare_directories] always returns: one result per discovered
    file, in discovery order, and the file system is left as it was. *)
Lemma compare_directories_run (source_dir target_dir : path) w :
  fs.wf (w_fs w) = true →
  ∃ w', compare_directories source_dir target_dir w
        = (Ok (result_for (w_fs w) source_dir target_dir
                 <$> walked_files (w_fs w) source_dir), w')
        ∧ w_fs w' = w_fs w.
Proof.
  intros Hwf. unfold compare_directories, os.walk, query. rewrite bind_run /=.
  unfold walked_files.
  assert (∀ t, t ∈ fs.walk (w_fs w) source_dir →
               ∀ f, f ∈ t.2 → os_path.join t.1.1 [f] ∈ walked_files (w_fs w) source_dir)
    as Hsub.
  { intros [[root dirs] files] Ht f Hf. rewrite /walked_files list_elem_of_bind.
    exists (root, dirs, files). split; [|done].
    by apply (list_elem_of_fmap_2 (λ file, os_path.join root [file])). }
  enough (∀ (walked : list (path * list string * list string)) results w1,
            w_fs w1 = w_fs w →
            (∀ t, t ∈ walked → ∀ f, f ∈ t.2 →
               os_path.join t.1.1 [f] ∈ walked_files (w_fs w) source_dir) →
            ∃ w', for_in walked (λ '(root, dirs, files) results,
                    for_in files (λ file results,
                      r ← compare_file source_dir target_dir root file;
                      mret (results ++ [r])) results) results w1
                  = (Ok (results ++ (result_for (w_fs w) source_dir target_dir
                           <$> ('(root, _, files) ← walked;
                                (λ file, os_path.join root [file]) <$> files))), w')
                  ∧ w_fs w' = w_fs w) as Hloop.
  { by apply (Hloop (fs.walk (w_fs w) source_dir) [] w). }
  clear Hsub.
  induction walked as [|[[root dirs] files] walked IH]; intros results w1 Hw1 Hsub; simpl.
  { exists w1. by rewrite app_nil_r. }
  rewrite bind_run.
  destruct (inner_loop_run source_dir target_dir root files results w1)
    as (w2 & Hin & Hw2).
  { intros f Hf. rewrite Hw1.
    destruct (walked_files_elem (w_fs w) source_dir (os_path.join root [f]))
      as (rel & data & st & _ & _ & Hst); [done| |by eauto].
    apply (Hsub (root, dirs, files)); [left|done]. }
  rewrite Hin. destruct (IH (results ++ (result_for (w_fs w1) source_dir target_dir
                   ∘ (λ f, os_path.join root [f]) <$> files)) w2) as (w' & Hrun & Hw').
  { congruence. }
  { intros t Ht. apply Hsub. by right. }
  exists w'. rewrite Hrun Hw1 fmap_app -app_assoc list_fmap_compose. done.
Qed.

End compare.



Example compare_directories_flat :
  (compare_directories (algorithm := toy.identity_hash) ["s"] ["t"]
     (World demo.flat [])).1
  = Ok [mkResult ["s"; "a.txt"] ["t"; "a.txt"] COPY;
        mkResult ["s"; "b.txt"] ["t"; "b.txt"] MODIFY;
        mkResult ["s"; "c.txt"] ["t"; "c.txt"] COPY].
Proof. by vm_compute. Qed.

(** C9 (target is a directory): a source file whose derived target path
    is an existing directory is classified Copy, as if the target were
    absent.  The round of the loop for it raises nothing and opens no file:
    it leaves the world, trace included, as it found it, although
    fingerprinting the target would raise. *)
Theorem compare_directories_target_is_directory {algorithm : HashAlgorithm}
    (source_dir target_dir sp : path) (es : list (string * node)) (w : world) :
  fs.wf (w_fs w) = true →
  sp ∈ walked_files (w_fs w) source_dir →
  fs.stat (w_fs w)
    (os_path.join target_dir (os_path.relpath sp source_dir)) = Ok (Dir es) →
  let tp := os_path.join target_dir (os_path.relpath sp source_dir) in
  (∃ results w',
     compare_directories source_dir target_dir w = (Ok results, w')
     ∧ mkResult sp tp COPY ∈ results)
  ∧ (∀ root file w1,
       sp = os_path.join root [file] → w_fs w1 = w_fs w →
       compare_file source_dir target_dir root file w1
       = (Ok (mkResult sp tp COPY), w1))
  ∧ fingerprint_in (w_fs w) tp = Raise IsADirectoryError.
Proof.
  intros Hwf Hsp Htp tp.
  assert (fs.isfile (w_fs w) tp = false) as Hnf by rewrite /fs.isfile Htp //.
  assert (result_for (w_fs w) source_dir target_dir sp = mkResult sp tp COPY) as Hres.
  { rewrite /result_for. fold tp. by rewrite Hnf. }
  split; [|split].
  - destruct (compare_directories_run source_dir target_dir w Hwf) as (w' & Hrun & Hw').
    eexists _, w'. split; [exact Hrun|]. rewrite -Hres.
    by apply list_elem_of_fmap_2.
  - intros root file w1 -> Hw1.
    destruct (walked_files_elem _ _ _ Hwf Hsp) as (rel & data & st & _ & _ & Hst).
    rewrite (compare_file_run _ _ _ _ _ data st); [|by rewrite Hw1].
    rewrite Hw1. fold tp. by rewrite Hres Hnf.
  - by rewrite fingerprint_in_run Htp.
Qed.

Lemma compare_directories_target_is_directory_witness :
  (∃ results w',
     compare_directories (algorithm := toy.identity_hash) ["s"] ["t"]
       (World demo.clash []) = (Ok results, w')
     ∧ mkResult ["s"; "x.txt"] ["t"; "x.txt"] COPY ∈ results)
  ∧ (∀ root file w1,
       ["s"; "x.txt"] = os_path.join root [file] → w_fs w1 = demo.clash →
       compare_file (algorithm := toy.identity_hash) ["s"] ["t"] root file w1
       = (Ok (mkResult ["s"; "x.txt"] ["t"; "x.txt"] COPY), w1))
  ∧ fingerprint_in (algorithm := toy.identity_hash) demo.clash ["t"; "x.txt"]
    = Raise IsADirectoryError.
Proof.
  apply (compare_directories_target_is_directory (algorithm := toy.identity_hash)
           ["s"] ["t"] ["s"; "x.txt"]
           [("y.txt", File (toy.bytes "v2") toy.st1)] (World demo.clash [])).
  - reflexivity.
  - vm_compute. left.
  - reflexivity.
Defined.

(** C8 (determinism): the fingerprint of a regular file depends on its
    path and its content only.  Computing it leaves the file system as it
    was, computing it again right after gives the same value, and so does
    computing it in any world where the file at that path has the same
    content. *)
Theorem get_file_metadata_deterministic {algorithm : HashAlgorithm}
    (p : path) (w : world) (data : list byte) (st : file_stat) :
  fs.stat (w_fs w) p = Ok (File data st) →
  ∃ m w1,
    get_file_metadata p w = (Ok m, w1)
    ∧ w_fs w1 = w_fs w
    ∧ (get_file_metadata p w1).1 = Ok m
    ∧ ∀ w2 st2, fs.stat (w_fs w2) p = Ok (File data st2) →
                (get_file_metadata p w2).1 = Ok m.
Proof.
  intros Hst. rewrite get_file_metadata_run Hst.
  eexists _, _. split; [done|]. split; [done|]. split.
  - by rewrite get_file_metadata_run /= Hst.
  - intros w2 st2 Hst2. by rewrite get_file_metadata_run Hst2.
Qed.

Lemma get_file_metadata_deterministic_witness :
  ∃ m w1,
    get_file_metadata (algorithm := toy.identity_hash) ["s"; "b.txt"]
      (World demo.flat []) = (Ok m, w1)
    ∧ w_fs w1 = demo.flat
    ∧ (get_file_metadata ["s"; "b.txt"] w1).1 = Ok m
    ∧ ∀ w2 st2, fs.stat (w_fs w2) ["s"; "b.txt"]
                = Ok (File (toy.bytes "two") st2) →
                (get_file_metadata ["s"; "b.txt"] w2).1 = Ok m.
Proof.
  apply (get_file_metadata_deterministic (algorithm := toy.identity_hash)
           ["s"; "b.txt"] (World demo.flat []) (toy.bytes "two") toy.st0).
  reflexivity.
Defined.

(** ** Python strings *)

Section strings.
Implicit Types (s a b : string) (c : ascii) (i : Z).
Local Open Scope Z_scope.

Lemma str_app_nil_l a : "" +:+ a = a.
Proof. reflexivity. Qed.

Lemma str_app_cons c a b : String c a +:+ b = String c (a +:+ b).
Proof. reflexivity. Qed.

Lemma str_app_assoc a b s : (a +:+ b) +:+ s = a +:+ b +:+ s.
Proof. induction a; rewrite ?str_app_cons ?str_app_nil_l; congruence. Qed.

Lemma str_app_nil_r a : a +:+ "" = a.
Proof. induction a; rewrite ?str_app_cons ?str_app_nil_l; congruence. Qed.

Lemma len_cons c a : pystr.len (String c a) = 1 + pystr.len a.
Proof. unfold pystr.len. simpl. lia. Qed.

Lemma len_nonneg a : 0 ≤ pystr.len a.
Proof. unfold pystr.len. lia. Qed.

Lemma len_app a b : pystr.len (a +:+ b) = pystr.len a + pystr.len b.
Proof.
  induction a; rewrite ?str_app_cons ?str_app_nil_l ?len_cons; [done|lia].
Qed.

Lemma take_app_len a b : pystr.take (String.length a) (a +:+ b) = a.
Proof.
  induction a; rewrite ?str_app_cons ?str_app_nil_l /=; [by destruct b|congruence].
Qed.

Lemma drop_app_len a b : pystr.drop (String.length a) (a +:+ b) = b.
Proof.
  induction a; rewrite ?str_app_cons ?str_app_nil_l /=; [by destruct b|congruence].
Qed.

Lemma bound_len s a : pystr.bound s (pystr.len a) = String.length a.
Proof.
  unfold pystr.bound. pose proof (len_nonneg a).
  destruct (Z.ltb_spec (pystr.len a) 0); [lia|]. unfold pystr.len. lia.
Qed.

Lemma occurs_app c a b :
  pystr.occurs c (a +:+ b) ↔ pystr.occurs c a ∨ pystr.occurs c b.
Proof. induction a; rewrite ?str_app_cons ?str_app_nil_l /=; tauto. Qed.

Lemma occurs_dec c s : {pystr.occurs c s} + {¬ pystr.occurs c s}.
Proof.
  induction s as [|a s IH]; simpl; [right; tauto|].
  destruct (decide (a = c)); [left; by left|].
  destruct IH; [left; by right|right; tauto].
Defined.

(** The last occurrence of a character splits the string. *)
Lemma occurs_last c s :
  pystr.occurs c s → ∃ pre suf, s = pre +:+ String c suf ∧ ¬ pystr.occurs c suf.
Proof.
  induction s as [|a s IH]; simpl; [done|].
  intros Hocc. destruct (occurs_dec c s) as [Hs|Hs].
  - destruct (IH Hs) as (pre & suf & -> & Hsuf). by exists (String a pre), suf.
  - destruct Hocc as [->|?]; [|done]. by exists "", s.
Qed.

Lemma rfind_from_range c s i :
  pystr.rfind_from c s i = -1
  ∨ i ≤ pystr.rfind_from c s i < i + pystr.len s.
Proof.
  revert i. induction s as [|a s IH]; intros i; simpl; [by left|].
  rewrite len_cons. destruct (IH (i + 1)) as [->|Hr]; simpl.
  - destruct (Ascii.eqb a c); [right; pose proof (len_nonneg s); lia|by left].
  - destruct (Z.leb_spec 0 (pystr.rfind_from c s (i + 1))); [right; lia|].
    destruct (Ascii.eqb a c); [right; pose proof (len_nonneg s); lia|by left].
Qed.

Lemma rfind_from_none c s i : ¬ pystr.occurs c s → pystr.rfind_from c s i = -1.
Proof.
  revert i. induction s as [|a s IH]; intros i; simpl; [done|].
  intros Hocc. rewrite IH; [|tauto]. simpl.
  destruct (Ascii.eqb_spec a c); [tauto|done].
Qed.

Lemma rfind_from_app c a b i :
  0 ≤ i →
  pystr.rfind_from c (a +:+ b) i
  = if 0 <=? pystr.rfind_from c b (i + pystr.len a)
    then pystr.rfind_from c b (i + pystr.len a)
    else pystr.rfind_from c a i.
Proof.
  revert i. induction a as [|x a IH]; intros i Hi;
    rewrite ?str_app_cons ?str_app_nil_l /=.
  - replace (i + pystr.len "") with i by (unfold pystr.len; simpl; lia).
    destruct (rfind_from_range c b i) as [->|Hr]; [done|].
    destruct (Z.leb_spec 0 (pystr.rfind_from c b i)); [done|lia].
  - rewrite IH; [|lia]. rewrite len_cons.
    replace (i + 1 + pystr.len a) with (i + (1 + pystr.len a)) by lia.
    destruct (0 <=? pystr.rfind_from c b (i + (1 + pystr.len a))) eqn:E;
      [by rewrite E|done].
Qed.

Lemma rfind_from_last c pre suf i :
  0 ≤ i → ¬ pystr.occurs c suf →
  pystr.rfind_from c (pre +:+ String c suf) i = i + pystr.len pre.
Proof.
  intros Hi Hsuf. rewrite rfind_from_app //=.
  rewrite rfind_from_none // Ascii.eqb_refl /=.
  pose proof (len_nonneg pre).
  destruct (Z.leb_spec 0 (i + pystr.len pre)); [done|lia].
Qed.

(** A path string splits at its last separator into a directory part,
    empty or ending in the separator, and a file name. *)
Lemma sep_split s :
  ∃ dir name,
    s = dir +:+ name ∧ ¬ pystr.occurs os_path.sep name
    ∧ (dir = "" ∨ ∃ d, dir = d +:+ "/")
    ∧ pystr.rfind s os_path.sep + 1 = pystr.len dir.
Proof.
  destruct (occurs_dec os_path.sep s) as [Hs|Hs].
  - apply occurs_last in Hs as (pre & suf & -> & Hsuf).
    exists (pre +:+ "/"), suf. rewrite str_app_assoc. split; [done|].
    split; [done|]. split; [right; by exists pre|].
    rewrite /pystr.rfind rfind_from_last // len_app. by unfold pystr.len.
  - exists "", s. rewrite /pystr.rfind rfind_from_none //. auto.
Qed.

Lemma str_app_snoc a c b : (a +:+ String c "") +:+ b = a +:+ String c b.
Proof. by rewrite str_app_assoc str_app_cons str_app_nil_l. Qed.

Lemma bound_len_succ s a : pystr.bound s (pystr.len a + 1) = S (String.length a).
Proof.
  replace (pystr.len a + 1) with (pystr.len (a +:+ String "."%char ""))
    by (rewrite len_app len_cons; unfold pystr.len; simpl; lia).
  rewrite bound_len. apply Nat2Z.inj. fold (pystr.len (a +:+ String "."%char "")).
  rewrite len_app len_cons. unfold pystr.len. simpl. lia.
Qed.

Lemma only_dots_cons c a : only_dots (String c a) ↔ c = "."%char ∧ only_dots a.
Proof.
  unfold only_dots. simpl. split.
  - intros H. split; [apply H; by left|]. intros x Hx. apply H. by right.
  - intros [-> H] x [<-|Hx]; [done|by apply H].
Qed.

(** The loop of [_splitext]: started at the end of [a] in
    [a + pre + "." + suf], it finds [pre] made of dots and gives up, or
    meets another character and splits at the dot. *)
Lemma skip_leading_dots_spec a pre suf :
  let s := a +:+ pre +:+ String "."%char suf in
  (only_dots pre
   ∧ os_path.skip_leading_dots (String.length pre) s (pystr.len a)
       (pystr.len (a +:+ pre)) = (s, ""))
  ∨ (¬ only_dots pre
     ∧ os_path.skip_leading_dots (String.length pre) s (pystr.len a)
         (pystr.len (a +:+ pre)) = (a +:+ pre, String "."%char suf)).
Proof.
  revert a. induction pre as [|c pre IH]; intros a s.
  { left. split; [by intros c []|done]. }
  simpl. unfold pystr.slice. rewrite bound_len bound_len_succ.
  replace (S (String.length a) - String.length a)%nat with 1%nat by lia.
  subst s. rewrite str_app_cons drop_app_len /=.
  destruct (decide (c = "."%char)) as [->|Hc].
  - case_decide as Hd; [by destruct Hd|].
    specialize (IH (a +:+ String "."%char "")). simpl in IH.
    rewrite !str_app_snoc len_app len_cons in IH.
    replace (pystr.len a + (1 + pystr.len "")) with (pystr.len a + 1) in IH
      by (unfold pystr.len; simpl; lia).
    rewrite only_dots_cons. destruct IH as [[Hp ->]|[Hp ->]]; [left|right]; tauto.
  - case_decide as Hd; [|by injection Hd]. right. split.
    + rewrite only_dots_cons. tauto.
    + unfold pystr.slice_to, pystr.slice_from. rewrite bound_len.
      rewrite -str_app_cons -str_app_assoc take_app_len drop_app_len //.
Qed.

(** What [splitext] returns, in terms of the file name, the part of the
    path string after its last separator: nothing is split off when the
    name has no dot besides leading ones; otherwise the name is split at
    its last dot and the dot goes with the extension. *)
Lemma splitext_spec s root ext :
  os_path.splitext s = (root, ext) →
  root +:+ ext = s
  ∧ ∃ dir name,
      s = dir +:+ name ∧ ¬ pystr.occurs os_path.sep name
      ∧ (dir = "" ∨ ∃ d, dir = d +:+ "/")
      ∧ ((ext = "" ∧ ∃ dots rest,
            name = dots +:+ rest ∧ only_dots dots
            ∧ ¬ pystr.occurs os_path.extsep rest)
         ∨ (∃ stem suf,
              name = stem +:+ String "."%char suf ∧ ¬ only_dots stem
              ∧ ¬ pystr.occurs os_path.extsep suf
              ∧ root = dir +:+ stem ∧ ext = String "."%char suf)).
Proof.
  unfold os_path.splitext, os_path._splitext.
  destruct (sep_split s) as (dir & name & -> & Hname & Hdir & Hsep).
  assert (pystr.rfind (dir +:+ name) os_path.sep = pystr.len dir - 1) as -> by lia.
  pose proof (len_nonneg dir) as Hdir0.
  destruct (occurs_dec os_path.extsep name) as [Hdot|Hdot].
  - apply occurs_last in Hdot as (pre & suf & -> & Hsuf).
    pose proof (len_nonneg pre) as Hpre0.
    assert (pystr.rfind (dir +:+ pre +:+ String os_path.extsep suf) os_path.extsep
            = pystr.len (dir +:+ pre)) as ->.
    { rewrite /pystr.rfind -str_app_assoc rfind_from_last //. }
    assert ((pystr.len dir - 1 <? pystr.len (dir +:+ pre)) = true) as ->.
    { apply Z.ltb_lt. rewrite len_app. lia. }
    replace (Z.to_nat (pystr.len (dir +:+ pre) - (pystr.len dir - 1 + 1)))
      with (String.length pre) by (rewrite len_app; unfold pystr.len; lia).
    replace (pystr.len dir - 1 + 1) with (pystr.len dir) by lia.
    unfold os_path.extsep in *.
    destruct (skip_leading_dots_spec dir pre suf) as [[Hd ->]|[Hd ->]];
      intros [= <- <-].
    + split; [apply str_app_nil_r|]. exists dir, (pre +:+ String "."%char suf).
      repeat (split; [done|]). left. split; [done|].
      exists (pre +:+ String "."%char ""), suf. rewrite str_app_snoc.
      split; [done|]. split; [|done].
      intros c [Hc|Hc]%occurs_app; [by apply Hd|]. by destruct Hc as [<-|[]].
    + split; [by rewrite str_app_assoc|]. exists dir, (pre +:+ String "."%char suf).
      repeat (split; [done|]). right. by exists pre, suf.
  - assert (pystr.rfind (dir +:+ name) os_path.extsep
            = pystr.rfind_from os_path.extsep dir 0) as ->.
    { rewrite /pystr.rfind rfind_from_app // (rfind_from_none _ name) //. }
    assert ((pystr.len dir - 1 <? pystr.rfind_from os_path.extsep dir 0) = false) as ->.
    { apply Z.ltb_ge. destruct (rfind_from_range os_path.extsep dir 0) as [->|?]; lia. }
    intros [= <- <-]. split; [apply str_app_nil_r|]. exists dir, name.
    repeat (split; [done|]). left. split; [done|]. exists "", name.
    split; [done|]. split; [by intros c []|done].
Qed.

End strings.

(** ** The fingerprint *)

Section fingerprint_facts.
Context {algorithm : HashAlgorithm}.

Lemma drop_length_take {A : Type} (k : nat) (l : list A) :
  drop (length (take k l)) l = drop k l.
Proof.
  rewrite length_take. destruct (Nat.le_gt_cases k (length l)).
  - by rewrite Nat.min_l.
  - rewrite Nat.min_r; [|lia]. rewrite !drop_ge //. lia.
Qed.

(** The read loop feeds the hash object the rest of the file in blocks:
    each block is non-empty and at most [block_size] long, and all but
    the last are exactly [block_size] long. *)
Lemma read_chunks_blocks (rounds block_size : nat) (data : list byte)
    (pos : nat) (h : hash_obj) :
  0 < block_size → length data - pos < rounds →
  ∃ chunks,
    concat chunks = drop pos data
    ∧ Forall (λ c, 0 < length c ≤ block_size) chunks
    ∧ (∀ i c, chunks !! i = Some c → S i < length chunks →
              length c = block_size)
    ∧ read_chunks rounds block_size (FileObj data pos) h
      = foldl hash_update h chunks.
Proof.
  intros Hbs. revert pos h. induction rounds as [|rounds IH]; intros pos h Hr; [lia|].
  simpl. destruct (take block_size (drop pos data)) as [|b chunk] eqn:Hchunk.
  { exists []. split; [|by repeat split].
    destruct (drop pos data); [done|]. by destruct block_size; [lia|]. }
  assert (Hlen : length (b :: chunk) = length (take block_size (drop pos data)))
    by rewrite Hchunk //.
  rewrite length_take length_drop in Hlen.
  destruct (IH (pos + length (b :: chunk)) (hash_update h (b :: chunk)))
    as (chunks & Hcat & Hall & Hfull & Hrun).
  { simpl in *. lia. }
  exists ((b :: chunk) :: chunks). split; [|split; [|split]].
  - rewrite concat_cons Hcat -Hchunk -drop_drop drop_length_take.
    apply take_drop.
  - constructor; [|done]. split; [simpl; lia|rewrite Hlen; lia].
  - intros [|i] c; simpl.
    + intros [= <-] Hmore. destruct chunks as [|c' chunks]; [simpl in *; lia|].
      apply Forall_cons in Hall as [Hc' _].
      assert (length (drop (pos + length (b :: chunk)) data) ≠ 0) as Hrest.
      { rewrite -Hcat /= length_app. lia. }
      rewrite length_drop in Hrest. lia.
    + intros Hc Hmore. apply (Hfull i c Hc). lia.
  - exact Hrun.
Qed.

Lemma foldl_hash_update `{!HashStreaming algorithm} (chunks : list (list byte))
    (h : hash_obj) :
  foldl hash_update h chunks = hash_update h (concat chunks).
Proof.
  revert h. induction chunks as [|c chunks IH]; intros h; simpl.
  - by rewrite hash_update_nil.
  - by rewrite IH hash_update_app.
Qed.

End fingerprint_facts.

(** C7, as the code has it: for a regular file, [get_file_metadata]
    returns (1) as extension the second component of [splitext] on the path
    string: empty when the file name (the part after the last separator)
    has no dot besides leading ones, and otherwise the end of the file name
    from its last dot on, that dot included; (2) as size the number of bytes
    of the content; (3) as hash the [hexdigest] of a hash object fed the
    whole content in blocks of 4096 bytes, the last one possibly shorter;
    for a hash that streams, that is the digest of the content. *)
Theorem get_file_metadata_fields {algorithm : HashAlgorithm}
    (p : path) (w : world) (data : list byte) (st : file_stat) :
  fs.stat (w_fs w) p = Ok (File data st) →
  ∃ m,
    (get_file_metadata p w).1 = Ok m
    ∧ (∃ root dir name,
         root +:+ file_extension m = os_path.path_str p
         ∧ os_path.path_str p = dir +:+ name
         ∧ ¬ pystr.occurs os_path.sep name
         ∧ (dir = "" ∨ ∃ d, dir = d +:+ "/")
         ∧ ((file_extension m = ""
             ∧ ∃ dots rest, name = dots +:+ rest ∧ only_dots dots
                            ∧ ¬ pystr.occurs os_path.extsep rest)
            ∨ (∃ stem suf,
                 name = stem +:+ String "."%char suf ∧ ¬ only_dots stem
                 ∧ ¬ pystr.occurs os_path.extsep suf
                 ∧ root = dir +:+ stem
                 ∧ file_extension m = String "."%char suf)))
    ∧ file_size m = Z.of_nat (length data)
    ∧ (∃ chunks,
         concat chunks = data
         ∧ Forall (λ c, 0 < length c ≤ 4096) chunks
         ∧ (∀ i c, chunks !! i = Some c → S i < length chunks → length c = 4096)
         ∧ file_hash m = hash_hexdigest (foldl hash_update hash_new chunks))
    ∧ (HashStreaming algorithm →
       file_hash m = hash_hexdigest (hash_update hash_new data)).
Proof.
  intros Hst. rewrite get_file_metadata_run Hst /=.
  exists (fingerprint p data). split; [done|].
  destruct (read_chunks_blocks (S (length data)) 4096 data 0 hash_new)
    as (chunks & Hcat & Hall & Hfull & Hrun); [lia..|].
  rewrite drop_0 in Hcat.
  split; [|split; [done|split]].
  - rewrite /fingerprint /=.
    destruct (os_path.splitext (os_path.path_str p)) as [root ext] eqn:Hsplit.
    apply splitext_spec in Hsplit as (Hcat' & dir & name & ? & ? & ? & ?).
    by exists root, dir, name.
  - exists chunks. by rewrite /= /content_hash Hrun.
  - intros Hstream. by rewrite /= /content_hash Hrun foldl_hash_update Hcat.
Qed.

Lemma get_file_metadata_fields_witness :
  ∃ m,
    (get_file_metadata (algorithm := toy.identity_hash) ["s"; "a.txt"]
       (World demo.dotted [])).1 = Ok m
    ∧ (∃ root dir name,
         root +:+ file_extension m = os_path.path_str ["s"; "a.txt"]
         ∧ os_path.path_str ["s"; "a.txt"] = dir +:+ name
         ∧ ¬ pystr.occurs os_path.sep name
         ∧ (dir = "" ∨ ∃ d, dir = d +:+ "/")
         ∧ ((file_extension m = ""
             ∧ ∃ dots rest, name = dots +:+ rest ∧ only_dots dots
                            ∧ ¬ pystr.occurs os_path.extsep rest)
            ∨ (∃ stem suf,
                 name = stem +:+ String "."%char suf ∧ ¬ only_dots stem
                 ∧ ¬ pystr.occurs os_path.extsep suf
                 ∧ root = dir +:+ stem
                 ∧ file_extension m = String "."%char suf)))
    ∧ file_size m = Z.of_nat (length (toy.bytes "one"))
    ∧ (∃ chunks,
         concat chunks = toy.bytes "one"
         ∧ Forall (λ c, 0 < length c ≤ 4096) chunks
         ∧ (∀ i c, chunks !! i = Some c → S i < length chunks → length c = 4096)
         ∧ file_hash m = hash_hexdigest (foldl hash_update hash_new chunks))
    ∧ (HashStreaming toy.identity_hash →
       file_hash m = hash_hexdigest (hash_update hash_new (toy.bytes "one"))).
Proof.
  apply (get_file_metadata_fields (algorithm := toy.identity_hash)
           ["s"; "a.txt"] (World demo.dotted []) (toy.bytes "one") toy.st0).
  reflexivity.
Defined.

(** C7 as stated fails on the extension: for [/s/a.txt] the field is
    [.txt], with the dot, where the text after the last dot is [txt]; for
    [/s/.bashrc] the field is empty, where the text after the last dot is
    [bashrc]. *)
Lemma get_file_metadata_extension_not_after_dot :
  (∃ m, (get_file_metadata (algorithm := toy.identity_hash) ["s"; "a.txt"]
           (World demo.dotted [])).1 = Ok m
        ∧ file_extension m = ".txt"
        ∧ extension_after_last_dot (os_path.path_str ["s"; "a.txt"]) = "txt"
        ∧ file_extension m
          ≠ extension_after_last_dot (os_path.path_str ["s"; "a.txt"]))
  ∧ (∃ m, (get_file_metadata (algorithm := toy.identity_hash) ["s"; ".bashrc"]
             (World demo.dotted [])).1 = Ok m
          ∧ file_extension m = ""
          ∧ extension_after_last_dot (os_path.path_str ["s"; ".bashrc"]) = "bashrc"
          ∧ file_extension m
            ≠ extension_after_last_dot (os_path.path_str ["s"; ".bashrc"])).
Proof.
  split; eexists; (split; [by vm_compute|]); by vm_compute.
Qed.

(** ** Directory equality *)

Section dirs_equal.
Implicit Types (n d : node) (es : list (string * node)) (x : string).

Lemma clean_dir es :
  clean (Dir es) = true
  ↔ ∀ x c, (x, c) ∈ es → (x ∉ skipped_names) ∧ clean c = true.
Proof.
  simpl. rewrite forallb_forall. split.
  - intros H x c Hin%list_elem_of_In. apply H in Hin.
    apply andb_true_iff in Hin as [Hx Hc]. split; [|done].
    by apply negb_true_iff, bool_decide_eq_false in Hx.
  - intros H [x c] Hin%list_elem_of_In. destruct (H x c Hin) as [Hx Hc].
    apply andb_true_iff. split; [|done].
    by apply negb_true_iff, bool_decide_eq_false.
Qed.

Lemma clash_dir es1 es2 :
  type_clash_free (Dir es1) (Dir es2) = true
  ↔ ∀ x c1 c2, (x, c1) ∈ es1 → fs.lookup_entry x es2 = Some c2 →
               type_clash_free c1 c2 = true.
Proof.
  simpl. rewrite forallb_forall. split.
  - intros H x c1 c2 Hin%list_elem_of_In Hx. apply H in Hin. simpl in Hin.
    by rewrite Hx in Hin.
  - intros H [x c1] Hin%list_elem_of_In. simpl.
    destruct (fs.lookup_entry x es2) as [c2|] eqn:Hx; [|done]. by eapply H.
Qed.

Lemma depth_child x c es : (x, c) ∈ es → fs.depth c < fs.depth (Dir es).
Proof.
  simpl. induction es as [|[y d] es IH]; intros Hin.
  - by apply elem_of_nil in Hin.
  - apply elem_of_cons in Hin as [[= -> ->]|Hin]; [lia|].
    apply IH in Hin. lia.
Qed.

Lemma lookup_entry_is_Some x es :
  x ∈ fs.names es ↔ is_Some (fs.lookup_entry x es).
Proof.
  destruct (fs.lookup_entry x es) eqn:Hx.
  - split; [by eauto|]. intros _. apply lookup_entry_Some in Hx.
    by apply (list_elem_of_fmap_2 fst) in Hx.
  - apply lookup_entry_None in Hx. split; [done|]. by intros [? [=]].
Qed.

Lemma filter_clean es :
  clean (Dir es) = true →
  filecmp._filter (fs.names es)
    ([os_path.curdir; os_path.pardir] ++ filecmp.DEFAULT_IGNORES)
  = fs.names es.
Proof.
  intros Hc. apply forallb_filter_id, forallb_forall.
  intros x Hx%list_elem_of_In. apply list_elem_of_fmap in Hx as ([y c] & -> & Hin).
  destruct (proj1 (clean_dir es) Hc y c Hin) as [Hy _].
  by apply negb_true_iff, bool_decide_eq_false.
Qed.

Lemma List_filter_nil {A : Type} (f : A → bool) (l : list A) :
  List.filter f l = [] ↔ ∀ a, a ∈ l → f a = false.
Proof.
  induction l as [|a l IH]; simpl.
  - split; [|done]. intros _ b Hb. by apply elem_of_nil in Hb.
  - destruct (f a) eqn:Ha.
    + split; [done|]. intros H. rewrite H in Ha; [done|left].
    + rewrite IH. split.
      * intros H b [->|Hb]%elem_of_cons; auto.
      * intros H b Hb. apply H. by right.
Qed.

Lemma truthy_false {A : Type} (l : list A) : truthy l = false ↔ l = [].
Proof. by destruct l. Qed.

Lemma eq_tree_file (dat1 dat2 : list byte) (st1 st2 : file_stat) :
  eq_tree (File dat1 st1) (File dat2 st2) ↔ dat1 = dat2.
Proof.
  split.
  - intros [_ Hb]. by apply (Hb [] dat1 st1 dat2 st2).
  - intros ->. split.
    + by intros [|y rel].
    + intros [|y rel] ?????; simpl in *; congruence.
Qed.

(** Two directories are equal trees exactly when they list the same
    names and the entries of each name are equal trees. *)
Lemma eq_tree_dir es1 es2 :
  eq_tree (Dir es1) (Dir es2)
  ↔ ∀ x, match fs.lookup_entry x es1, fs.lookup_entry x es2 with
         | None, None => True
         | Some c1, Some c2 => eq_tree c1 c2
         | _, _ => False
         end.
Proof.
  split.
  - intros [Hp Hb] x. pose proof (Hp [x]) as Hx. unfold fs.exists_ in Hx. simpl in Hx.
    destruct (fs.lookup_entry x es1) as [c1|] eqn:H1,
             (fs.lookup_entry x es2) as [c2|] eqn:H2; try done.
    split.
    + intros rel. specialize (Hp (x :: rel)). unfold fs.exists_ in *. simpl in Hp.
      by rewrite H1 H2 in Hp.
    + intros rel y1 s1 y2 s2 Hs1 Hs2. apply (Hb (x :: rel) y1 s1 y2 s2); simpl.
      * by rewrite H1.
      * by rewrite H2.
  - intros H. split.
    + intros [|x rel]; [done|]. specialize (H x). unfold fs.exists_. simpl.
      destruct (fs.lookup_entry x es1) as [c1|], (fs.lookup_entry x es2) as [c2|];
        try done.
      destruct H as [Hp _]. apply Hp.
    + intros [|x rel] y1 s1 y2 s2; simpl; [done|]. specialize (H x).
      destruct (fs.lookup_entry x es1) as [c1|], (fs.lookup_entry x es2) as [c2|];
        try done.
      destruct H as [_ Hb]. apply Hb.
Qed.

Lemma classify_child n (a b : path) es1 es2 x :
  fs.stat n a = Ok (Dir es1) → fs.stat n b = Ok (Dir es2) →
  filecmp.classify n a b x
  = match fs.lookup_entry x es1, fs.lookup_entry x es2 with
    | Some (Dir _), Some (Dir _) => filecmp.KDir
    | Some (File _ _), Some (File _ _) => filecmp.KFile
    | _, _ => filecmp.KFunny
    end.
Proof.
  intros Ha Hb.
  rewrite /filecmp.classify /os_path.join
    (stat_child n a es1 x Ha) (stat_child n b es2 x Hb).
  by repeat case_match.
Qed.

Lemma cmp_child n (a b : path) es1 es2 x (dat1 dat2 : list byte) st1 st2 :
  fs.stat n a = Ok (Dir es1) → fs.stat n b = Ok (Dir es2) →
  fs.lookup_entry x es1 = Some (File dat1 st1) →
  fs.lookup_entry x es2 = Some (File dat2 st2) →
  filecmp._cmp n (os_path.join a [x]) (os_path.join b [x]) false
  = if decide (dat1 = dat2) then 0 else 1.
Proof.
  intros Ha Hb H1 H2.
  rewrite /filecmp._cmp /filecmp.cmp /os_path.join
    (stat_child n a es1 x Ha) (stat_child n b es2 x Hb) H1 H2 /=.
  destruct (decide (dat1 = dat2)) as [->|Hne].
  - by rewrite !bool_decide_eq_true_2.
  - destruct (bool_decide (length dat1 = length dat2)); [|done].
    by rewrite /= bool_decide_eq_false_2.
Qed.

(** What [dircmp] finds for two directories without left-out names. *)
Lemma dircmp_run n (a b : path) es1 es2 :
  fs.stat n a = Ok (Dir es1) → fs.stat n b = Ok (Dir es2) →
  clean (Dir es1) = true → clean (Dir es2) = true →
  ∃ c,
    filecmp.dircmp n a b None None false = Ok c
    ∧ (∀ x, x ∈ filecmp.left_only c ↔ x ∈ fs.names es1 ∧ x ∉ fs.names es2)
    ∧ (∀ x, x ∈ filecmp.right_only c ↔ x ∈ fs.names es2 ∧ x ∉ fs.names es1)
    ∧ (∀ x, x ∈ filecmp.diff_files c ↔
            ∃ dat1 st1 dat2 st2,
              fs.lookup_entry x es1 = Some (File dat1 st1)
              ∧ fs.lookup_entry x es2 = Some (File dat2 st2)
              ∧ dat1 ≠ dat2)
    ∧ filecmp.funny_files c = []
    ∧ (∀ x, x ∈ filecmp.common_dirs c ↔
            ∃ e1 e2, fs.lookup_entry x es1 = Some (Dir e1)
                     ∧ fs.lookup_entry x es2 = Some (Dir e2)).
Proof.
  intros Ha Hb Hc1 Hc2.
  rewrite /filecmp.dircmp /filecmp.listdir Ha Hb /= !filter_clean //.
  eexists. split; [done|]. simpl.
  assert (∀ x, x ∈ List.filter (λ x, bool_decide (x ∈ fs.names es2)) (fs.names es1)
               ↔ is_Some (fs.lookup_entry x es1) ∧ is_Some (fs.lookup_entry x es2))
    as Hcommon.
  { intros x. by rewrite elem_of_List_filter bool_decide_eq_true !lookup_entry_is_Some. }
  split; [|split; [|split; [|split]]].
  - intros x. by rewrite elem_of_List_filter negb_true_iff bool_decide_eq_false.
  - intros x. by rewrite elem_of_List_filter negb_true_iff bool_decide_eq_false.
  - intros x. rewrite elem_of_List_filter elem_of_List_filter Hcommon.
    rewrite !bool_decide_eq_true (classify_child _ _ _ es1 es2) //. split.
    + intros [[[_ _] Hk] Hcmp].
      destruct (fs.lookup_entry x es1) as [[dat1 st1|]|] eqn:H1; try done;
        destruct (fs.lookup_entry x es2) as [[dat2 st2|]|] eqn:H2; try done.
      rewrite (cmp_child _ _ _ es1 es2 _ dat1 dat2 st1 st2) // in Hcmp.
      exists dat1, st1, dat2, st2. by case_decide.
    + intros (dat1 & st1 & dat2 & st2 & H1 & H2 & Hne).
      rewrite (cmp_child _ _ _ es1 es2 _ dat1 dat2 st1 st2) // H1 H2.
      rewrite decide_False //.
  - apply List_filter_nil. intros x.
    rewrite elem_of_List_filter Hcommon bool_decide_eq_true.
    rewrite (classify_child _ _ _ es1 es2) //. intros [_ Hk].
    apply bool_decide_eq_false.
    destruct (fs.lookup_entry x es1) as [[dat1 st1|]|] eqn:H1; try done;
      destruct (fs.lookup_entry x es2) as [[dat2 st2|]|] eqn:H2; try done.
    rewrite (cmp_child _ _ _ es1 es2 _ dat1 dat2 st1 st2) //.
    by case_decide.
  - intros x. rewrite elem_of_List_filter Hcommon bool_decide_eq_true.
    rewrite (classify_child _ _ _ es1 es2) //. split.
    + intros [_ Hk].
      destruct (fs.lookup_entry x es1) as [[|e1]|]; try done;
        destruct (fs.lookup_entry x es2) as [[|e2]|]; try done. eauto.
    + intros (e1 & e2 & -> & ->). eauto.
Qed.

(** The loop over the common sub-directories answers true exactly when
    every recursive call does. *)
Lemma common_dirs_loop (fuel : nat) n (dir1 dir2 : path) (ds : list string)
    (Q : string → Prop) :
  (∀ x, x ∈ ds →
     ∃ r, are_directories_equal fuel n (os_path.join dir1 [x])
            (os_path.join dir2 [x]) = Ok r
          ∧ (r = true ↔ Q x)) →
  ∃ r, (fix loop (dirs : list string) : outcome bool :=
          match dirs with
          | [] => Ok true
          | common_dir :: dirs' =>
              let new_dir1 := os_path.join dir1 [common_dir] in
              let new_dir2 := os_path.join dir2 [common_dir] in
              eq ← are_directories_equal fuel n new_dir1 new_dir2;
              if negb eq then Ok false else loop dirs'
          end) ds = Ok r
       ∧ (r = true ↔ ∀ x, x ∈ ds → Q x).
Proof.
  induction ds as [|y ds IH]; intros Hcalls.
  { exists true. split; [done|]. split; [|done]. intros _ x Hx.
    by apply elem_of_nil in Hx. }
  destruct (Hcalls y) as (r & Hr & HQ); [left|].
  simpl. unfold os_path.join in *. rewrite Hr /=.
  destruct r; simpl.
  - destruct IH as (r' & Hr' & HQ'). { intros x Hx. apply Hcalls. by right. }
    exists r'. split; [done|]. rewrite HQ'. split.
    + intros H x [->|Hx]%elem_of_cons; [by apply HQ|by apply H].
    + intros H x Hx. apply H. by right.
  - exists false. split; [done|]. split; [done|].
    intros H. apply HQ, H. left.
Qed.

End dirs_equal.

Lemma are_directories_equal_unfold (fuel : nat) (n : node) (dir1 dir2 : path) :
  are_directories_equal (S fuel) n dir1 dir2
  = (comparison ← filecmp.dircmp n dir1 dir2 None None false;
     if truthy (filecmp.left_only comparison)
        || truthy (filecmp.right_only comparison)
        || truthy (filecmp.diff_files comparison)
        || truthy (filecmp.funny_files comparison)
     then Ok false
     else
       (fix loop (dirs : list string) : outcome bool :=
          match dirs with
          | [] => Ok true
          | common_dir :: dirs' =>
              let new_dir1 := os_path.join dir1 [common_dir] in
              let new_dir2 := os_path.join dir2 [common_dir] in
              eq ← are_directories_equal fuel n new_dir1 new_dir2;
              if negb eq then Ok false else loop dirs'
          end) (filecmp.common_dirs comparison)).
Proof. reflexivity. Qed.

(** ** Pruned trees *)

Lemma prune_dir (es : list (string * node)) :
  prune (Dir es) = Dir (pruned_entries es).
Proof. reflexivity. Qed.

Lemma pruned_cons (x : string) (c : node) (es : list (string * node)) :
  pruned_entries ((x, c) :: es)
  = if bool_decide (x ∈ skipped_names) then pruned_entries es
    else (x, prune c) :: pruned_entries es.
Proof. rewrite /pruned_entries /=. by case_bool_decide. Qed.

Lemma names_pruned (es : list (string * node)) :
  fs.names (pruned_entries es)
  = filecmp._filter (fs.names es)
      ([os_path.curdir; os_path.pardir] ++ filecmp.DEFAULT_IGNORES).
Proof.
  change ([os_path.curdir; os_path.pardir] ++ filecmp.DEFAULT_IGNORES)
    with skipped_names.
  unfold fs.names, filecmp._filter.
  induction es as [|[x c] es IH]; [done|].
  rewrite pruned_cons fmap_cons. cbn [List.filter fst].
  case_bool_decide; cbn [negb]; [done|]. by rewrite fmap_cons IH.
Qed.

Lemma lookup_pruned (x : string) (es : list (string * node)) :
  fs.lookup_entry x (pruned_entries es)
  = if bool_decide (x ∈ skipped_names) then None
    else prune <$> fs.lookup_entry x es.
Proof.
  induction es as [|[y c] es IH].
  { simpl. by case_bool_decide. }
  rewrite pruned_cons /=.
  destruct (decide (x = y)) as [->|Hne].
  - case_bool_decide; [done|]. by rewrite /= decide_True.
  - destruct (bool_decide (y ∈ skipped_names)); [done|].
    by rewrite /= decide_False.
Qed.

Lemma pruned_elem (x : string) (c : node) (es : list (string * node)) :
  (x, c) ∈ pruned_entries es
  ↔ (x ∉ skipped_names) ∧ ∃ c0, (x, c0) ∈ es ∧ c = prune c0.
Proof.
  rewrite /pruned_entries list_elem_of_omap. split.
  - intros ([y c0] & Hin & Hy). simpl in Hy. case_bool_decide; [done|].
    injection Hy as <- <-. eauto.
  - intros (Hx & c0 & Hin & ->). exists (x, c0). split; [done|].
    by rewrite /= bool_decide_eq_false_2.
Qed.

Lemma clean_prune (n : node) : clean (prune n) = true.
Proof.
  induction n as [data st|es _ IH] using node_rect'; [done|].
  rewrite prune_dir. apply clean_dir.
  intros x c (Hx & c0 & Hin & ->)%pruned_elem. split; [done|].
  apply list_elem_of_lookup in Hin as [i Hi]. by apply (IH i x).
Qed.

Lemma prune_clean (n : node) : clean n = true → prune n = n.
Proof.
  induction n as [data st|es _ IH] using node_rect'; [done|].
  intros Hc. rewrite prune_dir. f_equal.
  pose proof (proj1 (clean_dir es) Hc) as Hes. clear Hc.
  induction es as [|[x c] es IHes]; [done|].
  destruct (Hes x c) as [Hx Hc]; [left|].
  rewrite pruned_cons bool_decide_eq_false_2 // (IH 0 x c) // IHes //.
  - intros i y d Hi. by apply (IH (S i) y d).
  - intros y d Hin. apply Hes. by right.
Qed.

Lemma prune_idemp (n : node) : prune (prune n) = prune n.
Proof. apply prune_clean, clean_prune. Qed.

(** What [dircmp] finds depends on the pruned listings only. *)
Lemma dircmp_pruned (n n' : node) (a b a' b' : path)
    (es1 es2 es1' es2' : list (string * node)) :
  fs.stat n a = Ok (Dir es1) → fs.stat n b = Ok (Dir es2) →
  fs.stat n' a' = Ok (Dir es1') → fs.stat n' b' = Ok (Dir es2') →
  pruned_entries es1 = pruned_entries es1' →
  pruned_entries es2 = pruned_entries es2' →
  ∃ c c',
    filecmp.dircmp n a b None None false = Ok c
    ∧ filecmp.dircmp n' a' b' None None false = Ok c'
    ∧ filecmp.left_only c = filecmp.left_only c'
    ∧ filecmp.right_only c = filecmp.right_only c'
    ∧ filecmp.diff_files c = filecmp.diff_files c'
    ∧ filecmp.funny_files c = filecmp.funny_files c'
    ∧ filecmp.common_dirs c = filecmp.common_dirs c'
    ∧ ∀ x, x ∈ filecmp.common_dirs c →
        ∃ e1 e2 e1' e2',
          fs.lookup_entry x es1 = Some (Dir e1)
          ∧ fs.lookup_entry x es2 = Some (Dir e2)
          ∧ fs.lookup_entry x es1' = Some (Dir e1')
          ∧ fs.lookup_entry x es2' = Some (Dir e2')
          ∧ pruned_entries e1 = pruned_entries e1'
          ∧ pruned_entries e2 = pruned_entries e2'.
Proof.
  intros Ha Hb Ha' Hb' H1 H2.
  rewrite /filecmp.dircmp /filecmp.listdir Ha Hb Ha' Hb' /=.
  rewrite -!names_pruned -H1 -H2.
  set (left_list := fs.names (pruned_entries es1)).
  set (right_list := fs.names (pruned_entries es2)).
  set (common := List.filter (λ x, bool_decide (x ∈ right_list)) left_list).
  assert (Hview : ∀ x, x ∈ common →
            prune <$> fs.lookup_entry x es1 = prune <$> fs.lookup_entry x es1'
            ∧ prune <$> fs.lookup_entry x es2 = prune <$> fs.lookup_entry x es2').
  { intros x [Hx _]%elem_of_List_filter.
    apply list_elem_of_fmap in Hx as ([y c] & -> & [Hy _]%pruned_elem).
    pose proof (lookup_pruned y es1) as L1. pose proof (lookup_pruned y es1') as L1'.
    pose proof (lookup_pruned y es2) as L2. pose proof (lookup_pruned y es2') as L2'.
    rewrite bool_decide_eq_false_2 // in L1. rewrite bool_decide_eq_false_2 // in L1'.
    rewrite bool_decide_eq_false_2 // in L2. rewrite bool_decide_eq_false_2 // in L2'.
    cbn [fst]. by rewrite -L1 -L1' -L2 -L2' H1 H2. }
  assert (Hkind : ∀ x, x ∈ common →
            filecmp.classify n a b x = filecmp.classify n' a' b' x).
  { intros x [V1 V2]%Hview.
    rewrite (classify_child n a b es1 es2) // (classify_child n' a' b' es1' es2') //.
    destruct (fs.lookup_entry x es1) as [[]|], (fs.lookup_entry x es1') as [[]|];
      try done;
      destruct (fs.lookup_entry x es2) as [[]|], (fs.lookup_entry x es2') as [[]|];
      done. }
  assert (Hof : ∀ k,
            List.filter (λ x, bool_decide (filecmp.classify n a b x = k)) common
            = List.filter (λ x, bool_decide (filecmp.classify n' a' b' x = k)) common).
  { intros k. apply filter_ext_in. intros x Hx%list_elem_of_In.
    by rewrite Hkind. }
  rewrite -!Hof.
  set (common_files :=
         List.filter (λ x, bool_decide (filecmp.classify n a b x = filecmp.KFile))
           common).
  assert (Hcmp : ∀ k,
            List.filter
              (λ x, bool_decide (filecmp._cmp n (os_path.join a [x])
                                   (os_path.join b [x]) false = k)) common_files
            = List.filter
                (λ x, bool_decide (filecmp._cmp n' (os_path.join a' [x])
                                     (os_path.join b' [x]) false = k)) common_files).
  { intros k. apply filter_ext_in. intros x Hx%list_elem_of_In.
    apply elem_of_List_filter in Hx as [Hx Hk]. apply bool_decide_eq_true in Hk.
    destruct (Hview x Hx) as [V1 V2].
    rewrite (classify_child n a b es1 es2) // in Hk.
    destruct (fs.lookup_entry x es1) as [[d1 s1|]|] eqn:L1;
      destruct (fs.lookup_entry x es2) as [[d2 s2|]|] eqn:L2; try done.
    destruct (fs.lookup_entry x es1') as [[d1' s1'|]|] eqn:L1';
      simpl in V1; try done.
    destruct (fs.lookup_entry x es2') as [[d2' s2'|]|] eqn:L2';
      simpl in V2; try done.
    injection V1 as <- <-. injection V2 as <- <-.
    by rewrite (cmp_child n a b es1 es2 x d1 d2 s1 s2) //
         (cmp_child n' a' b' es1' es2' x d1 d2 s1 s2). }
  rewrite /filecmp.cmpfiles -!Hcmp.
  eexists _, _. split; [done|]. split; [done|]. simpl.
  repeat (split; [done|]).
  intros x [Hx Hk]%elem_of_List_filter. apply bool_decide_eq_true in Hk.
  destruct (Hview x Hx) as [V1 V2].
  rewrite (classify_child n a b es1 es2) // in Hk.
  destruct (fs.lookup_entry x es1) as [[|e1]|] eqn:L1;
    destruct (fs.lookup_entry x es2) as [[|e2]|] eqn:L2; try done.
  destruct (fs.lookup_entry x es1') as [[|e1']|] eqn:L1';
    simpl in V1; try done.
  destruct (fs.lookup_entry x es2') as [[|e2']|] eqn:L2';
    simpl in V2; try done.
  injection V1 as V1. injection V2 as V2.
  by exists e1, e2, e1', e2'.
Qed.

(** The answer of [are_directories_equal] depends on the pruned trees
    only. *)
Lemma are_directories_equal_pruned (fuel : nat) (n n' : node)
    (dir1 dir2 dir1' dir2' : path) (es1 es2 es1' es2' : list (string * node)) :
  fs.stat n dir1 = Ok (Dir es1) → fs.stat n dir2 = Ok (Dir es2) →
  fs.stat n' dir1' = Ok (Dir es1') → fs.stat n' dir2' = Ok (Dir es2') →
  pruned_entries es1 = pruned_entries es1' →
  pruned_entries es2 = pruned_entries es2' →
  are_directories_equal fuel n dir1 dir2
  = are_directories_equal fuel n' dir1' dir2'.
Proof.
  revert dir1 dir2 dir1' dir2' es1 es2 es1' es2'.
  induction fuel as [|fuel IH];
    intros dir1 dir2 dir1' dir2' es1 es2 es1' es2' Ha Hb Ha' Hb' H1 H2; [done|].
  destruct (dircmp_pruned n n' dir1 dir2 dir1' dir2' es1 es2 es1' es2')
    as (c & c' & Hc & Hc' & HLO & HRO & HDF & HFF & HCD & Hsub); [done..|].
  rewrite !are_directories_equal_unfold Hc Hc' /= -HLO -HRO -HDF -HFF -HCD.
  destruct (_ || _); [done|].
  remember (filecmp.common_dirs c) as ds eqn:Eds in |- *.
  assert (∀ x, x ∈ ds → x ∈ filecmp.common_dirs c) as Hds by (by rewrite Eds).
  clear Eds. induction ds as [|x ds IHds]; [done|].
  destruct (Hsub x) as (e1 & e2 & e1' & e2' & L1 & L2 & L1' & L2' & P1 & P2).
  { apply Hds. left. }
  rewrite (IH (os_path.join dir1 [x]) (os_path.join dir2 [x])
              (os_path.join dir1' [x]) (os_path.join dir2' [x]) e1 e2 e1' e2') //.
  - destruct (are_directories_equal fuel n' _ _) as [[]|]; simpl; [|done..].
    apply IHds. intros y Hy. apply Hds. by right.
  - by rewrite /os_path.join (stat_child n dir1 es1 x Ha) L1.
  - by rewrite /os_path.join (stat_child n dir2 es2 x Hb) L2.
  - by rewrite /os_path.join (stat_child n' dir1' es1' x Ha') L1'.
  - by rewrite /os_path.join (stat_child n' dir2' es2' x Hb') L2'.
Qed.

(** Two directories without left-out names: equal trees are found equal,
    and trees found equal are equal unless a name is a file on one side
    and a directory on the other. *)
Lemma are_directories_equal_clean (fuel : nat) (n : node) (dir1 dir2 : path)
    (es1 es2 : list (string * node)) :
  fs.stat n dir1 = Ok (Dir es1) → fs.stat n dir2 = Ok (Dir es2) →
  fs.depth (Dir es1) ≤ fuel →
  clean (Dir es1) = true → clean (Dir es2) = true →
  ∃ r, are_directories_equal fuel n dir1 dir2 = Ok r
       ∧ (eq_tree (Dir es1) (Dir es2) → r = true)
       ∧ (type_clash_free (Dir es1) (Dir es2) = true →
          r = true → eq_tree (Dir es1) (Dir es2)).
Proof.
  revert dir1 dir2 es1 es2.
  induction fuel as [|fuel IH]; intros dir1 dir2 es1 es2 H1 H2 Hdepth Hc1 Hc2.
  { simpl in Hdepth. lia. }
  destruct (dircmp_run n dir1 dir2 es1 es2 H1 H2 Hc1 Hc2)
    as (c & Hc & HLO & HRO & HDF & HFF & HCD).
  rewrite are_directories_equal_unfold Hc /= HFF /= orb_false_r.
  setoid_rewrite eq_tree_dir.
  destruct (filecmp.left_only c) as [|x LO] eqn:ELO; simpl.
  2:{ exists false. split; [done|]. split; [|done]. intros Heq. specialize (Heq x).
      assert (x ∈ fs.names es1 ∧ x ∉ fs.names es2) as [Hx1 Hx2] by (apply HLO; left).
      apply lookup_entry_is_Some in Hx1 as [c1 Hx1].
      apply lookup_entry_None in Hx2. by rewrite Hx1 Hx2 in Heq. }
  destruct (filecmp.right_only c) as [|x RO] eqn:ERO; simpl.
  2:{ exists false. split; [done|]. split; [|done]. intros Heq. specialize (Heq x).
      assert (x ∈ fs.names es2 ∧ x ∉ fs.names es1) as [Hx2 Hx1] by (apply HRO; left).
      apply lookup_entry_is_Some in Hx2 as [c2 Hx2].
      apply lookup_entry_None in Hx1. by rewrite Hx1 Hx2 in Heq. }
  destruct (filecmp.diff_files c) as [|x DF] eqn:EDF; simpl.
  2:{ exists false. split; [done|]. split; [|done]. intros Heq. specialize (Heq x).
      destruct (proj1 (HDF x)) as (dat1 & st1 & dat2 & st2 & Hx1 & Hx2 & Hne); [left|].
      rewrite Hx1 Hx2 eq_tree_file in Heq. done. }
  assert (HA : ∀ x, x ∈ fs.names es1 → x ∈ fs.names es2).
  { intros x Hx. destruct (decide (x ∈ fs.names es2)) as [|Hn]; [done|].
    assert (x ∈ []) as Hnil by (apply HLO; done). by apply elem_of_nil in Hnil. }
  assert (HB : ∀ x, x ∈ fs.names es2 → x ∈ fs.names es1).
  { intros x Hx. destruct (decide (x ∈ fs.names es1)) as [|Hn]; [done|].
    assert (x ∈ []) as Hnil by (apply HRO; done). by apply elem_of_nil in Hnil. }
  assert (HC : ∀ x dat1 st1 dat2 st2,
             fs.lookup_entry x es1 = Some (File dat1 st1) →
             fs.lookup_entry x es2 = Some (File dat2 st2) → dat1 = dat2).
  { intros x dat1 st1 dat2 st2 Hx1 Hx2.
    destruct (decide (dat1 = dat2)) as [|Hne]; [done|].
    assert (x ∈ []) as Hnil by (apply HDF; eauto 10). by apply elem_of_nil in Hnil. }
  assert (Hsub : ∀ x e1 e2,
            fs.lookup_entry x es1 = Some (Dir e1) →
            fs.lookup_entry x es2 = Some (Dir e2) →
            ∃ r, are_directories_equal fuel n (os_path.join dir1 [x])
                   (os_path.join dir2 [x]) = Ok r
                 ∧ (eq_tree (Dir e1) (Dir e2) → r = true)
                 ∧ (type_clash_free (Dir e1) (Dir e2) = true →
                    r = true → eq_tree (Dir e1) (Dir e2))).
  { intros x e1 e2 Hx1 Hx2.
    pose proof (lookup_entry_Some _ _ _ Hx1) as Hin1.
    pose proof (lookup_entry_Some _ _ _ Hx2) as Hin2.
    apply IH.
    - by rewrite /os_path.join (stat_child n dir1 es1 x H1) Hx1.
    - by rewrite /os_path.join (stat_child n dir2 es2 x H2) Hx2.
    - apply depth_child in Hin1. lia.
    - by apply (proj1 (clean_dir es1) Hc1 x).
    - by apply (proj1 (clean_dir es2) Hc2 x). }
  destruct (common_dirs_loop fuel n dir1 dir2 (filecmp.common_dirs c)
              (λ x, are_directories_equal fuel n (os_path.join dir1 [x])
                      (os_path.join dir2 [x]) = Ok true)) as (r & Hr & Hiff).
  { intros x (e1 & e2 & Hx1 & Hx2)%HCD.
    destruct (Hsub x e1 e2 Hx1 Hx2) as (rx & Hrx & _).
    exists rx. split; [done|]. rewrite Hrx. split; [by intros ->|by intros [= ->]]. }
  exists r. split; [done|]. rewrite Hiff. split.
  - intros Heq x (e1 & e2 & Hx1 & Hx2)%HCD.
    destruct (Hsub x e1 e2 Hx1 Hx2) as (rx & Hrx & Hfwd & _).
    rewrite Hrx. f_equal. apply Hfwd. specialize (Heq x).
    by rewrite Hx1 Hx2 in Heq.
  - intros Hclash Hdirs x.
    destruct (fs.lookup_entry x es1) as [c1|] eqn:Hx1,
             (fs.lookup_entry x es2) as [c2|] eqn:Hx2.
    + pose proof (proj1 (clash_dir es1 es2) Hclash x c1 c2
                    (lookup_entry_Some _ _ _ Hx1) Hx2) as Hk.
      destruct c1 as [dat1 st1|e1], c2 as [dat2 st2|e2]; try done.
      * apply eq_tree_file. by eapply HC.
      * destruct (Hsub x e1 e2 Hx1 Hx2) as (rx & Hrx & _ & Hbwd).
        apply Hbwd; [done|].
        assert (x ∈ filecmp.common_dirs c) as Hx by (apply HCD; eauto).
        apply Hdirs in Hx. rewrite Hrx in Hx. by injection Hx.
    + assert (x ∈ fs.names es2) as Hx by (apply HA, lookup_entry_is_Some; eauto).
      apply lookup_entry_is_Some in Hx as [? Hx]. congruence.
    + assert (x ∈ fs.names es1) as Hx by (apply HB, lookup_entry_is_Some; eauto).
      apply lookup_entry_is_Some in Hx as [? Hx]. congruence.
    + done.
Qed.

Lemma eq_tree_sym (d1 d2 : node) : eq_tree d1 d2 → eq_tree d2 d1.
Proof.
  intros [Hp Hb]. split.
  - intros rel. by rewrite Hp.
  - intros rel x1 st1 x2 st2 Hs1 Hs2. symmetry. by eapply Hb.
Qed.

Lemma eq_tree_file_dir (data : list byte) (st : file_stat)
    (es : list (string * node)) :
  eq_tree (File data st) (Dir es) ↔ ∀ x, fs.lookup_entry x es = None.
Proof.
  split.
  - intros [Hp _] x. specialize (Hp [x]). unfold fs.exists_ in Hp. simpl in Hp.
    by destruct (fs.lookup_entry x es).
  - intros H. split.
    + intros [|x rel]; [done|]. unfold fs.exists_. simpl. by rewrite H.
    + by intros [|x rel] ?????.
Qed.

(** Equal trees stay equal when pruned. *)
Lemma eq_tree_prune (d1 d2 : node) :
  eq_tree d1 d2 → eq_tree (prune d1) (prune d2).
Proof.
  revert d2. induction d1 as [dat1 st1|es1 IH _] using node_rect'; intros d2.
  - destruct d2 as [dat2 st2|es2]; [done|].
    rewrite prune_dir !eq_tree_file_dir. intros H x.
    rewrite lookup_pruned H. by case_bool_decide.
  - destruct d2 as [dat2 st2|es2].
    + intros H%eq_tree_sym. apply eq_tree_sym. revert H.
      rewrite prune_dir !eq_tree_file_dir. intros H x.
      rewrite lookup_pruned H. by case_bool_decide.
    + rewrite !prune_dir !eq_tree_dir. intros H x. rewrite !lookup_pruned.
      case_bool_decide; [done|]. specialize (H x).
      destruct (fs.lookup_entry x es1) as [c1|] eqn:Hx1,
               (fs.lookup_entry x es2) as [c2|]; simpl; try done.
      by apply (IH x c1).
Qed.

(** C6, as the code has it.  [are_directories_equal] answers, within the
    recursion limit, for every two directories, and its answer depends
    only on the two trees pruned of the entries, at any level, that bear a
    name [dircmp] leaves out by default ([.], [..], [RCS], [CVS], [tags],
    [.git], [.hg], [.bzr], [_darcs], [__pycache__]): these entries are not
    compared at all.  The answer is true whenever the two trees, or just
    the pruned trees, have the same relative paths and every two regular
    files at the same relative path hold the same bytes; and when no name
    is a file on one side and a directory on the other in the pruned
    trees, it is true only if the pruned trees are equal in that way. *)
Theorem are_directories_equal_pruned_trees (depth_limit : nat) (n : node)
    (dir1 dir2 : path) (es1 es2 : list (string * node)) :
  fs.stat n dir1 = Ok (Dir es1) → fs.stat n dir2 = Ok (Dir es2) →
  fs.depth (prune (Dir es1)) ≤ depth_limit →
  ∃ r, are_directories_equal depth_limit n dir1 dir2 = Ok r
       ∧ (same_relative_paths (Dir es1) (Dir es2)
          ∧ same_file_bytes (Dir es1) (Dir es2) →
          r = true)
       ∧ (same_relative_paths (prune (Dir es1)) (prune (Dir es2))
          ∧ same_file_bytes (prune (Dir es1)) (prune (Dir es2)) →
          r = true)
       ∧ (type_clash_free (prune (Dir es1)) (prune (Dir es2)) = true →
          r = true →
          same_relative_paths (prune (Dir es1)) (prune (Dir es2))
          ∧ same_file_bytes (prune (Dir es1)) (prune (Dir es2)))
       ∧ (∀ n' dir1' dir2' es1' es2',
            fs.stat n' dir1' = Ok (Dir es1') →
            fs.stat n' dir2' = Ok (Dir es2') →
            prune (Dir es1') = prune (Dir es1) →
            prune (Dir es2') = prune (Dir es2) →
            are_directories_equal depth_limit n' dir1' dir2' = Ok r).
Proof.
  intros H1 H2 Hdepth.
  set (n0 := Dir [("a", prune (Dir es1)); ("b", prune (Dir es2))]).
  destruct (are_directories_equal_clean depth_limit n0 ["a"] ["b"]
              (pruned_entries es1) (pruned_entries es2))
    as (r & Hr & Hfwd & Hbwd);
    [done|done|done|apply (clean_prune (Dir es1))|apply (clean_prune (Dir es2))|].
  assert (∀ n' dir1' dir2' es1' es2',
            fs.stat n' dir1' = Ok (Dir es1') →
            fs.stat n' dir2' = Ok (Dir es2') →
            prune (Dir es1') = prune (Dir es1) →
            prune (Dir es2') = prune (Dir es2) →
            are_directories_equal depth_limit n' dir1' dir2' = Ok r) as Hdep.
  { intros n' dir1' dir2' es1' es2' H1' H2' P1 P2. rewrite -Hr.
    apply (are_directories_equal_pruned depth_limit n' n0 dir1' dir2' ["a"] ["b"]
             es1' es2' (pruned_entries es1) (pruned_entries es2)); try done.
    - change (pruned_entries (pruned_entries es1))
        with (match prune (prune (Dir es1)) with Dir e => e | File _ _ => [] end).
      rewrite prune_idemp -P1 //.
    - change (pruned_entries (pruned_entries es2))
        with (match prune (prune (Dir es2)) with Dir e => e | File _ _ => [] end).
      rewrite prune_idemp -P2 //. }
  exists r. split; [by apply (Hdep n dir1 dir2 es1 es2)|].
  split; [|split; [exact Hfwd|split; [exact Hbwd|exact Hdep]]].
  intros Heq. apply Hfwd. by apply (eq_tree_prune (Dir es1) (Dir es2)).
Qed.

Lemma are_directories_equal_pruned_trees_witness :
  ∃ r, are_directories_equal 3 demo.ignored ["a"] ["b"] = Ok r
       ∧ (same_relative_paths
            (Dir [(".git", Dir []); ("x.txt", File (toy.bytes "v1") toy.st0)])
            (Dir [("x.txt", File (toy.bytes "v1") toy.st1)])
          ∧ same_file_bytes
              (Dir [(".git", Dir []); ("x.txt", File (toy.bytes "v1") toy.st0)])
              (Dir [("x.txt", File (toy.bytes "v1") toy.st1)]) →
          r = true)
       ∧ (same_relative_paths
            (prune (Dir [(".git", Dir []);
                         ("x.txt", File (toy.bytes "v1") toy.st0)]))
            (prune (Dir [("x.txt", File (toy.bytes "v1") toy.st1)]))
          ∧ same_file_bytes
              (prune (Dir [(".git", Dir []);
                           ("x.txt", File (toy.bytes "v1") toy.st0)]))
              (prune (Dir [("x.txt", File (toy.bytes "v1") toy.st1)])) →
          r = true)
       ∧ (type_clash_free
            (prune (Dir [(".git", Dir []);
                         ("x.txt", File (toy.bytes "v1") toy.st0)]))
            (prune (Dir [("x.txt", File (toy.bytes "v1") toy.st1)])) = true →
          r = true →
          same_relative_paths
            (prune (Dir [(".git", Dir []);
                         ("x.txt", File (toy.bytes "v1") toy.st0)]))
            (prune (Dir [("x.txt", File (toy.bytes "v1") toy.st1)]))
          ∧ same_file_bytes
              (prune (Dir [(".git", Dir []);
                           ("x.txt", File (toy.bytes "v1") toy.st0)]))
              (prune (Dir [("x.txt", File (toy.bytes "v1") toy.st1)])))
       ∧ (∀ n' dir1' dir2' es1' es2',
            fs.stat n' dir1' = Ok (Dir es1') →
            fs.stat n' dir2' = Ok (Dir es2') →
            prune (Dir es1')
            = prune (Dir [(".git", Dir []);
                          ("x.txt", File (toy.bytes "v1") toy.st0)]) →
            prune (Dir es2')
            = prune (Dir [("x.txt", File (toy.bytes "v1") toy.st1)]) →
            are_directories_equal 3 n' dir1' dir2' = Ok r).
Proof.
  apply (are_directories_equal_pruned_trees 3 demo.ignored ["a"] ["b"]);
    first [reflexivity | vm_compute; lia].
Defined.

(** C6 as stated fails: [a] holds a [.git] directory that [b] lacks, so
    the relative paths of the two trees differ, and
    [are_directories_equal] still answers true, because [ignore=None]
    makes [dircmp] leave out the names of [DEFAULT_IGNORES]. *)
Lemma are_directories_equal_ignores_names :
  fs.stat demo.ignored ["a"]
  = Ok (Dir [(".git", Dir []); ("x.txt", File (toy.bytes "v1") toy.st0)])
  ∧ fs.stat demo.ignored ["b"]
    = Ok (Dir [("x.txt", File (toy.bytes "v1") toy.st1)])
  ∧ are_directories_equal 3 demo.ignored ["a"] ["b"] = Ok true
  ∧ ¬ same_relative_paths
        (Dir [(".git", Dir []); ("x.txt", File (toy.bytes "v1") toy.st0)])
        (Dir [("x.txt", File (toy.bytes "v1") toy.st1)]).
Proof.
  split; [done|]. split; [done|]. split; [by vm_compute|].
  intros H. specialize (H [".git"]). by vm_compute in H.
Qed.

(** The other way [are_directories_equal] departs from equality of trees:
    a name that is a file on one side and a directory on the other lands
    in [common_funny], which the function does not look at. *)
Example are_directories_equal_type_clash :
  are_directories_equal 3 demo.clash ["s"] ["t"] = Ok true
  ∧ fs.exists_ demo.clash ["t"; "x.txt"; "y.txt"] = true
  ∧ fs.exists_ demo.clash ["s"; "x.txt"; "y.txt"] = false.
Proof. by vm_compute. Qed.

Example are_directories_equal_recursion_limit :
  are_directories_equal 1 demo.twins ["a"] ["b"] = Raise RecursionError.
Proof. by vm_compute. Qed.

Example get_name_values :
  get_name COPY = "Copy" ∧ get_name MODIFY = "Modify"
  ∧ get_name NO_ACTION = "No Action".
Proof. by vm_compute. Qed.

(** ** What a successful copy leaves *)

Lemma lookup_set_entry (x : string) (c : node) (es : list (string * node)) :
  fs.lookup_entry x (fs.set_entry x c es) = Some c.
Proof.
  induction es as [|[y d] es IH]; simpl.
  - by rewrite decide_True.
  - destruct (decide (x = y)) as [->|Hne]; simpl.
    + by rewrite decide_True.
    + by rewrite decide_False.
Qed.

Lemma write_stat (p : path) (n n' : node) (data : list byte) (st : file_stat) :
  fs.write n p data st = Ok n' → fs.stat n' p = Ok (File data st).
Proof.
  revert n n'. induction p as [|x p IH]; intros n n'; simpl.
  - destruct n; [|done]. by intros [= <-].
  - destruct n as [|es]; [done|].
    destruct (fs.lookup_entry x es) as [c|] eqn:Hx.
    + destruct (fs.write c p data st) as [c'|] eqn:Hw; [|done].
      simpl. intros [= <-]. simpl. rewrite lookup_set_entry. by apply (IH c).
    + destruct p; [|done]. intros [= <-]. simpl. by rewrite lookup_set_entry.
Qed.

Lemma write_ok (parent : path) (x : string) (n : node)
    (es : list (string * node)) (data : list byte) (st : file_stat) :
  fs.stat n parent = Ok (Dir es) →
  (∀ e, fs.lookup_entry x es ≠ Some (Dir e)) →
  ∃ n', fs.write n (parent ++ [x]) data st = Ok n'.
Proof.
  revert n. induction parent as [|y parent IH]; intros n; simpl.
  - intros [= ->] Hx. destruct (fs.lookup_entry x es) as [[|e]|] eqn:Hl; simpl; eauto.
    by destruct (Hx e).
  - destruct n as [|es']; [done|].
    destruct (fs.lookup_entry y es') as [c|]; [|done].
    intros Hc Hx. destruct (IH c Hc Hx) as [c' ->]. simpl. eauto.
Qed.

(** When the source is a regular file, the parent of the target is an
    existing directory and the target is absent or a regular file other
    than the source, [copy2] returns and leaves at the target the bytes and
    the metadata (mode bits, modification time) of the source. *)
Lemma copy2_copies (src parent : path) (x : string) (w : world)
    (data : list byte) (st : file_stat) (es : list (string * node)) :
  fs.stat (w_fs w) src = Ok (File data st) →
  fs.stat (w_fs w) parent = Ok (Dir es) →
  (∀ e, fs.lookup_entry x es ≠ Some (Dir e)) →
  src ≠ parent ++ [x] →
  ∃ w', shutil.copy2 src (parent ++ [x]) w = (Ok (parent ++ [x]), w')
        ∧ fs.stat (w_fs w') (parent ++ [x]) = Ok (File data st).
Proof.
  intros Hsrc Hparent Hx Hne. rewrite copy2_run /=.
  assert (fs.isdir (w_fs w) (parent ++ [x]) = false) as ->.
  { rewrite /fs.isdir (stat_child _ _ es) //.
    destruct (fs.lookup_entry x es) as [[|e]|] eqn:Hl; try done. by destruct (Hx e). }
  rewrite bool_decide_eq_false_2 //= Hsrc.
  destruct (write_ok parent x (w_fs w) es data st Hparent Hx) as [n' Hw].
  rewrite Hw. eexists. split; [done|]. by apply write_stat in Hw.
Qed.


(** * Further properties *)

(** ** What the walk discovers *)

Lemma walk_subdirs_intro (top : path) (es : list (string * node)) (x : string)
    (c : node) t :
  (x, c) ∈ es → fs.is_dir_node c = true →
  t ∈ fs.walk_node (top ++ [x]) c →
  t ∈ (fix subdirs (es : list (string * node)) :=
         match es with
         | [] => []
         | (x, c) :: es' =>
             (if fs.is_dir_node c then fs.walk_node (os_path.join top [x]) c
              else [])
             ++ subdirs es'
         end) es.
Proof.
  intros Hin Hdir Ht. induction es as [|[y d] es IH].
  - by apply elem_of_nil in Hin.
  - apply elem_of_app. apply elem_of_cons in Hin as [[= <- <-]|Hin].
    + left. by rewrite Hdir.
    + right. by apply IH.
Qed.

Lemma stat_dir_node (c : node) (rel : path) (es : list (string * node)) :
  fs.stat c rel = Ok (Dir es) → fs.is_dir_node c = true.
Proof.
  destruct rel as [|x rel]; simpl.
  - by intros [= ->].
  - by destruct c.
Qed.

(** Every directory below the top has its triple in the walk. *)
Lemma walk_node_complete (rel top : path) (c : node) (es : list (string * node)) :
  fs.stat c rel = Ok (Dir es) →
  (top ++ rel, fs.dirnames es, fs.filenames es) ∈ fs.walk_node top c.
Proof.
  revert top c. induction rel as [|x rel IH]; intros top c; simpl.
  - intros [= ->]. rewrite app_nil_r /=. left.
  - destruct c as [|es0]; [done|].
    destruct (fs.lookup_entry x es0) as [c'|] eqn:Hx; [|done].
    intros Hrel. simpl. right.
    apply (walk_subdirs_intro top es0 x c').
    + by apply lookup_entry_Some.
    + by eapply stat_dir_node.
    + replace (top ++ x :: rel) with ((top ++ [x]) ++ rel) by by rewrite -app_assoc.
      by apply IH.
Qed.

Lemma stat_snoc_inv (n : node) (p : path) (x : string) (d : node) :
  fs.stat n (p ++ [x]) = Ok d →
  ∃ es, fs.stat n p = Ok (Dir es) ∧ fs.lookup_entry x es = Some d.
Proof.
  rewrite stat_app. destruct (fs.stat n p) as [[|es]|]; simpl; try done.
  destruct (fs.lookup_entry x es) as [c|] eqn:Hx; [|done].
  intros [= ->]. eauto.
Qed.

Lemma filenames_intro (x : string) (data : list byte) (st : file_stat)
    (es : list (string * node)) :
  fs.lookup_entry x es = Some (File data st) → x ∈ fs.filenames es.
Proof.
  intros Hx%lookup_entry_Some.
  apply (list_elem_of_fmap_2' fst _ (x, File data st)); [|done].
  by apply elem_of_List_filter.
Qed.

(** Every regular file strictly below the top is discovered. *)
Lemma walked_files_complete (n : node) (top rel : path) (data : list byte)
    (st : file_stat) :
  rel ≠ [] → fs.stat n (top ++ rel) = Ok (File data st) →
  top ++ rel ∈ walked_files n top.
Proof.
  intros Hrel Hst. destruct rel as [|x rel _] using rev_ind; [done|].
  rewrite app_assoc in Hst. apply stat_snoc_inv in Hst as (es & Hdir & Hx).
  rewrite /walked_files /fs.walk list_elem_of_bind.
  exists (top ++ rel, fs.dirnames es, fs.filenames es). split.
  - rewrite app_assoc.
    apply (list_elem_of_fmap_2 (λ file, os_path.join (top ++ rel) [file])).
    by eapply filenames_intro.
  - rewrite stat_app in Hdir. destruct (fs.stat n top) as [c|]; [|done].
    by apply walk_node_complete.
Qed.

Lemma walk_node_prefix (c : node) (top : path) root dirs files :
  (root, dirs, files) ∈ fs.walk_node top c → ∃ rel, root = top ++ rel.
Proof.
  revert top. induction c as [data st|es _ IH] using node_rect'; intros top; simpl.
  { intros Hin. by apply elem_of_nil in Hin. }
  intros [[= -> _ _]|Hin]%elem_of_cons.
  { exists []. by rewrite app_nil_r. }
  apply walk_subdirs_elem in Hin as (x & c & Hxc & Ht).
  apply list_elem_of_lookup in Hxc as [i Hi].
  destruct (IH i x c Hi _ Ht) as [rel ->].
  exists (x :: rel). by rewrite -app_assoc.
Qed.

Lemma files_of_walk_elem (walked : list (path * list string * list string)) p :
  p ∈ files_of_walk walked
  ↔ ∃ root dirs files f,
      (root, dirs, files) ∈ walked ∧ f ∈ files ∧ p = root ++ [f].
Proof.
  rewrite /files_of_walk list_elem_of_bind. split.
  - intros ([[root dirs] files] & (f & -> & Hf)%list_elem_of_fmap & Ht).
    by exists root, dirs, files, f.
  - intros (root & dirs & files & f & Ht & Hf & ->).
    exists (root, dirs, files). split; [|done].
    by apply (list_elem_of_fmap_2 (λ file, os_path.join root [file])).
Qed.

Lemma files_of_walk_app (l1 l2 : list (path * list string * list string)) :
  files_of_walk (l1 ++ l2) = files_of_walk l1 ++ files_of_walk l2.
Proof. apply bind_app. Qed.

Lemma files_of_walk_cons (root : path) (dirs files : list string)
    (l : list (path * list string * list string)) :
  files_of_walk ((root, dirs, files) :: l)
  = ((λ file, root ++ [file]) <$> files) ++ files_of_walk l.
Proof. reflexivity. Qed.

Lemma List_filter_sublist {A : Type} (f : A → bool) (l : list A) :
  List.filter f l `sublist_of` l.
Proof.
  induction l as [|a l IH]; simpl; [done|].
  destruct (f a); by constructor.
Qed.

Lemma filenames_NoDup (es : list (string * node)) :
  NoDup (fs.names es) → NoDup (fs.filenames es).
Proof.
  intros Hnd. apply (sublist_NoDup _ _ Hnd).
  apply fmap_sublist, List_filter_sublist.
Qed.

Lemma walk_node_Dir (top : path) (es : list (string * node)) :
  fs.walk_node top (Dir es)
  = (top, fs.dirnames es, fs.filenames es)
    :: (fix subdirs (es : list (string * node)) :=
          match es with
          | [] => []
          | (x, c) :: es' =>
              (if fs.is_dir_node c then fs.walk_node (os_path.join top [x]) c
               else [])
              ++ subdirs es'
          end) es.
Proof. reflexivity. Qed.

(** Below a top, the walk of a tree without duplicate names meets no file
    twice. *)
Lemma walk_node_NoDup (c : node) (top : path) :
  fs.wf c = true → NoDup (files_of_walk (fs.walk_node top c)).
Proof.
  revert top. induction c as [data st|es _ IH] using node_rect'; intros top Hwf.
  { constructor. }
  pose proof (proj1 (wf_dir es) Hwf) as [Hnd Hall].
  rewrite walk_node_Dir files_of_walk_cons.
  apply NoDup_app. split; [|split].
  - assert (Inj (=) (=) (λ file : string, top ++ [file])) as Hinj.
    { intros f g Hfg. apply app_inv_head in Hfg. by injection Hfg. }
    apply (NoDup_fmap_2 _). by apply filenames_NoDup.
  - intros p (f & -> & Hf)%list_elem_of_fmap
             (root' & dirs' & files' & g & Ht2 & Hg & Heq)%files_of_walk_elem.
    apply walk_subdirs_elem in Ht2 as (x & c & _ & Ht2).
    apply walk_node_prefix in Ht2 as [rel ->].
    rewrite -!app_assoc in Heq. apply app_inv_head in Heq.
    simpl in Heq. injection Heq as _ Heq. by destruct rel.
  - assert (Hch : ∀ i x c, es !! i = Some (x, c) →
                           NoDup (files_of_walk (fs.walk_node (top ++ [x]) c))).
    { intros i x c Hi. apply (IH i x c Hi). apply (Hall x).
      by eapply list_elem_of_lookup_2. }
    clear IH Hall Hwf. induction es as [|[x c] es IHes]; [constructor|].
    apply NoDup_cons in Hnd as [Hx Hnd].
    rewrite files_of_walk_app. apply NoDup_app. split; [|split].
    + destruct (fs.is_dir_node c); [|constructor]. apply (Hch 0 x c eq_refl).
    + intros p Hp1 (root' & dirs' & files' & g & Ht2 & Hg & ->)%files_of_walk_elem.
      destruct (fs.is_dir_node c); [|by apply elem_of_nil in Hp1].
      apply files_of_walk_elem in Hp1 as (root & dirs & files & f & Ht1 & Hf & Heq).
      apply walk_node_prefix in Ht1 as [rel ->].
      apply walk_subdirs_elem in Ht2 as (y & d & Hyd & Ht2).
      apply walk_node_prefix in Ht2 as [rel' ->].
      rewrite -!app_assoc in Heq. apply app_inv_head in Heq.
      simpl in Heq. injection Heq as Hxy _. subst y.
      apply Hx. by apply (list_elem_of_fmap_2 fst) in Hyd.
    + apply IHes; [done|]. intros i y d Hi. by apply (Hch (S i)).
Qed.

Lemma walked_files_NoDup (n : node) (top : path) :
  fs.wf n = true → NoDup (walked_files n top).
Proof.
  intros Hwf. change (NoDup (files_of_walk (fs.walk n top))). unfold fs.walk.
  destruct (fs.stat n top) as [c|] eqn:Hst; [|constructor].
  apply walk_node_NoDup. by eapply stat_wf.
Qed.

(** ** More on the comparison engine *)

(** X1: [compare_directories] yields a result for every regular file
    strictly below the source root, for nothing else (a directory never
    gets a result), and for no file twice. *)
Theorem compare_directories_covers_regular_files {algorithm : HashAlgorithm}
    (source_dir target_dir : path) (w : world) :
  fs.wf (w_fs w) = true →
  ∃ results w',
    compare_directories source_dir target_dir w = (Ok results, w')
    ∧ NoDup (source_path <$> results)
    ∧ ∀ p, p ∈ source_path <$> results
           ↔ ∃ rel data st,
               rel ≠ [] ∧ p = source_dir ++ rel
               ∧ fs.stat (w_fs w) p = Ok (File data st).
Proof.
  intros Hwf.
  destruct (compare_directories_run source_dir target_dir w Hwf) as (w' & Hrun & _).
  eexists _, w'. split; [exact Hrun|].
  assert (source_path <$> (result_for (w_fs w) source_dir target_dir
                             <$> walked_files (w_fs w) source_dir)
          = walked_files (w_fs w) source_dir) as ->.
  { rewrite -list_fmap_compose -{2}(list_fmap_id (walked_files _ _)).
    by apply list_fmap_ext. }
  split; [by apply walked_files_NoDup|]. intros p. split.
  - by apply walked_files_elem.
  - intros (rel & data & st & Hrel & -> & Hst). by eapply walked_files_complete.
Qed.

Lemma compare_directories_covers_regular_files_witness :
  ∃ results w',
    compare_directories (algorithm := toy.identity_hash) ["s"] ["t"]
      (World demo.nested []) = (Ok results, w')
    ∧ NoDup (source_path <$> results)
    ∧ ∀ p, p ∈ source_path <$> results
           ↔ ∃ rel data st,
               rel ≠ [] ∧ p = ["s"] ++ rel
               ∧ fs.stat demo.nested p = Ok (File data st).
Proof.
  apply (compare_directories_covers_regular_files (algorithm := toy.identity_hash)
           ["s"] ["t"] (World demo.nested [])).
  reflexivity.
Defined.

(** X2: the target path of a result is the source path with the source
    root replaced by the target root, and no two results share a target
    path. *)
Theorem compare_directories_target_paths {algorithm : HashAlgorithm}
    (source_dir target_dir : path) (w : world) :
  fs.wf (w_fs w) = true →
  ∃ results w',
    compare_directories source_dir target_dir w = (Ok results, w')
    ∧ (∀ r, r ∈ results →
         ∃ rel, rel ≠ [] ∧ source_path r = source_dir ++ rel
                ∧ target_path r = target_dir ++ rel)
    ∧ NoDup (target_path <$> results).
Proof.
  intros Hwf.
  destruct (compare_directories_run source_dir target_dir w Hwf) as (w' & Hrun & _).
  eexists _, w'. split; [exact Hrun|].
  assert (Hrel : ∀ sp, sp ∈ walked_files (w_fs w) source_dir →
            ∃ rel, rel ≠ [] ∧ sp = source_dir ++ rel
                   ∧ target_path (result_for (w_fs w) source_dir target_dir sp)
                     = target_dir ++ rel).
  { intros sp (rel & data & st & Hrel & -> & _)%walked_files_elem; [|done].
    exists rel. by rewrite /result_for /= relpath_below_start. }
  split.
  - intros r (sp & -> & Hsp)%list_elem_of_fmap.
    destruct (Hrel sp Hsp) as (rel & ? & ? & ?). by exists rel.
  - rewrite -list_fmap_compose.
    apply NoDup_fmap_2_strong; [|by apply walked_files_NoDup].
    intros sp1 sp2 H1 H2 Heq. unfold compose in Heq.
    destruct (Hrel sp1 H1) as (rel1 & _ & -> & Ht1).
    destruct (Hrel sp2 H2) as (rel2 & _ & -> & Ht2).
    rewrite Ht1 Ht2 in Heq. by apply app_inv_head in Heq as ->.
Qed.

Lemma compare_directories_target_paths_witness :
  ∃ results w',
    compare_directories (algorithm := toy.identity_hash) ["s"] ["t"]
      (World demo.nested []) = (Ok results, w')
    ∧ (∀ r, r ∈ results →
         ∃ rel, rel ≠ [] ∧ source_path r = ["s"] ++ rel
                ∧ target_path r = ["t"] ++ rel)
    ∧ NoDup (target_path <$> results).
Proof.
  apply (compare_directories_target_paths (algorithm := toy.identity_hash)
           ["s"] ["t"] (World demo.nested [])).
  reflexivity.
Defined.

(** X3: a source root that is missing, or is not a directory, is no
    error: [compare_directories] returns the empty list and does
    nothing. *)
Theorem compare_directories_source_not_directory {algorithm : HashAlgorithm}
    (source_dir target_dir : path) (w : world) :
  fs.isdir (w_fs w) source_dir = false →
  compare_directories source_dir target_dir w = (Ok [], w).
Proof.
  intros Hdir. unfold compare_directories, os.walk, query. rewrite bind_run /=.
  unfold fs.walk, fs.isdir in *.
  by destruct (fs.stat (w_fs w) source_dir) as [[|es]|].
Qed.

Lemma compare_directories_source_not_directory_witness :
  compare_directories (algorithm := toy.identity_hash) ["s"; "a.txt"] ["t"]
    (World demo.flat []) = (Ok [], World demo.flat [])
  ∧ compare_directories (algorithm := toy.identity_hash) ["nowhere"] ["t"]
      (World demo.flat []) = (Ok [], World demo.flat []).
Proof.
  split.
  - apply (compare_directories_source_not_directory (algorithm := toy.identity_hash)
             ["s"; "a.txt"] ["t"] (World demo.flat [])). reflexivity.
  - apply (compare_directories_source_not_directory (algorithm := toy.identity_hash)
             ["nowhere"] ["t"] (World demo.flat [])). reflexivity.
Defined.

Lemma reads_of_app (l1 l2 : list Result) :
  reads_of (l1 ++ l2) = reads_of l1 ++ reads_of l2.
Proof. apply bind_app. Qed.

Lemma reads_of_result_for {algorithm : HashAlgorithm} (n : node)
    (source_dir target_dir sp : path) :
  reads_of [result_for n source_dir target_dir sp]
  = if fs.isfile n (os_path.join target_dir (os_path.relpath sp source_dir))
    then [sp; os_path.join target_dir (os_path.relpath sp source_dir)]
    else [].
Proof.
  rewrite /reads_of /result_for /=.
  destruct (fs.isfile n _); [|done]. by case_decide.
Qed.

Lemma reads_of_cons (r : Result) (l : list Result) :
  reads_of (r :: l) = reads_of [r] ++ reads_of l.
Proof. apply (reads_of_app [r] l). Qed.

#[local] Opaque reads_of result_for.

Lemma inner_loop_trace {algorithm : HashAlgorithm}
    (source_dir target_dir root : path) (files : list string)
    (results : list Result) (w : world) :
  (∀ f, f ∈ files →
     ∃ data st, fs.stat (w_fs w) (os_path.join root [f]) = Ok (File data st)) →
  let new := result_for (w_fs w) source_dir target_dir
               ∘ (λ f, os_path.join root [f]) <$> files in
  for_in files (λ file results,
      r ← compare_file source_dir target_dir root file;
      mret (results ++ [r])) results w
  = (Ok (results ++ new),
     World (w_fs w) (w_trace w ++ (EvOpenRead <$> reads_of new))).
Proof.
  revert results w. induction files as [|f files IH]; intros results w Hfiles; simpl.
  { rewrite !app_nil_r. by destruct w. }
  destruct (Hfiles f) as (data & st & Hf); [left|].
  rewrite bind_run bind_run (compare_file_run _ _ _ _ _ data st) //=.
  set (r := result_for (w_fs w) source_dir target_dir (os_path.join root [f])).
  set (w1 := if fs.isfile _ _ then _ else _).
  assert (w1 = World (w_fs w) (w_trace w ++ (EvOpenRead <$> reads_of [r]))) as Hw1.
  { rewrite /w1 /r reads_of_result_for. destruct (fs.isfile _ _); [done|].
    rewrite /= app_nil_r. by destruct w. }
  rewrite Hw1 IH /=; [|intros g Hg; apply Hfiles; by right].
  by rewrite -!app_assoc /= (reads_of_cons r (_ <$> files)) fmap_app.
Qed.

(** One run of [compare_directories], trace included. *)
Lemma compare_directories_trace {algorithm : HashAlgorithm}
    (source_dir target_dir : path) (w : world) :
  fs.wf (w_fs w) = true →
  ∃ results,
    compare_directories source_dir target_dir w
    = (Ok results,
       World (w_fs w) (w_trace w ++ (EvOpenRead <$> reads_of results))).
Proof.
  intros Hwf. unfold compare_directories, os.walk, query. rewrite bind_run /=.
  assert (∀ t, t ∈ fs.walk (w_fs w) source_dir →
               ∀ f, f ∈ t.2 → os_path.join t.1.1 [f] ∈ walked_files (w_fs w) source_dir)
    as Hsub.
  { intros [[root dirs] files] Ht f Hf. apply files_of_walk_elem.
    by exists root, dirs, files, f. }
  enough (∀ (walked : list (path * list string * list string)) results tr,
            (∀ t, t ∈ walked → ∀ f, f ∈ t.2 →
               os_path.join t.1.1 [f] ∈ walked_files (w_fs w) source_dir) →
            ∃ new, for_in walked (λ '(root, dirs, files) results,
                     for_in files (λ file results,
                       r ← compare_file source_dir target_dir root file;
                       mret (results ++ [r])) results) results
                     (World (w_fs w) tr)
                   = (Ok (results ++ new),
                      World (w_fs w) (tr ++ (EvOpenRead <$> reads_of new))))
    as Hloop.
  { destruct (Hloop (fs.walk (w_fs w) source_dir) [] (w_trace w) Hsub) as [new Hnew].
    exists new. destruct w as [n tr]. exact Hnew. }
  clear Hsub.
  induction walked as [|[[root dirs] files] walked IH]; intros results tr Hsub; simpl.
  { exists []. by rewrite !app_nil_r. }
  rewrite bind_run inner_loop_trace /=.
  2:{ intros f Hf.
      destruct (walked_files_elem (w_fs w) source_dir (os_path.join root [f]))
        as (rel & data & st & _ & _ & Hst); [done| |by eauto].
      apply (Hsub (root, dirs, files)); [left|done]. }
  match goal with
  | |- context [for_in walked _ ?r (World _ ?t)] =>
      destruct (IH r t) as [new Hnew]; [intros t' Ht; apply Hsub; by right|]
  end.
  rewrite Hnew. eexists. rewrite -!app_assoc -fmap_app -reads_of_app. done.
Qed.

(** X4: [compare_directories] only reads.  It returns with the file system
    as it was, having printed nothing and copied nothing: all it did was
    open, in the order of the results, the source and then the target of
    every result that is not a Copy. *)
Theorem compare_directories_only_reads {algorithm : HashAlgorithm}
    (source_dir target_dir : path) (w : world) :
  fs.wf (w_fs w) = true →
  ∃ results,
    compare_directories source_dir target_dir w
    = (Ok results,
       World (w_fs w) (w_trace w ++ (EvOpenRead <$> reads_of results))).
Proof. apply compare_directories_trace. Qed.

#[local] Transparent reads_of result_for.

Lemma compare_directories_only_reads_witness :
  ∃ results,
    compare_directories (algorithm := toy.identity_hash) ["s"] ["t"]
      (World demo.flat [])
    = (Ok results, World demo.flat ([] ++ (EvOpenRead <$> reads_of results))).
Proof.
  apply (compare_directories_only_reads (algorithm := toy.identity_hash)
           ["s"] ["t"] (World demo.flat [])).
  reflexivity.
Defined.

(** ** The extension is that of the file name *)

Lemma rfind_sep_dir (dir name : string) :
  ¬ pystr.occurs os_path.sep name →
  (dir = "" ∨ ∃ d, dir = d +:+ "/") →
  (pystr.rfind (dir +:+ name) os_path.sep + 1 = pystr.len dir)%Z.
Proof.
  intros Hname [->|[d ->]].
  - by rewrite str_app_nil_l /pystr.rfind rfind_from_none.
  - rewrite str_app_assoc /pystr.rfind.
    change ("/" +:+ name) with (String os_path.sep name).
    rewrite rfind_from_last // len_app. by unfold pystr.len.
Qed.

Lemma splitext_dotless (dir name : string) :
  ¬ pystr.occurs os_path.sep name →
  (dir = "" ∨ ∃ d, dir = d +:+ "/") →
  ¬ pystr.occurs os_path.extsep name →
  os_path.splitext (dir +:+ name) = (dir +:+ name, "").
Proof.
  intros Hname Hdir Hdot. unfold os_path.splitext, os_path._splitext.
  pose proof (rfind_sep_dir dir name Hname Hdir) as Hsep.
  pose proof (len_nonneg dir) as Hdir0.
  assert (pystr.rfind (dir +:+ name) os_path.extsep
          = pystr.rfind_from os_path.extsep dir 0) as ->.
  { rewrite /pystr.rfind rfind_from_app // (rfind_from_none _ name) //. }
  assert ((pystr.rfind (dir +:+ name) os_path.sep
           <? pystr.rfind_from os_path.extsep dir 0)%Z = false) as ->; [|done].
  apply Z.ltb_ge. destruct (rfind_from_range os_path.extsep dir 0) as [->|?]; lia.
Qed.

Lemma splitext_dotted (dir pre suf : string) :
  ¬ pystr.occurs os_path.sep (pre +:+ String "."%char suf) →
  (dir = "" ∨ ∃ d, dir = d +:+ "/") →
  ¬ pystr.occurs "."%char suf →
  (only_dots pre
   ∧ os_path.splitext (dir +:+ pre +:+ String "."%char suf)
     = (dir +:+ pre +:+ String "."%char suf, ""))
  ∨ (¬ only_dots pre
     ∧ os_path.splitext (dir +:+ pre +:+ String "."%char suf)
       = (dir +:+ pre, String "."%char suf)).
Proof.
  intros Hname Hdir Hsuf. unfold os_path.splitext, os_path._splitext.
  pose proof (rfind_sep_dir dir _ Hname Hdir) as Hsep.
  pose proof (len_nonneg dir) as Hdir0. pose proof (len_nonneg pre) as Hpre0.
  assert (pystr.rfind (dir +:+ pre +:+ String "."%char suf) os_path.sep
          = (pystr.len dir - 1)%Z) as -> by lia.
  assert (pystr.rfind (dir +:+ pre +:+ String "."%char suf) os_path.extsep
          = pystr.len (dir +:+ pre)) as ->.
  { rewrite /pystr.rfind -str_app_assoc rfind_from_last //. }
  assert ((pystr.len dir - 1 <? pystr.len (dir +:+ pre))%Z = true) as ->.
  { apply Z.ltb_lt. rewrite len_app. lia. }
  replace (Z.to_nat (pystr.len (dir +:+ pre) - (pystr.len dir - 1 + 1)))
    with (String.length pre) by (rewrite len_app; unfold pystr.len; lia).
  replace (pystr.len dir - 1 + 1)%Z with (pystr.len dir) by lia.
  exact (skip_leading_dots_spec dir pre suf).
Qed.

(** The extension does not depend on what precedes the file name. *)
Lemma splitext_ext_name (dir1 dir2 name : string) :
  ¬ pystr.occurs os_path.sep name →
  (dir1 = "" ∨ ∃ d, dir1 = d +:+ "/") →
  (dir2 = "" ∨ ∃ d, dir2 = d +:+ "/") →
  (os_path.splitext (dir1 +:+ name)).2 = (os_path.splitext (dir2 +:+ name)).2.
Proof.
  intros Hname Hd1 Hd2.
  destruct (occurs_dec os_path.extsep name) as [Hdot|Hdot].
  - apply occurs_last in Hdot as (pre & suf & -> & Hsuf).
    unfold os_path.extsep in *.
    destruct (splitext_dotted dir1 pre suf Hname Hd1 Hsuf) as [[H1 ->]|[H1 ->]];
      destruct (splitext_dotted dir2 pre suf Hname Hd2 Hsuf) as [[H2 ->]|[H2 ->]];
      done.
  - by rewrite !splitext_dotless.
Qed.

Lemma join_snoc (q : list string) (x : string) :
  q ≠ [] → pystr.join "/" (q ++ [x]) = pystr.join "/" q +:+ "/" +:+ x.
Proof.
  induction q as [|y q IH]; [done|]. intros _. destruct q as [|z q]; [done|].
  change (pystr.join "/" ((y :: z :: q) ++ [x]))
    with (y +:+ "/" +:+ pystr.join "/" ((z :: q) ++ [x])).
  rewrite IH //.
  change (pystr.join "/" (y :: z :: q)) with (y +:+ "/" +:+ pystr.join "/" (z :: q)).
  by rewrite !str_app_assoc.
Qed.

Lemma path_str_snoc (q : path) (x : string) :
  ∃ d, os_path.path_str (q ++ [x]) = (d +:+ "/") +:+ x.
Proof.
  destruct q as [|y q].
  - by exists "".
  - exists ("/" +:+ pystr.join "/" (y :: q)).
    change (os_path.path_str ((y :: q) ++ [x]))
      with ("/" +:+ pystr.join "/" ((y :: q) ++ [x])).
    by rewrite join_snoc // !str_app_assoc.
Qed.

(** The extension is that of the last component. *)
Lemma splitext_last_component (q q' : path) (x : string) :
  (os_path.splitext (os_path.path_str (q ++ [x]))).2
  = (os_path.splitext (os_path.path_str (q' ++ [x]))).2.
Proof.
  destruct (path_str_snoc q x) as [d ->], (path_str_snoc q' x) as [d' ->].
  destruct (sep_split x) as (xdir & name & -> & Hname & Hxdir & _).
  rewrite -!(str_app_assoc _ xdir name).
  apply splitext_ext_name; [done|..].
  - right. destruct Hxdir as [->|[e ->]].
    + exists d. by rewrite str_app_nil_r.
    + exists ((d +:+ "/") +:+ e). by rewrite !str_app_assoc.
  - right. destruct Hxdir as [->|[e ->]].
    + exists d'. by rewrite str_app_nil_r.
    + exists ((d' +:+ "/") +:+ e). by rewrite !str_app_assoc.
Qed.

(** X5: the extension of a path is decided by its last component alone:
    two paths with the same last component have the same extension,
    whatever dots their directories bear. *)
Theorem extension_of_last_component (q q' : path) (x : string) :
  (os_path.splitext (os_path.path_str (q ++ [x]))).2
  = (os_path.splitext (os_path.path_str (q' ++ [x]))).2.
Proof.
  destruct (path_str_snoc q x) as [d ->], (path_str_snoc q' x) as [d' ->].
  destruct (sep_split x) as (xdir & name & -> & Hname & Hxdir & _).
  rewrite -!(str_app_assoc _ xdir name).
  apply splitext_ext_name; [done|..].
  - right. destruct Hxdir as [->|[e ->]].
    + exists d. by rewrite str_app_nil_r.
    + exists ((d +:+ "/") +:+ e). by rewrite !str_app_assoc.
  - right. destruct Hxdir as [->|[e ->]].
    + exists d'. by rewrite str_app_nil_r.
    + exists ((d' +:+ "/") +:+ e). by rewrite !str_app_assoc.
Qed.

(** X6: for a source file whose target path is a regular file, only the
    content decides between NoAction and Modify: NoAction exactly when the
    two files have the same size and the same digest, which is the case
    whenever they hold the same bytes; Modify exactly when size or digest
    differ.  Extension, mode bits and modification time play no part. *)
Theorem compare_directories_by_content {algorithm : HashAlgorithm}
    (source_dir target_dir : path) (w : world) :
  fs.wf (w_fs w) = true →
  ∃ results w',
    compare_directories source_dir target_dir w = (Ok results, w')
    ∧ ∀ r ds ss dt st,
        r ∈ results →
        fs.stat (w_fs w) (source_path r) = Ok (File ds ss) →
        fs.stat (w_fs w) (target_path r) = Ok (File dt st) →
        (action r = NO_ACTION
         ↔ length ds = length dt ∧ content_hash ds = content_hash dt)
        ∧ (action r = MODIFY
           ↔ length ds ≠ length dt ∨ content_hash ds ≠ content_hash dt)
        ∧ (ds = dt → action r = NO_ACTION).
Proof.
  intros Hwf.
  destruct (compare_directories_run source_dir target_dir w Hwf) as (w' & Hrun & _).
  eexists _, w'. split; [exact Hrun|].
  intros r ds ss dt st (sp & -> & Hsp)%list_elem_of_fmap.
  apply walked_files_elem in Hsp as (rel & data & st' & Hrel & -> & _); [|done].
  rewrite /result_for /= relpath_below_start // /fs.isfile /os_path.join.
  intros Hs Ht. rewrite Ht !fingerprint_in_run Hs Ht /fingerprint /=.
  destruct rel as [|x rel _] using rev_ind; [done|].
  rewrite !app_assoc
    (splitext_last_component (source_dir ++ rel) (target_dir ++ rel) x).
  assert (length ds = length dt ∧ content_hash ds = content_hash dt
          ∨ (length ds ≠ length dt ∨ content_hash ds ≠ content_hash dt)) as Hcases.
  { destruct (decide (length ds = length dt)); [|by auto].
    destruct (decide (content_hash ds = content_hash dt)); by auto. }
  case_decide as Heq.
  - injection Heq as Hlen Hhash. apply Nat2Z.inj in Hlen. intuition congruence.
  - assert (¬ (length ds = length dt ∧ content_hash ds = content_hash dt)) as Hne.
    { intros [Hl Hh]. apply Heq. by rewrite Hl Hh. }
    split; [|split]; [intuition congruence..|].
    intros ->. by destruct Hne.
Qed.

Lemma compare_directories_by_content_witness :
  ∃ results w',
    compare_directories (algorithm := toy.identity_hash) ["s"] ["t"]
      (World demo.flat []) = (Ok results, w')
    ∧ ∀ r ds ss dt st,
        r ∈ results →
        fs.stat demo.flat (source_path r) = Ok (File ds ss) →
        fs.stat demo.flat (target_path r) = Ok (File dt st) →
        (action r = NO_ACTION
         ↔ length ds = length dt ∧ content_hash ds = content_hash dt)
        ∧ (action r = MODIFY
           ↔ length ds ≠ length dt ∨ content_hash ds ≠ content_hash dt)
        ∧ (ds = dt → action r = NO_ACTION).
Proof.
  apply (compare_directories_by_content (algorithm := toy.identity_hash)
           ["s"] ["t"] (World demo.flat [])).
  reflexivity.
Defined.

(** ** More on the fingerprint *)

(** X7: on a path that is not a regular file [get_file_metadata] raises
    what the operating system raised ([IsADirectoryError] for a
    directory), returns no fingerprint, and leaves the world as it was,
    trace included. *)
Theorem get_file_metadata_raises {algorithm : HashAlgorithm} (p : path) (w : world) :
  fs.isfile (w_fs w) p = false →
  ∃ e, get_file_metadata p w = (Raise e, w)
       ∧ (fs.isdir (w_fs w) p = true → e = IsADirectoryError)
       ∧ (∀ e', fs.stat (w_fs w) p = Raise e' → e = e').
Proof.
  rewrite get_file_metadata_run /fs.isfile /fs.isdir.
  destruct (fs.stat (w_fs w) p) as [[|es]|e]; [done|..]; intros _.
  - exists IsADirectoryError. split; [done|]. split; [done|]. by intros e'.
  - exists e. split; [done|]. split; [done|]. by intros e' [= ->].
Qed.

Lemma get_file_metadata_raises_witness :
  ∃ e, get_file_metadata (algorithm := toy.identity_hash) ["t"; "x.txt"]
         (World demo.clash []) = (Raise e, World demo.clash [])
       ∧ (fs.isdir demo.clash ["t"; "x.txt"] = true → e = IsADirectoryError)
       ∧ (∀ e', fs.stat demo.clash ["t"; "x.txt"] = Raise e' → e = e').
Proof.
  apply (get_file_metadata_raises (algorithm := toy.identity_hash)
           ["t"; "x.txt"] (World demo.clash [])).
  reflexivity.
Defined.

(** X8: with a hash that streams, the block size does not matter: for
    every positive block size [get_file_hash] returns the digest of the
    whole content. *)
Theorem get_file_hash_any_block_size {algorithm : HashAlgorithm}
    (p : path) (block_size : nat) (w : world) (data : list byte) (st : file_stat) :
  HashStreaming algorithm →
  0 < block_size →
  fs.stat (w_fs w) p = Ok (File data st) →
  (get_file_hash p block_size w).1
  = Ok (hash_hexdigest (hash_update hash_new data)).
Proof.
  intros Hstream Hbs Hst. rewrite get_file_hash_run Hst. cbn [fst].
  destruct (read_chunks_blocks (S (length data)) block_size data 0 hash_new)
    as (chunks & Hcat & _ & _ & ->); [lia..|].
  by rewrite foldl_hash_update Hcat drop_0.
Qed.

Lemma get_file_hash_any_block_size_witness :
  (get_file_hash (algorithm := toy.identity_hash) ["s"; "c.txt"] 2
     (World demo.flat [])).1
  = Ok (hash_hexdigest (hash_update hash_new (toy.bytes "three"))).
Proof.
  apply (get_file_hash_any_block_size (algorithm := toy.identity_hash)
           ["s"; "c.txt"] 2 (World demo.flat []) (toy.bytes "three") toy.st0).
  - exact toy.identity_hash_streaming.
  - lia.
  - reflexivity.
Defined.

(** X9: with [block_size=0] the first [read] returns [b""], the loop ends
    at once, and [get_file_hash] returns the digest of no input at all,
    whatever the file holds. *)
Theorem get_file_hash_block_size_zero {algorithm : HashAlgorithm}
    (p : path) (w : world) (data : list byte) (st : file_stat) :
  fs.stat (w_fs w) p = Ok (File data st) →
  (get_file_hash p 0 w).1 = Ok (hash_hexdigest hash_new).
Proof. intros Hst. by rewrite get_file_hash_run Hst. Qed.

Lemma get_file_hash_block_size_zero_witness :
  (get_file_hash (algorithm := toy.identity_hash) ["s"; "c.txt"] 0
     (World demo.flat [])).1
  = Ok (hash_hexdigest hash_new).
Proof.
  apply (get_file_hash_block_size_zero (algorithm := toy.identity_hash)
           ["s"; "c.txt"] (World demo.flat []) (toy.bytes "three") toy.st0).
  reflexivity.
Defined.

(** ** More on grouping and on the apply step *)

Lemma group_by_fold_lookup {A K : Type} `{Countable K} (things : list A)
    (f : A → K) (k : K) (g : gmap K (list A)) :
  foldl (λ grouped thing,
           <[f thing := default [] (grouped !! f thing) ++ [thing]]> grouped)
        g things !! k
  = match filter (λ t, f t = k) things with
    | [] => g !! k
    | l => Some (default [] (g !! k) ++ l)
    end.
Proof.
  revert g. induction things as [|a things IH]; intros g; simpl; [done|].
  rewrite IH. destruct (decide (f a = k)) as [Heq|Hne].
  - rewrite filter_cons_True // Heq lookup_insert_eq /=.
    destruct (filter _ things); [done|]. by rewrite -app_assoc.
  - by rewrite filter_cons_False // lookup_insert_ne.
Qed.

(** X10: [group_by] returns the dictionary whose keys are exactly the keys
    that occur among the things, each bound to the things of that key in
    their input order; no key is bound to an empty list. *)
Theorem group_by_lookup {A K : Type} `{Countable K} (things : list A)
    (f : A → K) (k : K) :
  (group_by things f !! k = None ↔ ∀ t, t ∈ things → f t ≠ k)
  ∧ (∀ g, group_by things f !! k = Some g →
          g = filter (λ t, f t = k) things ∧ g ≠ []).
Proof.
  rewrite /group_by group_by_fold_lookup lookup_empty /=.
  destruct (filter (λ t, f t = k) things) as [|a l] eqn:Hf.
  - split; [|done]. split; [|done]. intros _ t Ht Hk.
    assert (t ∈ filter (λ t, f t = k) things) as Hin by by apply list_elem_of_filter.
    rewrite Hf in Hin. by apply elem_of_nil in Hin.
  - split.
    + split; [done|]. intros Hall. exfalso.
      assert (a ∈ filter (λ t, f t = k) things) as Hin by (rewrite Hf; left).
      apply list_elem_of_filter in Hin as [Hk Hin]. by apply (Hall a).
    + by intros g [= <-].
Qed.

(** X11: [group_by] loses nothing and duplicates nothing: the groups, put
    together, are a rearrangement of the things. *)
Theorem group_by_partition {A K : Type} `{Countable K} (things : list A)
    (f : A → K) :
  grouped_things (group_by things f) ≡ₚ things.
Proof.
  unfold group_by, grouped_things.
  induction things as [|t things IH] using rev_ind.
  { by rewrite /= map_to_list_empty. }
  rewrite foldl_snoc.
  set (m := foldl _ ∅ things) in *. set (k := f t).
  destruct (m !! k) as [g|] eqn:Hk; simpl.
  - rewrite -insert_delete_eq map_to_list_insert; [|apply lookup_delete_eq].
    rewrite -IH -(map_to_list_delete m k g) //= -!app_assoc.
    apply Permutation_app_head, Permutation_app_comm.
  - rewrite map_to_list_insert //= -IH. apply Permutation_cons_append.
Qed.

Lemma plan_permutation (o : set_order) (results : list (path * path * Action)) :
  plan o results ≡ₚ filter (λ e, e.2 ≠ NO_ACTION) results.
Proof.
  rewrite plan_order. induction results as [|e results IH].
  { by destruct o. }
  rewrite /of_kind !filter_cons in IH |- *.
  destruct o, (e.2) eqn:He; simpl in *;
    repeat (case_decide; try done); simpl;
    rewrite -?Permutation_middle; by rewrite IH.
Qed.

Lemma results_permutation (o : set_order) (results : list (path * path * Action)) :
  of_kind NO_ACTION results ++ plan o results ≡ₚ results.
Proof.
  rewrite plan_permutation /of_kind. apply filter_app_complement.
Qed.

(** X12: [do_action] never passes a NoAction entry to [copy2], and passes
    no Copy or Modify entry twice: the calls it makes are, in order, a
    beginning of its plan, which is a rearrangement of the Copy and Modify
    entries.  A dry run makes no call; a committing run that returns
    normally makes the call of every Copy and Modify entry. *)
Theorem do_action_copy2_calls (o : set_order)
    (results : list (path * path * Action)) (dry_run : bool) (w : world) :
  ∃ attempted,
    copied (w_trace (do_action o results dry_run w).2)
    = copied (w_trace w) ++ (src_dst <$> attempted)
    ∧ attempted `prefix_of` plan o results
    ∧ plan o results ≡ₚ filter (λ e, e.2 ≠ NO_ACTION) results
    ∧ (dry_run = true → attempted = [])
    ∧ (dry_run = false → (do_action o results dry_run w).1 = Ok () →
       attempted = plan o results).
Proof.
  destruct (do_action_run o results dry_run w) as [done Hrun].
  destruct (do_action o results dry_run w) as [[[]|ex] w']; simpl.
  - destruct Hrun as (_ & -> & Hc). destruct dry_run.
    + exists []. rewrite Hc. repeat split; try done.
      * apply prefix_nil.
      * apply plan_permutation.
    + exists (plan o results). rewrite Hc. repeat split; try done.
      apply plan_permutation.
  - destruct Hrun as (_ & -> & x & rest & w1 & Hpl & Hc & _).
    exists (done ++ [x]). rewrite Hc. repeat split; try done.
    + rewrite Hpl. exists rest. by rewrite -app_assoc.
    + apply plan_permutation.
Qed.

(** X13: a [do_action] that returns normally, as every dry run does, has
    reported every entry exactly once: the lines it printed are a
    rearrangement of the lines of the entries. *)
Theorem do_action_reports_every_entry (o : set_order)
    (results : list (path * path * Action)) (dry_run : bool) (w : world) :
  (do_action o results dry_run w).1 = Ok () →
  ∃ lines,
    printed (w_trace (do_action o results dry_run w).2)
    = printed (w_trace w) ++ lines
    ∧ lines ≡ₚ report_line dry_run <$> results.
Proof.
  intros Hok. destruct (do_action_run o results dry_run w) as [done Hrun].
  destruct (do_action o results dry_run w) as [[[]|ex] w']; [|done].
  destruct Hrun as (Hp & -> & _). simpl. eexists. split; [exact Hp|].
  rewrite -(report_line_skipped dry_run)
    -(report_line_mutating dry_run _ (plan_mutating o results)) -fmap_app.
  by rewrite results_permutation.
Qed.

Lemma do_action_reports_every_entry_witness :
  ∃ lines,
    printed (w_trace (do_action ModifyFirst demo.flat_results true
                        (World demo.flat [])).2)
    = printed [] ++ lines
    ∧ lines ≡ₚ report_line true <$> demo.flat_results.
Proof.
  apply (do_action_reports_every_entry ModifyFirst demo.flat_results true
           (World demo.flat [])).
  reflexivity.
Defined.

(** ** More on directory equality *)

(** X14: [are_directories_equal] answers only for two existing
    directories.  When either path is missing or is not a directory it
    raises the error of the listing ([FileNotFoundError],
    [NotADirectoryError]) instead of answering false. *)
Theorem are_directories_equal_needs_directories (depth_limit : nat) (n : node)
    (dir1 dir2 : path) :
  fs.isdir n dir1 = false ∨ fs.isdir n dir2 = false →
  ∃ e, are_directories_equal (S depth_limit) n dir1 dir2 = Raise e
       ∧ (e = FileNotFoundError ∨ e = NotADirectoryError).
Proof.
  rewrite are_directories_equal_unfold /filecmp.dircmp /filecmp.listdir /fs.isdir.
  assert (∀ p e, fs.stat n p = Raise e →
                 e = FileNotFoundError ∨ e = NotADirectoryError) as Herr.
  { intros p. revert n. induction p as [|x p IH]; intros m e; simpl; [done|].
    destruct m as [|es]; [intros [= <-]; by right|].
    destruct (fs.lookup_entry x es); [by apply IH|]. intros [= <-]. by left. }
  destruct (fs.stat n dir1) as [[|es1]|e1] eqn:H1; simpl.
  - intros _. exists NotADirectoryError. split; [done|by right].
  - destruct (fs.stat n dir2) as [[|es2]|e2] eqn:H2; simpl.
    + intros _. exists NotADirectoryError. split; [done|by right].
    + by intros [|].
    + intros _. exists e2. split; [done|]. by eapply Herr.
  - intros _. exists e1. split; [done|]. by eapply Herr.
Qed.

Lemma are_directories_equal_needs_directories_witness :
  ∃ e, are_directories_equal 3 demo.flat ["s"] ["nowhere"] = Raise e
       ∧ (e = FileNotFoundError ∨ e = NotADirectoryError).
Proof.
  apply (are_directories_equal_needs_directories 2 demo.flat ["s"] ["nowhere"]).
  right. reflexivity.
Defined.

Lemma dircmp_same (n : node) (d : path) (es : list (string * node)) :
  fs.stat n d = Ok (Dir es) →
  ∃ c, filecmp.dircmp n d d None None false = Ok c
       ∧ filecmp.left_only c = [] ∧ filecmp.right_only c = []
       ∧ filecmp.diff_files c = [] ∧ filecmp.funny_files c = []
       ∧ ∀ x, x ∈ filecmp.common_dirs c →
              ∃ e, fs.lookup_entry x es = Some (Dir e).
Proof.
  intros Hd. rewrite /filecmp.dircmp /filecmp.listdir Hd /=.
  eexists. split; [done|]. simpl.
  assert (∀ (l : list string),
            List.filter (λ x, negb (bool_decide (x ∈ l))) l = []) as Hnone.
  { intros l. apply List_filter_nil. intros x Hx.
    by rewrite bool_decide_eq_true_2. }
  split; [apply Hnone|]. split; [apply Hnone|].
  split; [|split].
  - apply List_filter_nil. intros x [Hx Hk]%elem_of_List_filter.
    apply bool_decide_eq_true in Hk.
    rewrite (classify_child n d d es es x Hd Hd) in Hk.
    destruct (fs.lookup_entry x es) as [[dat st|]|] eqn:Hl; try done.
    rewrite (cmp_child n d d es es x dat dat st st) // decide_True //.
  - apply List_filter_nil. intros x [Hx Hk]%elem_of_List_filter.
    apply bool_decide_eq_true in Hk.
    rewrite (classify_child n d d es es x Hd Hd) in Hk.
    destruct (fs.lookup_entry x es) as [[dat st|]|] eqn:Hl; try done.
    rewrite (cmp_child n d d es es x dat dat st st) // decide_True //.
  - intros x [Hx Hk]%elem_of_List_filter. apply bool_decide_eq_true in Hk.
    rewrite (classify_child n d d es es x Hd Hd) in Hk.
    destruct (fs.lookup_entry x es) as [[|e]|]; try done. by exists e.
Qed.

(** X15: a directory equals itself: within the recursion limit,
    [are_directories_equal(d, d)] is true for every existing directory,
    whatever names it holds. *)
Theorem are_directories_equal_reflexive (depth_limit : nat) (n : node)
    (d : path) (es : list (string * node)) :
  fs.stat n d = Ok (Dir es) →
  fs.depth (Dir es) ≤ depth_limit →
  are_directories_equal depth_limit n d d = Ok true.
Proof.
  revert d es. induction depth_limit as [|fuel IH]; intros d es Hd Hdepth.
  { simpl in Hdepth. lia. }
  destruct (dircmp_same n d es Hd) as (c & Hc & HLO & HRO & HDF & HFF & Hdirs).
  rewrite are_directories_equal_unfold Hc /= HLO HRO HDF HFF /=.
  destruct (common_dirs_loop fuel n d d (filecmp.common_dirs c) (λ _, True))
    as (r & Hr & HrQ).
  - intros x [e Hx]%Hdirs. exists true. split; [|done].
    apply (IH _ e).
    + by rewrite /os_path.join (stat_child n d es x Hd) Hx.
    + apply lookup_entry_Some, depth_child in Hx. lia.
  - assert (r = true) as -> by by apply HrQ. exact Hr.
Qed.

Lemma are_directories_equal_reflexive_witness :
  are_directories_equal 3 demo.ignored ["a"] ["a"] = Ok true.
Proof.
  apply (are_directories_equal_reflexive 3 demo.ignored ["a"]
           [(".git", Dir []); ("x.txt", File (toy.bytes "v1") toy.st0)]).
  - reflexivity.
  - vm_compute. lia.
Defined.

(** ** [to_bool] *)

Lemma isspace_lower_char (a : ascii) : py.isspace (py.lower_char a) = py.isspace a.
Proof. by destruct a as [[] [] [] [] [] [] [] []]. Qed.

Lemma lower_char_idemp (a : ascii) :
  py.lower_char (py.lower_char a) = py.lower_char a.
Proof. by destruct a as [[] [] [] [] [] [] [] []]. Qed.

Lemma lower_idemp (s : string) : py.lower (py.lower s) = py.lower s.
Proof.
  unfold py.lower. induction s as [|a s IH]; [done|].
  cbn [pystr.map]. by rewrite lower_char_idemp IH.
Qed.

Lemma lstrip_lower (s : string) : py.lstrip (py.lower s) = py.lower (py.lstrip s).
Proof.
  unfold py.lower. induction s as [|a s IH]; [done|].
  cbn [pystr.map py.lstrip]. rewrite isspace_lower_char.
  by destruct (py.isspace a).
Qed.

Lemma rstrip_lower (s : string) : py.rstrip (py.lower s) = py.lower (py.rstrip s).
Proof.
  unfold py.lower. induction s as [|a s IH]; [done|].
  cbn [pystr.map py.rstrip]. rewrite IH isspace_lower_char.
  destruct (py.rstrip s); cbn [pystr.map]; [|done]. by destruct (py.isspace a).
Qed.

Lemma strip_lower (s : string) : py.strip (py.lower s) = py.lower (py.strip s).
Proof. by rewrite /py.strip lstrip_lower rstrip_lower. Qed.

Lemma all_space_cons (a : ascii) (s : string) :
  all_space (String a s) ↔ py.isspace a = true ∧ all_space s.
Proof.
  unfold all_space. simpl. split.
  - intros H. split; [apply H; by left|]. intros c Hc. apply H. by right.
  - intros [Ha H] c [<-|Hc]; [done|by apply H].
Qed.

Lemma lstrip_space_app (p s : string) :
  all_space p → py.lstrip (p +:+ s) = py.lstrip s.
Proof.
  induction p as [|a p IH]; [done|]. intros [Ha Hp]%all_space_cons.
  rewrite str_app_cons /= Ha. by apply IH.
Qed.

Lemma rstrip_space (p : string) : all_space p → py.rstrip p = "".
Proof.
  induction p as [|a p IH]; [done|]. intros [Ha Hp]%all_space_cons.
  by rewrite /= IH // Ha.
Qed.

Lemma rstrip_app_space (s p : string) :
  all_space p → py.rstrip (s +:+ p) = py.rstrip s.
Proof.
  intros Hp. induction s as [|a s IH].
  - by rewrite str_app_nil_l rstrip_space.
  - by rewrite str_app_cons /= IH.
Qed.

Lemma strip_app_space (s p : string) :
  all_space p → py.strip (s +:+ p) = py.strip s.
Proof.
  intros Hp. unfold py.strip. induction s as [|a s IH].
  - rewrite str_app_nil_l -(str_app_nil_r p) lstrip_space_app //.
  - rewrite str_app_cons /=. destruct (py.isspace a); [done|].
    by rewrite -str_app_cons rstrip_app_space.
Qed.

(** Surrounding whitespace does not reach [strip]'s result. *)
Lemma strip_pad (p1 s p2 : string) :
  all_space p1 → all_space p2 → py.strip (p1 +:+ s +:+ p2) = py.strip s.
Proof.
  intros H1 H2. rewrite -str_app_assoc strip_app_space //.
  by rewrite /py.strip lstrip_space_app.
Qed.

Lemma contains_negative (t : string) :
  py.contains (falsy ++ more_falsy) (py.Str t)
  = bool_decide (t ∈ negative_answers).
Proof.
  destruct (decide (t ∈ negative_answers)) as [Hin|Hout].
  - rewrite bool_decide_eq_true_2 //. unfold negative_answers in Hin.
    repeat (apply elem_of_cons in Hin as [->|Hin]; [by vm_compute|]).
    by apply elem_of_nil in Hin.
  - rewrite bool_decide_eq_false_2 //.
    apply not_true_is_false. intros Hc. apply Hout.
    apply existsb_exists in Hc as (y & Hy & Heq).
    apply list_elem_of_In in Hy.
    rewrite /falsy /more_falsy /= in Hy.
    repeat (apply elem_of_cons in Hy as [->|Hy];
            [simpl in Heq; try done; apply bool_decide_eq_true in Heq as ->;
             rewrite /negative_answers; set_solver|]).
    by apply elem_of_nil in Hy.
Qed.

Lemma lower_nil (s : string) : py.lower s = "" ↔ s = "".
Proof. by destruct s. Qed.

Lemma to_bool_negative (s : string) :
  to_bool (py.Str s) true = false ↔ py.lower (py.strip s) ∈ negative_answers.
Proof.
  unfold to_bool. rewrite contains_negative. case_bool_decide as Hin; [done|].
  split; [|done]. simpl. intros Hs%negb_false_iff%bool_decide_eq_true.
  destruct Hin. rewrite Hs /negative_answers. left.
Qed.

(** X16: on a string [to_bool] answers false exactly for the negative
    answers: when, stripped of surrounding whitespace and lower-cased, the
    string is empty or one of [n], [no], [not], [0], [0.0], [-], [false],
    [void], [null], [nil], [none].  Every other string, [yes] and [off]
    alike, counts as true.  Without the human-parseable words only a string
    of whitespace is false. *)
Theorem to_bool_str (s : string) :
  (to_bool (py.Str s) true = false ↔ py.lower (py.strip s) ∈ negative_answers)
  ∧ (to_bool (py.Str s) false = false ↔ py.strip s = "").
Proof.
  unfold to_bool. split.
  - rewrite contains_negative. case_bool_decide as Hin; [done|].
    split; [|done]. simpl. intros Hs%negb_false_iff%bool_decide_eq_true.
    destruct Hin. rewrite Hs /negative_answers. left.
  - rewrite /falsy /py.contains /= !orb_false_r.
    case_bool_decide as Hs; simpl.
    + by rewrite -lower_nil.
    + split; [done|]. by intros ?%lower_nil.
Qed.

(** X17: [to_bool] does not see the whitespace around a string nor the
    case of its letters. *)
Theorem to_bool_ignores_case_and_padding (p1 s p2 s' : string)
    (include_human_parseable : bool) :
  all_space p1 → all_space p2 → py.lower s = py.lower s' →
  to_bool (py.Str (p1 +:+ s +:+ p2)) include_human_parseable
  = to_bool (py.Str s') include_human_parseable.
Proof.
  intros H1 H2 Hs. unfold to_bool.
  by rewrite strip_pad // -!strip_lower Hs.
Qed.

Lemma to_bool_ignores_case_and_padding_witness :
  to_bool (py.Str ("  " +:+ "No" +:+ " ")) true = to_bool (py.Str "nO") true.
Proof.
  apply (to_bool_ignores_case_and_padding "  " "No" " " "nO" true).
  - intros c Hc. simpl in Hc. by destruct Hc as [<-|[<-|[]]].
  - intros c Hc. simpl in Hc. by destruct Hc as [<-|[]].
  - reflexivity.
Defined.

(** X18: on [None], booleans and integers [to_bool] is plain truthiness,
    with or without the human-parseable words. *)
Theorem to_bool_truthiness (x : py.obj) (include_human_parseable : bool) :
  (∀ s, x ≠ py.Str s) →
  to_bool x include_human_parseable = py.truth x.
Proof.
  intros Hx. destruct x as [|b|z|s].
  - by destruct include_human_parseable.
  - by destruct b, include_human_parseable.
  - destruct include_human_parseable;
      rewrite /to_bool /py.contains /falsy /more_falsy /=;
      by destruct (bool_decide (z = 0%Z)).
  - by destruct (Hx s).
Qed.

Lemma to_bool_truthiness_witness :
  to_bool (py.Int 0) true = py.truth (py.Int 0)
  ∧ to_bool (py.Int 7) true = py.truth (py.Int 7)
  ∧ to_bool (py.Bool true) false = py.truth (py.Bool true).
Proof.
  split; [|split].
  - by apply (to_bool_truthiness (py.Int 0) true).
  - by apply (to_bool_truthiness (py.Int 7) true).
  - by apply (to_bool_truthiness (py.Bool true) false).
Defined.

(** ** [main] *)

Lemma copied_reads (ps : list path) : copied (EvOpenRead <$> ps) = [].
Proof. by induction ps. Qed.

Lemma diff_then_dry_run {algorithm : HashAlgorithm}
    (render : list string → list (path * path * Action) → string)
    (o : set_order) (source_dir target_dir : path) (w : world) :
  fs.wf (w_fs w) = true →
  let run :=
    (results ← compare_directories source_dir target_dir;
     let results := Result_as_tuple <$> results in
     print (render headers results);;
     do_action o results true) w in
  run.1 = Ok () ∧ w_fs run.2 = w_fs w
  ∧ copied (w_trace run.2) = copied (w_trace w).
Proof.
  intros Hwf.
  destruct (compare_directories_trace source_dir target_dir w Hwf)
    as [results Hrun].
  cbv zeta. rewrite bind_run Hrun bind_run /= do_action_dry /=.
  repeat split.
  by rewrite -!app_assoc !copied_app copied_reads /= copied_prints !app_nil_r.
Qed.

(** X19: [main] copies files only when all three hold: the script is not
    in demo mode, [--dry-run] was not passed, and the answer to the prompt
    is a negative answer.  In every other case it returns normally, leaves
    the file system as it was and calls [copy2] for nothing. *)
Theorem main_with_copies_only_on_a_no {algorithm : HashAlgorithm}
    (render : list string → list (path * path * Action) → string)
    (o : set_order) (is_demo : bool) (script_dir : path) (cli : Namespace)
    (user_choice : string) (w : world) :
  fs.wf (w_fs w) = true →
  is_demo = true ∨ ns_dry_run cli = true
  ∨ py.lower (py.strip user_choice) ∉ negative_answers →
  (main_with render o is_demo script_dir cli user_choice w).1 = Ok ()
  ∧ w_fs (main_with render o is_demo script_dir cli user_choice w).2 = w_fs w
  ∧ copied (w_trace (main_with render o is_demo script_dir cli user_choice w).2)
    = copied (w_trace w).
Proof.
  intros Hwf Hcase. unfold main_with.
  destruct is_demo; simpl.
  { by apply (diff_then_dry_run render o). }
  destruct (ns_dry_run cli) eqn:Hdry; simpl.
  { by apply (diff_then_dry_run render o). }
  destruct Hcase as [|[|Hans]]; [done..|].
  assert (to_bool (py.Str user_choice) true = true) as ->.
  { apply not_false_is_true. by intros ?%to_bool_negative. }
  by apply (diff_then_dry_run render o).
Qed.

Lemma main_with_copies_only_on_a_no_witness :
  (main_with (algorithm := toy.identity_hash) (λ _ _, "table") CopyFirst false []
     (mkNamespace ["s"] ["t"] false) "Yes, please" (World demo.flat [])).1 = Ok ()
  ∧ w_fs (main_with (algorithm := toy.identity_hash) (λ _ _, "table") CopyFirst
            false [] (mkNamespace ["s"] ["t"] false) "Yes, please"
            (World demo.flat [])).2 = demo.flat
  ∧ copied (w_trace (main_with (algorithm := toy.identity_hash) (λ _ _, "table")
                       CopyFirst false [] (mkNamespace ["s"] ["t"] false)
                       "Yes, please" (World demo.flat [])).2)
    = copied [].
Proof.
  apply (main_with_copies_only_on_a_no (algorithm := toy.identity_hash)
           (λ _ _, "table") CopyFirst false [] (mkNamespace ["s"] ["t"] false)
           "Yes, please" (World demo.flat [])).
  - reflexivity.
  - right. right. vm_compute. intros Hin.
    repeat (apply elem_of_cons in Hin as [Heq|Hin]; [discriminate Heq|]).
    by apply elem_of_nil in Hin.
Defined.

(** X20: as shipped, with [IS_DEMO = True], [main] is a dry run on the
    [dir1] and [dir2] next to the script: whatever the command line and the
    answer, it returns normally, changes no file and calls [copy2] for
    nothing. *)
Theorem main_is_a_dry_run {algorithm : HashAlgorithm}
    (render : list string → list (path * path * Action) → string)
    (o : set_order) (script_dir : path) (cli : Namespace)
    (user_choice : string) (w : world) :
  fs.wf (w_fs w) = true →
  (main render o script_dir cli user_choice w).1 = Ok ()
  ∧ w_fs (main render o script_dir cli user_choice w).2 = w_fs w
  ∧ copied (w_trace (main render o script_dir cli user_choice w).2)
    = copied (w_trace w).
Proof.
  intros Hwf. unfold main, IS_DEMO, main_with. simpl.
  by apply (diff_then_dry_run render o).
Qed.

Lemma main_is_a_dry_run_witness :
  (main (algorithm := toy.identity_hash) (λ _ _, "table") CopyFirst []
     (mkNamespace ["s"] ["t"] false) "no" (World demo.flat [])).1 = Ok ()
  ∧ w_fs (main (algorithm := toy.identity_hash) (λ _ _, "table") CopyFirst []
            (mkNamespace ["s"] ["t"] false) "no" (World demo.flat [])).2
    = demo.flat
  ∧ copied (w_trace (main (algorithm := toy.identity_hash) (λ _ _, "table")
                       CopyFirst [] (mkNamespace ["s"] ["t"] false) "no"
                       (World demo.flat [])).2)
    = copied [].
Proof.
  apply (main_is_a_dry_run (algorithm := toy.identity_hash) (λ _ _, "table")
           CopyFirst [] (mkNamespace ["s"] ["t"] false) "no" (World demo.flat [])).
  reflexivity.
Defined.

(** ** What writing a file changes *)

Lemma lookup_set_entry_ne (x y : string) (c : node) (es : list (string * node)) :
  x ≠ y → fs.lookup_entry y (fs.set_entry x c es) = fs.lookup_entry y es.
Proof.
  intros Hne. induction es as [|[z d] es IH]; simpl.
  - case_decide; [by subst|done].
  - destruct (decide (x = z)) as [->|Hxz]; simpl.
    + case_decide; [by subst|done].
    + by rewrite IH.
Qed.

Lemma set_entry_elem (x y : string) (c d : node) (es : list (string * node)) :
  (y, d) ∈ fs.set_entry x c es → (y, d) = (x, c) ∨ (y, d) ∈ es.
Proof.
  induction es as [|[z e] es IH]; simpl.
  - intros ->%list_elem_of_singleton. by left.
  - destruct (decide (x = z)) as [->|Hxz].
    + intros [->|Hin]%elem_of_cons; [by left|]. right. by right.
    + intros [->|Hin]%elem_of_cons; [right; left|].
      destruct (IH Hin) as [|]; [by left|]. right. by right.
Qed.

Lemma names_set_entry (x : string) (c : node) (es : list (string * node)) :
  ((x ∈ fs.names es) ∧ (fs.names (fs.set_entry x c es) = fs.names es))
  ∨ ((x ∉ fs.names es) ∧ (fs.names (fs.set_entry x c es) = fs.names es ++ [x])).
Proof.
  unfold fs.names. induction es as [|[z e] es IH]; csimpl.
  - right. split; [|done]. by intros ?%elem_of_nil.
  - destruct (decide (x = z)) as [->|Hxz]; csimpl.
    + left. split; [left|done].
    + destruct IH as [[Hin Heq]|[Hout Heq]]; rewrite Heq.
      * left. split; [by right|done].
      * right. split; [|done]. by intros [?|?]%elem_of_cons.
Qed.

Lemma write_wf (p : path) (n n' : node) (data : list byte) (st : file_stat) :
  fs.wf n = true → fs.write n p data st = Ok n' → fs.wf n' = true.
Proof.
  revert n n'. induction p as [|x p IH]; intros n n' Hwf; simpl.
  - destruct n; [|done]. by intros [= <-].
  - destruct n as [|es]; [done|].
    pose proof (proj1 (wf_dir es) Hwf) as [Hnd Hall].
    assert (∀ c, fs.wf c = true → fs.wf (Dir (fs.set_entry x c es)) = true) as Hset.
    { intros c Hc. apply wf_dir. split.
      - destruct (names_set_entry x c es) as [[_ ->]|[Hout ->]]; [done|].
        apply NoDup_app. split; [done|]. split; [|apply NoDup_singleton].
        by intros y Hy ->%list_elem_of_singleton.
      - intros y d [[= -> ->]|Hin]%set_entry_elem; [done|]. by eapply Hall. }
    destruct (fs.lookup_entry x es) as [c|] eqn:Hx.
    + destruct (fs.write c p data st) as [c'|] eqn:Hw; [|done].
      simpl. intros [= <-]. apply Hset. apply (IH c); [|done].
      apply (Hall x). by apply lookup_entry_Some.
    + destruct p; [|done]. intros [= <-]. by apply Hset.
Qed.

(** Writing at [p] leaves every path alone that is neither above nor
    below [p]. *)
Lemma write_incomparable (p q : path) (n n' : node) (data : list byte)
    (st : file_stat) :
  fs.write n p data st = Ok n' →
  ¬ q `prefix_of` p → ¬ p `prefix_of` q →
  fs.stat n' q = fs.stat n q.
Proof.
  revert n n' q. induction p as [|x p IH]; intros n n' q Hw Hqp Hpq.
  { destruct Hpq. apply prefix_nil. }
  destruct q as [|y q]; [destruct Hqp; apply prefix_nil|].
  simpl in Hw. destruct n as [|es]; [done|]. simpl.
  destruct (decide (x = y)) as [<-|Hxy].
  - assert (¬ q `prefix_of` p) as Hqp' by (intros H; apply Hqp; by apply prefix_cons).
    assert (¬ p `prefix_of` q) as Hpq' by (intros H; apply Hpq; by apply prefix_cons).
    destruct (fs.lookup_entry x es) as [c|] eqn:Hx.
    + destruct (fs.write c p data st) as [c'|] eqn:Hwc; [|done].
      simpl in Hw. injection Hw as <-. simpl. rewrite lookup_set_entry.
      by apply IH.
    + destruct p; [|done]. destruct Hpq'. apply prefix_nil.
  - assert (∀ c, fs.lookup_entry y (fs.set_entry x c es) = fs.lookup_entry y es)
      as Hl by (intros c; by apply lookup_set_entry_ne).
    destruct (fs.lookup_entry x es) as [c|] eqn:Hx.
    + destruct (fs.write c p data st) as [c'|] eqn:Hwc; [|done].
      simpl in Hw. injection Hw as <-. simpl. by rewrite Hl.
    + destruct p; [|done]. injection Hw as <-. simpl. by rewrite Hl.
Qed.

(** Every path strictly above an existing path is a directory. *)
Lemma stat_prefix_dir (n d : node) (p q : path) :
  fs.stat n p = Ok d → q `prefix_of` p → q ≠ p →
  ∃ es, fs.stat n q = Ok (Dir es).
Proof.
  intros Hp [r ->] Hne. rewrite stat_app in Hp.
  destruct (fs.stat n q) as [c|]; [|done]. simpl in Hp.
  destruct r as [|x r]; [by rewrite app_nil_r in Hne|].
  destruct c as [|es]; [done|]. by exists es.
Qed.

(** A successful write went through directories, to a place that was not
    one. *)
Lemma write_prefix_dir (p q : path) (n n' : node) (data : list byte)
    (st : file_stat) :
  fs.write n p data st = Ok n' → q `prefix_of` p → q ≠ p →
  ∃ es, fs.stat n q = Ok (Dir es).
Proof.
  revert n n' q. induction p as [|x p IH]; intros n n' q Hw Hqp Hne.
  { apply prefix_nil_inv in Hqp. by subst. }
  simpl in Hw. destruct n as [|es]; [done|].
  destruct q as [|y q]; [by exists es|].
  assert (y = x) as -> by (by apply prefix_cons_inv_1 in Hqp).
  apply prefix_cons_inv_2 in Hqp. simpl.
  destruct (fs.lookup_entry x es) as [c|] eqn:Hx.
  - destruct (fs.write c p data st) as [c'|] eqn:Hwc; [|done].
    apply (IH c c'); [done..|]. by intros ->.
  - destruct p; [|done]. apply prefix_nil_inv in Hqp. by subst.
Qed.

Lemma write_not_dir (p : path) (n n' : node) (data : list byte) (st : file_stat)
    (es : list (string * node)) :
  fs.write n p data st = Ok n' → fs.stat n p ≠ Ok (Dir es).
Proof.
  revert n n'. induction p as [|x p IH]; intros n n'; simpl.
  - destruct n; [|done]. by intros _.
  - destruct n as [|es']; [done|].
    destruct (fs.lookup_entry x es') as [c|] eqn:Hx; [|done].
    destruct (fs.write c p data st) as [c'|] eqn:Hwc; [|done].
    intros _. by apply (IH c c').
Qed.

(** A write changes no regular file but the one it writes. *)
Lemma write_frame_file (p q : path) (n n' : node) (data d : list byte)
    (st s : file_stat) :
  fs.write n p data st = Ok n' → q ≠ p →
  fs.stat n q = Ok (File d s) ↔ fs.stat n' q = Ok (File d s).
Proof.
  intros Hw Hne.
  destruct (decide (q `prefix_of` p)) as [Hqp|Hqp].
  { split; intros Hq.
    - destruct (write_prefix_dir p q n n' data st Hw Hqp Hne) as [es Hes]. congruence.
    - destruct (stat_prefix_dir n' (File data st) p q) as [es Hes];
        [by eapply write_stat|done..|congruence]. }
  destruct (decide (p `prefix_of` q)) as [Hpq|Hpq].
  { split; intros Hq.
    - destruct (stat_prefix_dir n (File d s) q p) as [es Hes]; [done..|].
      by destruct (write_not_dir p n n' data st es Hw).
    - destruct (stat_prefix_dir n' (File d s) q p) as [es Hes]; [done..|].
      apply write_stat in Hw. congruence. }
  by rewrite (write_incomparable p q n n' data st).
Qed.

(** A write makes no directory and unmakes none. *)
Lemma write_isdir (p q : path) (n n' : node) (data : list byte) (st : file_stat) :
  fs.write n p data st = Ok n' → fs.isdir n' q = fs.isdir n q.
Proof.
  intros Hw. unfold fs.isdir.
  destruct (decide (q = p)) as [->|Hne].
  { rewrite (write_stat p n n' data st Hw).
    destruct (fs.stat n p) as [[|es]|] eqn:Hp; try done.
    by destruct (write_not_dir p n n' data st es Hw). }
  destruct (decide (q `prefix_of` p)) as [Hqp|Hqp].
  { destruct (write_prefix_dir p q n n' data st Hw Hqp Hne) as [es ->].
    destruct (stat_prefix_dir n' (File data st) p q) as [es' ->];
      [by eapply write_stat|done..]. }
  destruct (decide (p `prefix_of` q)) as [Hpq|Hpq].
  { destruct (fs.stat n' q) as [[|es']|] eqn:Hq'.
    - destruct (fs.stat n q) as [[|es]|] eqn:Hq; try done.
      destruct (stat_prefix_dir n (Dir es) q p) as [es0 Hes]; [done..|].
      by destruct (write_not_dir p n n' data st es0 Hw).
    - destruct (stat_prefix_dir n' (Dir es') q p) as [es0 Hes]; [done..|].
      apply write_stat in Hw. congruence.
    - destruct (fs.stat n q) as [[|es]|] eqn:Hq; try done.
      destruct (stat_prefix_dir n (Dir es) q p) as [es0 Hes]; [done..|].
      by destruct (write_not_dir p n n' data st es0 Hw). }
  by rewrite (write_incomparable p q n n' data st).
Qed.

(** A write removes nothing. *)
Lemma write_exists (p q : path) (n n' : node) (data : list byte) (st : file_stat) :
  fs.write n p data st = Ok n' → fs.exists_ n q = true → fs.exists_ n' q = true.
Proof.
  intros Hw. unfold fs.exists_.
  destruct (decide (q = p)) as [->|Hne].
  { by rewrite (write_stat p n n' data st Hw). }
  destruct (decide (q `prefix_of` p)) as [Hqp|Hqp].
  { destruct (stat_prefix_dir n' (File data st) p q) as [es' ->];
      [by eapply write_stat|done..]. }
  destruct (decide (p `prefix_of` q)) as [Hpq|Hpq].
  { destruct (fs.stat n q) as [d|] eqn:Hq; [|done].
    destruct (stat_prefix_dir n d q p) as [es0 Hes]; [done..|].
    by destruct (write_not_dir p n n' data st es0 Hw). }
  by rewrite (write_incomparable p q n n' data st).
Qed.

(** ** What the apply step changes in the file system *)

(** One committing round either raises and leaves the file system alone,
    or writes the bytes and the metadata of the source at the place
    [copy2] chose. *)
Lemma apply_entry_fs (e : path * path * Action) (w : world) :
  let dst := if fs.isdir (w_fs w) e.1.2
             then os_path.join e.1.2 [os_path.basename e.1.1] else e.1.2 in
  match apply_entry false e w with
  | (Ok _, w') =>
      ∃ data st, fs.stat (w_fs w) e.1.1 = Ok (File data st)
                 ∧ fs.write (w_fs w) dst data st = Ok (w_fs w')
  | (Raise _, w') => w_fs w' = w_fs w
  end.
Proof.
  destruct e as [[s t] a]. unfold apply_entry. rewrite !bind_run copy2_run /=.
  destruct (_ && _); [done|].
  destruct (fs.stat (w_fs w) s) as [[data st|es]|ex]; try done.
  destruct (fs.write _ _ _ _) as [n'|ex] eqn:Hw; [|done].
  simpl. by exists data, st.
Qed.

(** A property of the file system that every write of the second loop
    keeps holds when the loop ends, however it ends. *)
Lemma apply_loop_inv (I : node → Prop) (l : list (path * path * Action))
    (w : world) :
  I (w_fs w) →
  (∀ e n n' data st,
     e ∈ l → I n → fs.stat n e.1.1 = Ok (File data st) →
     fs.write n (if fs.isdir n e.1.2
                 then os_path.join e.1.2 [os_path.basename e.1.1] else e.1.2)
       data st = Ok n' →
     I n') →
  I (w_fs (for_each l (apply_entry false) w).2).
Proof.
  revert w. induction l as [|x l IH]; intros w Hw Hstep; simpl; [done|].
  rewrite bind_run. pose proof (apply_entry_fs x w) as Hx. simpl in Hx.
  destruct (apply_entry false x w) as [[[]|ex] w1].
  - destruct Hx as (data & st & Hsrc & Hwr). apply IH.
    + apply (Hstep x (w_fs w) (w_fs w1) data st); [left|done..].
    + intros e n n' d s He. apply Hstep. by right.
  - simpl. by rewrite Hx.
Qed.

(** [do_action] is its second loop, run on the file system it was given. *)
Lemma do_action_loop (o : set_order) (results : list (path * path * Action))
    (dry_run : bool) (w : world) :
  ∃ t, do_action o results dry_run w
       = for_each (plan o results) (apply_entry dry_run) (World (w_fs w) t).
Proof.
  unfold do_action. rewrite bind_run.
  set (skipped := dict_get (group_by results (λ t, t.2)) NO_ACTION).
  assert (concat ((λ key, dict_get (group_by results (λ t, t.2)) key)
                    <$> mutation_options o) = plan o results) as ->.
  { unfold plan. f_equal. apply list_fmap_ext. intros _ k _. apply group_by_get. }
  assert ((if truthy skipped then
             for_each skipped (λ '(source_path, target_path, _),
               print ("No action: " +:+ os_path.path_str source_path))
           else mret ()) w
          = (Ok (), World (w_fs w) (w_trace w ++ (EvPrint ∘ skip_line <$> skipped)))) as ->.
  { destruct (truthy skipped) eqn:E; [apply skip_loop_run|].
    destruct skipped; [|done]. rewrite /= app_nil_r. by destruct w. }
  by eexists.
Qed.

Lemma do_action_inv (I : node → Prop) (o : set_order)
    (results : list (path * path * Action)) (dry_run : bool) (w : world) :
  I (w_fs w) →
  (∀ e n n' data st,
     e ∈ results → e.2 ≠ NO_ACTION → I n →
     fs.stat n e.1.1 = Ok (File data st) →
     fs.write n (if fs.isdir n e.1.2
                 then os_path.join e.1.2 [os_path.basename e.1.1] else e.1.2)
       data st = Ok n' →
     I n') →
  I (w_fs (do_action o results dry_run w).2).
Proof.
  intros Hw Hstep. destruct dry_run; [by rewrite do_action_dry|].
  destruct (do_action_loop o results false w) as [t ->].
  apply apply_loop_inv; [done|].
  intros e n n' data st He. apply Hstep.
  - rewrite plan_permutation in He.
    by apply list_elem_of_filter in He as [_ ?].
  - by eapply plan_mutating.
Qed.

(** X21 ([do_action], frame): a regular file that is not a place a Copy
    or Modify entry can be copied to -- neither the entry's target path
    nor, should that be a directory, the source's name inside it -- has
    the same bytes and metadata after [do_action] as before, however the
    call ends.  In particular the source files are left as they were. *)
Theorem do_action_changes_only_destinations (o : set_order)
    (results : list (path * path * Action)) (dry_run : bool) (w : world)
    (q : path) (data : list byte) (st : file_stat) :
  fs.stat (w_fs w) q = Ok (File data st) →
  (∀ e, e ∈ results → e.2 ≠ NO_ACTION →
        q ≠ e.1.2 ∧ q ≠ os_path.join e.1.2 [os_path.basename e.1.1]) →
  fs.stat (w_fs (do_action o results dry_run w).2) q = Ok (File data st).
Proof.
  intros Hq Hdst.
  apply (do_action_inv (λ n, fs.stat n q = Ok (File data st))); [done|].
  intros e n n' d s He Hmut Hn _ Hwr.
  destruct (Hdst e He Hmut) as [H1 H2].
  apply (write_frame_file _ q n n' d data s st Hwr); [|done].
  by destruct (fs.isdir n e.1.2).
Qed.

Lemma do_action_changes_only_destinations_witness :
  fs.stat (w_fs (do_action CopyFirst demo.flat_results false
                   (World demo.flat [])).2) ["s"; "a.txt"]
  = fs.stat demo.flat ["s"; "a.txt"].
Proof.
  destruct (fs.stat demo.flat ["s"; "a.txt"]) as [[data st|]|] eqn:Hq;
    [|by vm_compute in Hq..].
  apply (do_action_changes_only_destinations CopyFirst
           demo.flat_results false (World demo.flat [])
           ["s"; "a.txt"] data st Hq).
  intros e He Hmut. vm_compute in He.
  repeat (apply elem_of_cons in He as [->|He]; [by vm_compute|]).
  by apply elem_of_nil in He.
Defined.

(** X22 ([do_action], nothing removed): whatever the entries and however
    the call ends, every path that existed before [do_action] exists
    after it, and the directories after it are exactly the directories
    before it: the apply step deletes nothing, makes no directory and
    replaces none. *)
Theorem do_action_removes_nothing (o : set_order)
    (results : list (path * path * Action)) (dry_run : bool) (w : world)
    (q : path) :
  (fs.exists_ (w_fs w) q = true →
   fs.exists_ (w_fs (do_action o results dry_run w).2) q = true)
  ∧ fs.isdir (w_fs (do_action o results dry_run w).2) q = fs.isdir (w_fs w) q.
Proof.
  split.
  - intros Hq. apply (do_action_inv (λ n, fs.exists_ n q = true)); [done|].
    intros e n n' d s _ _ Hn _ Hwr. by eapply write_exists.
  - apply (do_action_inv (λ n, fs.isdir n q = fs.isdir (w_fs w) q)); [done|].
    intros e n n' d s _ _ Hn _ Hwr. rewrite -Hn. by eapply write_isdir.
Qed.

(** ** Applying a comparison and comparing again *)

Lemma NoDup_fmap_inj_on {A B : Type} (f : A → B) (l : list A) (a b : A) :
  NoDup (f <$> l) → a ∈ l → b ∈ l → f a = f b → a = b.
Proof.
  induction l as [|c l IH]; intros Hnd Ha Hb Heq.
  { by apply elem_of_nil in Ha. }
  rewrite fmap_cons in Hnd. apply NoDup_cons in Hnd as [Hc Hnd].
  apply elem_of_cons in Ha as [->|Ha]; apply elem_of_cons in Hb as [->|Hb].
  - done.
  - destruct Hc. rewrite Heq. by apply list_elem_of_fmap_2.
  - destruct Hc. rewrite -Heq. by apply list_elem_of_fmap_2.
  - by apply IH.
Qed.

(** While no target path is a directory, every copy of the second loop
    goes to the target path itself. *)
Lemma apply_loop_inv_files (I : node → Prop) (l : list (path * path * Action))
    (w : world) :
  (∀ e, e ∈ l → fs.isdir (w_fs w) e.1.2 = false) →
  I (w_fs w) →
  (∀ e n n' data st,
     e ∈ l → I n → fs.stat n e.1.1 = Ok (File data st) →
     fs.write n e.1.2 data st = Ok n' → I n') →
  I (w_fs (for_each l (apply_entry false) w).2).
Proof.
  intros Hdir Hw Hstep.
  apply (apply_loop_inv
           (λ n, I n ∧ ∀ e, e ∈ l → fs.isdir n e.1.2 = false) l w); [done|].
  intros e n n' data st He [Hn Hd] Hsrc Hwr. rewrite (Hd e He) in Hwr. split.
  - by apply (Hstep e n n' data st).
  - intros e' He'. rewrite (write_isdir _ _ _ _ _ _ Hwr). by apply Hd.
Qed.

Lemma apply_loop_copies (l : list (path * path * Action)) (w w' : world) :
  for_each l (apply_entry false) w = (Ok (), w') →
  (∀ e, e ∈ l → fs.isdir (w_fs w) e.1.2 = false) →
  NoDup ((λ e, e.1.2) <$> l) →
  (∀ e e', e ∈ l → e' ∈ l → e.1.1 ≠ e'.1.2) →
  ∀ e, e ∈ l →
    ∃ data st, fs.stat (w_fs w) e.1.1 = Ok (File data st)
               ∧ fs.stat (w_fs w') e.1.2 = Ok (File data st).
Proof.
  revert w. induction l as [|x l IH]; intros w Hrun Hdir Hnd Hst e He.
  { by apply elem_of_nil in He. }
  simpl in Hrun. rewrite bind_run in Hrun.
  pose proof (apply_entry_fs x w) as Hx. simpl in Hx.
  destruct (apply_entry false x w) as [[[]|ex] w1]; [|done].
  destruct Hx as (data & st & Hsrc & Hwr).
  rewrite (Hdir x) in Hwr; [|left].
  rewrite fmap_cons in Hnd. apply NoDup_cons in Hnd as [Hx_notin Hnd].
  assert (∀ e, e ∈ l → fs.isdir (w_fs w1) e.1.2 = false) as Hdir1.
  { intros e' He'. rewrite (write_isdir _ _ _ _ _ _ Hwr). apply Hdir. by right. }
  apply elem_of_cons in He as [->|He].
  - exists data, st. split; [done|].
    pose proof (apply_loop_inv_files
                  (λ n, fs.stat n x.1.2 = Ok (File data st)) l w1 Hdir1) as Hinv.
    rewrite Hrun in Hinv. apply Hinv.
    + by eapply write_stat.
    + intros e' n n' d s He' Hn _ Hwr'.
      apply (write_frame_file _ x.1.2 n n' d data s st Hwr'); [|done].
      intros Heq. apply Hx_notin. rewrite Heq.
      by apply (list_elem_of_fmap_2 (λ e, e.1.2)).
  - destruct (IH w1 Hrun Hdir1 Hnd) with (e := e) as (d & s & Hs1 & Ht); [|done|].
    { intros e1 e2 H1 H2. apply Hst; by right. }
    exists d, s. split; [|done].
    apply (write_frame_file _ e.1.1 _ _ _ _ _ _ Hwr); [|done].
    apply Hst; [by right|left].
Qed.

Lemma plan_targets_NoDup (o : set_order) (results : list (path * path * Action)) :
  NoDup ((λ e, e.1.2) <$> results) →
  NoDup ((λ e, e.1.2) <$> plan o results).
Proof.
  intros Hnd. rewrite plan_permutation.
  eapply sublist_NoDup; [exact Hnd|]. apply fmap_sublist, sublist_filter.
Qed.

Lemma plan_elem (o : set_order) (results : list (path * path * Action)) e :
  e ∈ plan o results ↔ e ∈ results ∧ e.2 ≠ NO_ACTION.
Proof. by rewrite plan_permutation list_elem_of_filter and_comm. Qed.

(** A committing [do_action] that returns has put the bytes and the
    metadata of every Copy or Modify source at its target. *)
Lemma do_action_copies (o : set_order) (results : list (path * path * Action))
    (w w' : world) :
  do_action o results false w = (Ok (), w') →
  NoDup ((λ e, e.1.2) <$> results) →
  (∀ e, e ∈ results → fs.isdir (w_fs w) e.1.2 = false) →
  (∀ e e', e ∈ results → e' ∈ results → e.1.1 ≠ e'.1.2) →
  ∀ e, e ∈ results → e.2 ≠ NO_ACTION →
    ∃ data st, fs.stat (w_fs w) e.1.1 = Ok (File data st)
               ∧ fs.stat (w_fs w') e.1.2 = Ok (File data st).
Proof.
  intros Hrun Hnd Hdir Hst e He Hmut.
  destruct (do_action_loop o results false w) as [t Hloop].
  rewrite Hloop in Hrun.
  apply (apply_loop_copies (plan o results) (World (w_fs w) t) w' Hrun).
  - intros e' [He' _]%plan_elem. by apply Hdir.
  - by apply plan_targets_NoDup.
  - intros e1 e2 [H1 _]%plan_elem [H2 _]%plan_elem. by apply Hst.
  - by apply plan_elem.
Qed.

Lemma do_action_inv_files (I : node → Prop) (o : set_order)
    (results : list (path * path * Action)) (w : world) :
  (∀ e, e ∈ results → fs.isdir (w_fs w) e.1.2 = false) →
  I (w_fs w) →
  (∀ e n n' data st,
     e ∈ results → e.2 ≠ NO_ACTION → I n →
     fs.stat n e.1.1 = Ok (File data st) →
     fs.write n e.1.2 data st = Ok n' → I n') →
  I (w_fs (do_action o results false w).2).
Proof.
  intros Hdir Hw Hstep.
  apply (do_action_inv
           (λ n, I n ∧ ∀ e, e ∈ results → fs.isdir n e.1.2 = false)
           o results false w); [done|].
  intros e n n' data st He Hmut [Hn Hd] Hsrc Hwr. rewrite (Hd e He) in Hwr. split.
  - by apply (Hstep e n n' data st).
  - intros e' He'. rewrite (write_isdir _ _ _ _ _ _ Hwr). by apply Hd.
Qed.

(** X23 ([do_action], what a completed run has done): when the target
    paths are pairwise distinct, none of them is a directory and none is
    also a source path, a committing [do_action] that returns normally
    has put at the target of every Copy or Modify entry the bytes and the
    metadata its source had, and has left that source as it was. *)
Theorem do_action_copies_sources_to_targets (o : set_order)
    (results : list (path * path * Action)) (w w' : world) :
  do_action o results false w = (Ok (), w') →
  NoDup ((λ e, e.1.2) <$> results) →
  (∀ e, e ∈ results → fs.isdir (w_fs w) e.1.2 = false) →
  (∀ e e', e ∈ results → e' ∈ results → e.1.1 ≠ e'.1.2) →
  ∀ e, e ∈ results → e.2 ≠ NO_ACTION →
    ∃ data st, fs.stat (w_fs w) e.1.1 = Ok (File data st)
               ∧ fs.stat (w_fs w') e.1.2 = Ok (File data st)
               ∧ fs.stat (w_fs w') e.1.1 = Ok (File data st).
Proof.
  intros Hrun Hnd Hdir Hst e He Hmut.
  destruct (do_action_copies o results w w' Hrun Hnd Hdir Hst e He Hmut)
    as (data & st & Hsrc & Htgt).
  exists data, st. split; [done|]. split; [done|].
  pose proof (do_action_inv_files
                (λ n, fs.stat n e.1.1 = Ok (File data st)) o results w Hdir Hsrc)
    as Hinv.
  rewrite Hrun in Hinv. apply Hinv.
  intros e' n n' d s He' _ Hn _ Hwr.
  apply (write_frame_file _ e.1.1 n n' d data s st Hwr); [|done].
  by apply Hst.
Qed.

Lemma do_action_copies_sources_to_targets_witness :
  ∃ data st,
    fs.stat demo.flat ["s"; "b.txt"] = Ok (File data st)
    ∧ fs.stat (w_fs (do_action CopyFirst demo.flat_results false
                       (World demo.flat [])).2) ["t"; "b.txt"]
      = Ok (File data st)
    ∧ fs.stat (w_fs (do_action CopyFirst demo.flat_results false
                       (World demo.flat [])).2) ["s"; "b.txt"]
      = Ok (File data st).
Proof.
  apply (do_action_copies_sources_to_targets CopyFirst demo.flat_results
           (World demo.flat [])
           (do_action CopyFirst demo.flat_results false (World demo.flat [])).2)
    with (e := (["s"; "b.txt"], ["t"; "b.txt"], MODIFY)).
  - reflexivity.
  - vm_compute. repeat (apply NoDup_cons; split;
      [intros H; repeat (apply elem_of_cons in H as [H|H]; [done|]);
       by apply elem_of_nil in H|]).
    apply NoDup_nil_2.
  - intros e He. vm_compute in He.
    repeat (apply elem_of_cons in He as [->|He]; [reflexivity|]).
    by apply elem_of_nil in He.
  - intros e e' He He'. vm_compute in He, He'.
    repeat (apply elem_of_cons in He as [->|He];
      [repeat (apply elem_of_cons in He' as [->|He']; [done|]);
       by apply elem_of_nil in He'|]).
    by apply elem_of_nil in He.
  - right. left.
  - done.
Defined.

Lemma fingerprint_same_name {algorithm : HashAlgorithm} (q q' : path)
    (x : string) (data : list byte) :
  fingerprint (q ++ [x]) data = fingerprint (q' ++ [x]) data.
Proof.
  unfold fingerprint. f_equal.
  destruct (path_str_snoc q x) as [d ->], (path_str_snoc q' x) as [d' ->].
  destruct (sep_split x) as (xdir & name & -> & Hname & Hxdir & _).
  rewrite -!(str_app_assoc _ xdir name).
  apply splitext_ext_name; [done|..].
  - right. destruct Hxdir as [->|[e ->]].
    + exists d. by rewrite str_app_nil_r.
    + exists ((d +:+ "/") +:+ e). by rewrite !str_app_assoc.
  - right. destruct Hxdir as [->|[e ->]].
    + exists d'. by rewrite str_app_nil_r.
    + exists ((d' +:+ "/") +:+ e). by rewrite !str_app_assoc.
Qed.

(** X24 (compare, apply, compare again): take two roots neither of which
    lies inside the other, compare them, and apply the results for real.
    If no target path was a directory and the apply step returned
    normally, a second comparison finds the same source files and
    NoAction for every one of them. *)
Theorem compare_after_apply {algorithm : HashAlgorithm} (o : set_order)
    (source_dir target_dir : path) (w w1 w2 : world) (results : list Result) :
  fs.wf (w_fs w) = true →
  ¬ source_dir `prefix_of` target_dir →
  ¬ target_dir `prefix_of` source_dir →
  compare_directories source_dir target_dir w = (Ok results, w1) →
  (∀ r, r ∈ results → fs.isdir (w_fs w) (target_path r) = false) →
  do_action o (Result_as_tuple <$> results) false w1 = (Ok (), w2) →
  ∃ results' w3,
    compare_directories source_dir target_dir w2 = (Ok results', w3)
    ∧ source_path <$> results' = source_path <$> results
    ∧ ∀ r, r ∈ results' → action r = NO_ACTION.
Proof.
  intros Hwf Hst Hts Hcmp Hdir Hact.
  destruct (compare_directories_run source_dir target_dir w Hwf)
    as (w1' & Hrun & Hfs1).
  rewrite Hrun in Hcmp. injection Hcmp as <- <-.
  set (n := w_fs w) in *. set (files := walked_files n source_dir) in *.
  set (res := result_for n source_dir target_dir) in *.
  set (rs := Result_as_tuple <$> (res <$> files)) in *.
  assert (Hel : ∀ sp, sp ∈ files →
            ∃ rel data st, rel ≠ [] ∧ sp = source_dir ++ rel
              ∧ fs.stat n sp = Ok (File data st)
              ∧ target_path (res sp) = target_dir ++ rel).
  { intros sp (rel & data & st & Hrel & -> & Hsp)%walked_files_elem; [|done].
    exists rel, data, st. by rewrite /res /result_for /= relpath_below_start. }
  assert (Hrs : ∀ e, e ∈ rs → ∃ sp, sp ∈ files ∧ e = Result_as_tuple (res sp)).
  { intros e (r & -> & (sp & -> & Hsp)%list_elem_of_fmap)%list_elem_of_fmap.
    by exists sp. }
  assert (Hin : ∀ sp, sp ∈ files → Result_as_tuple (res sp) ∈ rs).
  { intros sp Hsp. by apply list_elem_of_fmap_2, list_elem_of_fmap_2. }
  assert (Hnd : NoDup ((λ e, e.1.2) <$> rs)).
  { rewrite /rs -!list_fmap_compose.
    apply NoDup_fmap_2_strong; [|by apply walked_files_NoDup].
    intros sp1 sp2 H1 H2 Heq.
    change (target_path (res sp1) = target_path (res sp2)) in Heq.
    destruct (Hel sp1 H1) as (rel1 & ? & ? & _ & -> & _ & Ht1).
    destruct (Hel sp2 H2) as (rel2 & ? & ? & _ & -> & _ & Ht2).
    rewrite Ht1 Ht2 in Heq. by apply app_inv_head in Heq as ->. }
  assert (Hdir1 : ∀ e, e ∈ rs → fs.isdir (w_fs w1') e.1.2 = false).
  { intros e (sp & Hsp & ->)%Hrs. rewrite Hfs1. apply Hdir.
    by apply list_elem_of_fmap_2. }
  assert (Hcross : ∀ rel rel' : path, source_dir ++ rel ≠ target_dir ++ rel').
  { intros rel rel' Heq.
    destruct (prefix_weak_total source_dir target_dir (source_dir ++ rel));
      [by eexists|rewrite Heq; by eexists|done..]. }
  assert (Hdisj : ∀ e e', e ∈ rs → e' ∈ rs → e.1.1 ≠ e'.1.2).
  { intros e e' (sp & Hsp & ->)%Hrs (sp' & Hsp' & ->)%Hrs.
    change (sp ≠ target_path (res sp')).
    destruct (Hel sp Hsp) as (rel & ? & ? & _ & -> & _ & _).
    destruct (Hel sp' Hsp') as (rel' & ? & ? & _ & _ & _ & ->).
    apply Hcross. }
  set (n2 := w_fs w2).
  assert (Hwf2 : fs.wf n2 = true).
  { pose proof (do_action_inv (λ m, fs.wf m = true) o rs false w1') as Hinv.
    rewrite Hact Hfs1 in Hinv. apply Hinv; [done|].
    intros e m m' data st _ _ Hm _ Hwr. by eapply write_wf. }
  assert (Hroot : fs.stat n2 source_dir = fs.stat n source_dir).
  { pose proof (do_action_inv_files
                  (λ m, fs.stat m source_dir = fs.stat n source_dir)
                  o rs w1' Hdir1) as Hinv.
    rewrite Hact Hfs1 in Hinv. apply Hinv; [done|].
    intros e m m' data st (sp & Hsp & ->)%Hrs _ Hm _ Hwr.
    change (fs.write m (target_path (res sp)) data st = Ok m') in Hwr.
    destruct (Hel sp Hsp) as (rel & ? & ? & _ & _ & _ & Htp).
    rewrite Htp in Hwr. rewrite -Hm.
    apply (write_incomparable _ _ _ _ _ _ Hwr).
    - intros [k Hk]. by destruct (Hcross k rel).
    - intros [k Hk]. apply Hts. exists (rel ++ k). by rewrite Hk app_assoc. }
  assert (Hwalk : walked_files n2 source_dir = files).
  { by rewrite /files /walked_files /fs.walk Hroot. }
  destruct (compare_directories_run source_dir target_dir w2 Hwf2)
    as (w3 & Hrun2 & _).
  eexists _, w3. split; [exact Hrun2|]. fold n2. rewrite Hwalk. split.
  { rewrite -!list_fmap_compose. by apply list_fmap_ext. }
  intros r (sp & -> & Hsp)%list_elem_of_fmap.
  destruct (Hel sp Hsp) as (rel & data & st & Hrel & -> & Hsrc & Htp).
  assert (fs.stat n2 (source_dir ++ rel) = Ok (File data st)) as Hsrc2.
  { by rewrite stat_app Hroot -stat_app. }
  rewrite /result_for /= relpath_below_start // /os_path.join.
  pose proof (Hin _ Hsp) as He.
  set (e := Result_as_tuple (res (source_dir ++ rel))) in *.
  assert (e.1.2 = target_dir ++ rel) as Het by done.
  enough (∃ d s, fs.stat n2 (target_dir ++ rel) = Ok (File d s)
                 ∧ FileMetadata_as_tuple (fingerprint (source_dir ++ rel) data)
                   = FileMetadata_as_tuple (fingerprint (target_dir ++ rel) d))
    as (d & s & Htgt2 & Hfp).
  { rewrite /fs.isfile Htgt2 !fingerprint_in_run Hsrc2 Htgt2 Hfp decide_True //. }
  destruct (decide (e.2 = NO_ACTION)) as [Hno|Hmut].
  - (* the target was left alone; it matched before and matches still *)
    rewrite /e /res /result_for /= relpath_below_start // /os_path.join in Hno.
    destruct (fs.isfile n (target_dir ++ rel)) eqn:Hfile; [|done].
    case_decide as Hfp; [|done].
    unfold fs.isfile in Hfile.
    destruct (fs.stat n (target_dir ++ rel)) as [[d s|]|] eqn:Htgt; try done.
    rewrite !fingerprint_in_run Hsrc Htgt in Hfp.
    exists d, s. split; [|congruence].
    pose proof (do_action_inv_files
                  (λ m, fs.stat m (target_dir ++ rel) = Ok (File d s))
                  o rs w1' Hdir1) as Hinv.
    rewrite Hact Hfs1 in Hinv. apply Hinv; [done|].
    intros e' m m' d' s' He' Hmut' Hm _ Hwr.
    apply (write_frame_file _ (target_dir ++ rel) m m' d' d s' s Hwr); [|done].
    intros Heq. apply Hmut'.
    rewrite -(NoDup_fmap_inj_on (λ e, e.1.2) rs e e' Hnd He He'); [|by rewrite Het].
    rewrite /e /res /result_for /= relpath_below_start // /os_path.join.
    rewrite /fs.isfile Htgt !fingerprint_in_run Hsrc Htgt decide_True //.
  - (* the target was written: it holds the bytes of the source *)
    destruct (do_action_copies o rs w1' w2 Hact Hnd Hdir1 Hdisj e He Hmut)
      as (d & s & Hs & Ht).
    rewrite Hfs1 in Hs. change (e.1.1) with (source_dir ++ rel) in Hs.
    rewrite Hsrc in Hs. injection Hs as <- <-.
    rewrite Het in Ht. exists data, st. split; [done|].
    destruct rel as [|x rel _] using rev_ind; [done|].
    by rewrite !app_assoc (fingerprint_same_name _ (target_dir ++ rel)).
Qed.

Lemma compare_after_apply_witness :
  let first := compare_directories (algorithm := toy.identity_hash)
                 ["s"] ["t"] (World demo.flat []) in
  let results := match first.1 with Ok rs => rs | Raise _ => [] end in
  let applied := do_action ModifyFirst (Result_as_tuple <$> results) false
                   first.2 in
  applied.1 = Ok ()
  ∧ ∃ results' w3,
      compare_directories (algorithm := toy.identity_hash) ["s"] ["t"]
        applied.2 = (Ok results', w3)
      ∧ source_path <$> results' = source_path <$> results
      ∧ ∀ r, r ∈ results' → action r = NO_ACTION.
Proof.
  intros first results applied. split; [reflexivity|].
  apply (compare_after_apply (algorithm := toy.identity_hash) ModifyFirst
           ["s"] ["t"] (World demo.flat []) first.2 applied.2 results).
  - reflexivity.
  - intros [k Hk]. discriminate Hk.
  - intros [k Hk]. discriminate Hk.
  - reflexivity.
  - intros r Hr. vm_compute in Hr.
    repeat (apply elem_of_cons in Hr as [->|Hr]; [reflexivity|]).
    by apply elem_of_nil in Hr.
  - reflexivity.
Defined.
